(** * SecHeto-FL: the federated-learning server, embedded and verified

    A shallow embedding of the server side of SecHeto-FL:
    - [server/src/modelQuality.ts]: [ModelQualityCalculator] (quality score,
      client selection);
    - [server/src/server.ts]: round orchestration, deadline arming,
      aggregation ([federatedAveragingAll], [performAggregation]) and the
      HTTP handlers that mutate the server state.

    JavaScript numbers are IEEE-754 binary64 values, so they are embedded as
    Rocq's primitive [float]s: [+], [-], [*], [/] and the comparisons round
    and compare exactly as the running server does.  [Math.exp] and
    [Math.pow] are supplied by the JavaScript runtime, which only promises an
    approximation of the mathematical function; they are parameters of the
    development.

    Plain objects used as dictionaries ([{ [key: string]: T }]) and [Map]s
    are association lists in insertion order with at most one binding per
    key, which is the iteration order of [for ... in], [Object.keys] and
    [Map.prototype.forEach] for the keys this server uses ([layer_<i>],
    [client_<timestamp>_<suffix>]).  The one object whose keys come from a
    request body and are written by assignment, the accumulator of the
    averaging, is modelled with its prototype ([Accumulator]).

    The module-level variables of [server.ts] form one record, [Server],
    passed through the handlers.  A handler runs to completion before the
    next request or timer is served: what the [async] functions await
    (building and evaluating the scoring network) settles without input or
    timers, so no other handler runs in between.  Clock readings, the
    outcome of the network evaluation and the generated client identifiers
    enter as parameters of the requests; pending [setTimeout] callbacks are
    kept in the state and fire as requests of their own. *)

From Stdlib Require Import String List Bool ZArith Lia PeanoNat Permutation.
From Stdlib Require Import Floats Uint63.
Import ListNotations.

Set Warnings "-inexact-float".

Local Open Scope float_scope.
Local Open Scope list_scope.

(** ** JavaScript numbers *)

Module JS.

(** [isNaN(x)] and [isFinite(x)] on a number. *)
Definition isNaN (x : float) : bool := PrimFloat.is_nan x.
Definition isFinite (x : float) : bool := PrimFloat.is_finite x.

(** ToBoolean on a number: [0], [-0] and [NaN] are falsy. *)
Definition truthy (x : float) : bool := negb (isNaN x || (x =? 0)).

(** [x || d] where [x] is a number. *)
Definition orElse (x d : float) : float := if truthy x then x else d.

(** [Math.max(a, b)] and [Math.min(a, b)]: NaN if either argument is NaN,
    and [+0] is larger than [-0]. *)
Definition Math_max (a b : float) : float :=
  if isNaN a || isNaN b then nan
  else if a <? b then b
  else if b <? a then a
  else if PrimFloat.get_sign a then b else a.

Definition Math_min (a b : float) : float :=
  if isNaN a || isNaN b then nan
  else if a <? b then a
  else if b <? a then b
  else if PrimFloat.get_sign a then a else b.

Definition Math_abs (x : float) : float := PrimFloat.abs x.

(** The length of an array or the size of a collection, as a number. *)
Definition ofNat (n : nat) : float :=
  PrimFloat.of_uint63 (Uint63.of_Z (Z.of_nat n)).

(** What a statement can do: complete with a value or throw.  The only
    exception the modelled code raises by itself is the [TypeError] of
    reading a property of [undefined]; [Error] is an explicit
    [throw new Error(...)]. *)
Inductive exn : Type := TypeError | Error (msg : string).

Inductive completion (A : Type) : Type :=
| Returns (a : A)
| Throws (e : exn).
Arguments Returns {A} a.
Arguments Throws {A} e.

Definition bind {A B} (c : completion A) (k : A -> completion B) : completion B :=
  match c with
  | Returns a => k a
  | Throws e => Throws e
  end.

End JS.

Import JS.

Notation "x <- c ;; k" := (JS.bind c (fun x => k))
  (at level 61, c at next level, right associativity).

(** ** Objects and arrays *)

Section Objects.
Variable V : Type.

(** An object with string keys, in property order. *)
Definition obj := list (string * V).

(** [o[k]]: [None] is [undefined]. *)
Fixpoint objGet (o : obj) (k : string) : option V :=
  match o with
  | [] => None
  | (k', v) :: o' => if String.eqb k k' then Some v else objGet o' k
  end.

(** [o[k] = v] and [Map.prototype.set]: an existing property keeps its
    place, a new one goes last.  For a plain object this is the assignment
    under a key that no prototype intercepts, as the generated client
    identifiers are; the object written under layer names taken from request
    bodies has [assignLayer] below. *)
Fixpoint objSet (o : obj) (k : string) (v : V) : obj :=
  match o with
  | [] => [(k, v)]
  | (k', v') :: o' =>
      if String.eqb k k' then (k', v) :: o' else (k', v') :: objSet o' k v
  end.

(** [delete o[k]] / [Map.prototype.delete]. *)
Fixpoint objDelete (o : obj) (k : string) : obj :=
  match o with
  | [] => []
  | (k', v') :: o' =>
      if String.eqb k k' then o' else (k', v') :: objDelete o' k
  end.

Definition objKeys (o : obj) : list string := map fst o.
Definition objValues (o : obj) : list V := map snd o.
Definition objHas (o : obj) (k : string) : bool :=
  match objGet o k with Some _ => true | None => false end.

(** [a[i] = v] for an index inside the array. *)
Fixpoint arraySet (a : list V) (i : nat) (v : V) : list V :=
  match a, i with
  | [], _ => []
  | _ :: a', O => v :: a'
  | x :: a', S i' => x :: arraySet a' i' v
  end.
End Objects.

Arguments objGet {V} o k.
Arguments objSet {V} o k v.
Arguments objDelete {V} o k.
Arguments objKeys {V} o.
Arguments objValues {V} o.
Arguments objHas {V} o k.
Arguments arraySet {V} a i v.

(** ** Model updates ([types.ts]) *)

(** [interface LayerWeights { data: number[]; shape: number[] }] *)
Record LayerWeights : Type := mkLayerWeights {
  data : list float;
  shape : list float
}.

(** [{ [layer: string]: LayerWeights[] }] *)
Definition Model : Type := obj (list LayerWeights).

(** [{ [clientId: string]: { [layer: string]: LayerWeights[] } }] *)
Definition ClientWeights : Type := obj Model.

(** ** Federated averaging ([server.ts], [federatedAveragingAll]) *)

(** [a[j] += v] on an array of numbers.  Reading past the end gives
    [undefined], [undefined + v] is [NaN], and the write extends the array
    (the loop below only ever writes at [j <= a.length]). *)
Definition arrayAddAt (a : list float) (j : nat) (v : float) : list float :=
  match nth_error a j with
  | Some x => arraySet a j (x + v)
  | None => a ++ repeat nan (j - length a) ++ [nan]
  end.

(** [weight => ({ data: new Array(weight.data.length).fill(0), shape: weight.shape })] *)
Definition zeroLike (weight : LayerWeights) : LayerWeights :=
  {| data := repeat 0 (length (data weight)); shape := shape weight |}.

(** The property name through which an object reaches its prototype. *)
Definition protoKey : string := "__proto__".

(** [const aggregatedWeights: { [layer: string]: LayerWeights[] } = {}], an
    object that is written by assignment only.  Besides its own properties
    it has a prototype, and a layer name can reach it: [__proto__] is an
    accessor property of [Object.prototype], so the assignment
    [aggregatedWeights["__proto__"] = ws] of an array [ws] makes [ws] the
    prototype and adds no property.  [inherited] is that array; it is [None]
    as long as the prototype is [Object.prototype]. *)
Record Accumulator : Type := mkAccumulator {
  ownLayers : Model;
  inherited : option (list LayerWeights)
}.

(** [{}] *)
Definition emptyAccumulator : Accumulator :=
  {| ownLayers := []; inherited := None |}.

(** [aggregatedWeights[layerName]] as the loops use it: the array stored
    under the name or, for [__proto__], the array that was made the
    prototype.  [None] stands for every other value the read can give,
    [undefined] or a property inherited from [Object.prototype],
    [Array.prototype] or the prototype array (a method, [length], a tensor):
    none of them has a tensor at an index. *)
Definition readLayer (agg : Accumulator) (layerName : string)
  : option (list LayerWeights) :=
  match objGet (ownLayers agg) layerName with
  | Some ws => Some ws
  | None => if String.eqb layerName protoKey then inherited agg else None
  end.

(** [aggregatedWeights[layerName] = ws] for an array [ws]: an own property
    is overwritten in place; without one, the name [__proto__] reaches the
    setter of [Object.prototype], which replaces the prototype, and any other
    name becomes a new own property, the last one (the properties inherited
    from the prototypes are writable data properties). *)
Definition assignLayer (agg : Accumulator) (layerName : string)
    (ws : list LayerWeights) : Accumulator :=
  if negb (objHas (ownLayers agg) layerName) && String.eqb layerName protoKey
  then {| ownLayers := ownLayers agg; inherited := Some ws |}
  else {| ownLayers := objSet (ownLayers agg) layerName ws;
          inherited := inherited agg |}.

(** The first loop: [aggregatedWeights[layerName] = firstClientWeights[layerName].map(...)]
    for every layer of the first client; [for ... in undefined] runs no
    iteration. *)
Definition initAggregated (firstClientWeights : option Model) : Accumulator :=
  match firstClientWeights with
  | None => emptyAccumulator
  | Some first =>
      fold_left (fun agg '(layerName, ws) => assignLayer agg layerName (map zeroLike ws))
                first emptyAccumulator
  end.

(** [aggregatedWeights[layerName][i].data[j] += v]: reading [[i]] of an
    absent layer, or [.data] of an absent tensor, throws a TypeError.  The
    tensor is changed in place, in the array the read has reached (an own
    layer or the prototype array), which is where [assignLayer] puts the
    changed array. *)
Definition addAt (agg : Accumulator) (layerName : string) (i j : nat) (v : float)
  : completion Accumulator :=
  match readLayer agg layerName with
  | None => Throws TypeError
  | Some ws =>
      match nth_error ws i with
      | None => Throws TypeError
      | Some w =>
          Returns (assignLayer agg layerName
                     (arraySet ws i {| data := arrayAddAt (data w) j v;
                                       shape := shape w |}))
      end
  end.

(** [for (let j = 0; j < weight.data.length; j++) ... += weight.data[j] / numClients],
    started at index [j] on the remaining entries [ds]. *)
Fixpoint addData (agg : Accumulator) (layerName : string) (i j : nat)
    (ds : list float) (numClients : float) : completion Accumulator :=
  match ds with
  | [] => Returns agg
  | d :: ds' =>
      agg' <- addAt agg layerName i j (d / numClients) ;;
      addData agg' layerName i (S j) ds' numClients
  end.

(** [for (let i = 0; i < layerWeights.length; i++)], started at index [i]. *)
Fixpoint addLayer (agg : Accumulator) (layerName : string) (i : nat)
    (layerWeights : list LayerWeights) (numClients : float) : completion Accumulator :=
  match layerWeights with
  | [] => Returns agg
  | weight :: rest =>
      agg' <- addData agg layerName i 0 (data weight) numClients ;;
      addLayer agg' layerName (S i) rest numClients
  end.

(** [for (const layerName in clientWeight)] *)
Fixpoint addClient (agg : Accumulator) (clientWeight : Model) (numClients : float)
  : completion Accumulator :=
  match clientWeight with
  | [] => Returns agg
  | (layerName, layerWeights) :: rest =>
      agg' <- addLayer agg layerName 0 layerWeights numClients ;;
      addClient agg' rest numClients
  end.

(** [for (const clientId in clientWeights)] *)
Fixpoint addClients (agg : Accumulator) (cws : list Model) (numClients : float)
  : completion Accumulator :=
  match cws with
  | [] => Returns agg
  | clientWeight :: rest =>
      agg' <- addClient agg clientWeight numClients ;;
      addClients agg' rest numClients
  end.

(** [return aggregatedWeights]: the object goes to [globalModel] and to the
    archived round, whose readers ([res.json], [Object.entries],
    [Object.keys]) see its own properties, so it is returned as these. *)
Definition returned (agg : Accumulator) : Model := ownLayers agg.

Definition federatedAveragingAll (clientWeights : ClientWeights) : completion Model :=
  let numClients := JS.ofNat (length (objKeys clientWeights)) in
  let firstClientWeights :=
    match objKeys clientWeights with
    | [] => None                         (* clientWeights[undefined] *)
    | firstClientId :: _ => objGet clientWeights firstClientId
    end in
  agg <- addClients (initAggregated firstClientWeights) (objValues clientWeights)
           numClients ;;
  Returns (returned agg).

(** ** Model quality ([modelQuality.ts]) *)

(** [const THETA = 0.01; const PHI = 0.5;] *)
Definition THETA : float := 0.01.
Definition PHI : float := 0.5.

(** [interface ModelQualityMetrics] *)
Record ModelQualityMetrics : Type := mkMetrics {
  clientId : string;
  loss : float;
  previousLoss : option float;        (* number | null *)
  lossDifference : option float;      (* number | null *)
  numData : float;
  quality : float
}.

(** The mutable fields of a [ModelQualityCalculator].  [model] records
    whether [this.model] is non-null; the network itself lives in the
    TensorFlow runtime. *)
Record ModelQualityCalculator : Type := mkCalculator {
  model : bool;
  clientMetrics : obj ModelQualityMetrics;      (* Map<string, ModelQualityMetrics> *)
  previousRoundMetrics : obj float              (* Map<string, number> *)
}.

(** What [this.model.evaluate(testData, testLabels)] does with the submitted
    weights loaded: it throws (the weights do not fit the network), or it
    yields the loss read by [evaluation[0].dataSync()[0]]. *)
Inductive Evaluation : Type :=
| EvalThrows
| EvalLoss (currentLoss : float).

(** [x || null] on a [number | undefined]. *)
Definition orNull (x : option float) : option float :=
  match x with
  | Some v => if JS.truthy v then Some v else None
  | None => None
  end.

(** [d || c] on a [number | null] and a number. *)
Definition orNumber (d : option float) (c : float) : float :=
  match d with
  | Some v => JS.orElse v c
  | None => c
  end.

(** [getSelectedClients()] *)
Definition meanQuality (metrics : list ModelQualityMetrics) : float :=
  fold_left (fun sum m => sum + quality m) metrics 0 / JS.ofNat (length metrics).

Definition getSelectedClients (c : ModelQualityCalculator) : list string :=
  let metrics := objValues (clientMetrics c) in
  match metrics with
  | [] => []
  | _ =>
      map clientId (filter (fun m => meanQuality metrics <? quality m) metrics)
  end.

(** [clearMetrics()] and [clearAllMetrics()] *)
Definition clearMetrics (c : ModelQualityCalculator) : ModelQualityCalculator :=
  {| model := model c; clientMetrics := [];
     previousRoundMetrics := previousRoundMetrics c |}.

Definition clearAllMetrics (c : ModelQualityCalculator) : ModelQualityCalculator :=
  {| model := model c; clientMetrics := []; previousRoundMetrics := [] |}.

(** [initializeModel(architecture)]: the architectures of [getModelArchitecture]
    only use supported layer types, so the model is built and compiled. *)
Definition initializeModel (c : ModelQualityCalculator) : ModelQualityCalculator :=
  {| model := true; clientMetrics := clientMetrics c;
     previousRoundMetrics := previousRoundMetrics c |}.

Section Runtime.

(** The runtime's [Math.exp] and [Math.pow]. *)
Variable Math_exp : float -> float.
Variable Math_pow : float -> float -> float.

(** [computeModelQuality(loss, numData)] *)
Definition computeModelQuality (loss numData : float) : float :=
  if JS.isNaN loss || negb (JS.isFinite loss) then 0.5
  else if JS.isNaN numData || negb (JS.isFinite numData) || (numData <=? 0) then 0.5
  else
    let calculatedDataQualityRatio := JS.Math_abs loss * numData in
    let poweredRatio := Math_pow calculatedDataQualityRatio PHI in
    let tmpPerformanceScore :=
      if 0 <? loss then 1 - Math_exp (THETA * poweredRatio)
      else 1 - Math_exp (- THETA * poweredRatio) in
    if JS.isNaN tmpPerformanceScore || negb (JS.isFinite tmpPerformanceScore)
    then 0.5
    else tmpPerformanceScore.

(** [evaluateModel(clientId, weights, numData)]: the returned quality (or
    the exception that escapes) and the calculator afterwards.  The
    parameter [ev] is the outcome of the network evaluation. *)
Definition evaluateModel (c : ModelQualityCalculator) (id : string)
    (ev : Evaluation) (nData : float)
  : completion float * ModelQualityCalculator :=
  if negb (model c) then (Throws (Error "Model not initialized"), c)
  else
    match ev with
    | EvalThrows => (Returns 0.5, c)            (* catch (error) { return 0.5; } *)
    | EvalLoss currentLoss =>
        if JS.isNaN currentLoss then (Returns 0.5, c)
        else
          let prev := orNull (objGet (previousRoundMetrics c) id) in
          let diff :=
            match prev with
            | Some p => Some (p - currentLoss)
            | None => None
            end in
          let q := computeModelQuality (orNumber diff currentLoss) nData in
          (Returns q,
           {| model := model c;
              clientMetrics :=
                objSet (clientMetrics c) id
                  {| clientId := id; loss := currentLoss; previousLoss := prev;
                     lossDifference := diff; numData := nData; quality := q |};
              previousRoundMetrics :=
                objSet (previousRoundMetrics c) id currentLoss |})
    end.

End Runtime.

(** ** Server state ([types.ts], [server.ts]) *)

Module Client.
Inductive Status : Type := idle | training | aggregating.

(** [interface ClientInfo]; [lastUpdate] is the [Date] in milliseconds. *)
Record ClientInfo : Type := mk {
  clientId : string;
  status : Status;
  lastUpdate : float
}.

Definition withStatus (c : ClientInfo) (st : Status) : ClientInfo :=
  {| clientId := clientId c; status := st; lastUpdate := lastUpdate c |}.
End Client.

Module Round.
Inductive Status : Type := in_progress | completed.

(** [interface ModelWeights] *)
Record ModelWeights : Type := mkWeights {
  clients : ClientWeights;
  aggregated : option Model
}.

(** [interface FederatedRound] *)
Record FederatedRound : Type := mk {
  roundId : Z;
  participants : list string;
  modelWeights : ModelWeights;
  status : Status
}.

(** [Object.keys(round.modelWeights.clients)] *)
Definition submitted (r : FederatedRound) : list string :=
  objKeys (clients (modelWeights r)).
End Round.

(** [interface ServerConfig] *)
Record ServerConfig : Type := mkConfig {
  totalRounds : Z;
  requiredClients : Z;
  aggregationInterval : Z;
  dataset : string;
  synchronousRounds : Z
}.

(** [Partial<ServerConfig>], the body of [POST /config]. *)
Record PartialConfig : Type := mkPartial {
  newTotalRounds : option Z;
  newRequiredClients : option Z;
  newAggregationInterval : option Z;
  newDataset : option string;
  newSynchronousRounds : option Z
}.

(** [interface ClientTimingMetrics] *)
Record ClientTimingMetrics : Type := mkTiming {
  trainingTime : float;
  communicationTime : float;
  timestamp : float
}.

(** A callback handed to [setTimeout] and not yet run, with its delay in
    milliseconds. *)
Inductive Callback : Type :=
| DeadlineReached        (* the arrow function armed by [startNewRound] *)
| StartNextRound.        (* [setTimeout(startNewRound, 1000)] *)

Record Timer : Type := mkTimer {
  callback : Callback;
  delay : float
}.

(** The module-level variables of [server.ts]. *)
Record Server : Type := mkServer {
  serverConfig : ServerConfig;
  REQUIRED_CLIENTS : Z;
  TOTAL_ROUNDS : Z;
  clients : obj Client.ClientInfo;                      (* Map<string, ClientInfo> *)
  rounds : list Round.FederatedRound;
  currentRound : option Round.FederatedRound;
  globalModel : option Model;
  currentRoundNumber : Z;
  isAggregating : bool;
  roundDeadline : option float;
  roundStartTime : option float;
  clientTimingMetrics : obj (list ClientTimingMetrics);
  roundMeanTimes : list (Z * float);                    (* { [round: number]: number } *)
  overallMeanTime : float;
  modelQualityCalculator : ModelQualityCalculator;
  timers : list Timer
}.

(** The server as the module is loaded, for a parsed configuration. *)
Definition initialServer (config : ServerConfig) : Server :=
  {| serverConfig := config;
     REQUIRED_CLIENTS := requiredClients config;
     TOTAL_ROUNDS := totalRounds config;
     clients := [];
     rounds := [];
     currentRound := None;
     globalModel := None;
     currentRoundNumber := 0%Z;
     isAggregating := false;
     roundDeadline := None;
     roundStartTime := None;
     clientTimingMetrics := [];
     roundMeanTimes := [];
     overallMeanTime := 0;
     modelQualityCalculator :=
       {| model := false; clientMetrics := []; previousRoundMetrics := [] |};
     timers := [] |}.

(** The defaults of [parseArgs]. *)
Definition defaultConfig : ServerConfig :=
  {| totalRounds := 10; requiredClients := 5; aggregationInterval := 1000;
     dataset := "fashion-mnist"; synchronousRounds := 1 |}.

(** Assignments to the module-level variables. *)
Section Assign.
Variable s : Server.

Definition setConfig (c : ServerConfig) : Server :=
  mkServer c (requiredClients c) (totalRounds c) (clients s) (rounds s)
    (currentRound s) (globalModel s) (currentRoundNumber s) (isAggregating s)
    (roundDeadline s) (roundStartTime s) (clientTimingMetrics s)
    (roundMeanTimes s) (overallMeanTime s) (modelQualityCalculator s) (timers s).

Definition setClients (v : obj Client.ClientInfo) : Server :=
  mkServer (serverConfig s) (REQUIRED_CLIENTS s) (TOTAL_ROUNDS s) v (rounds s)
    (currentRound s) (globalModel s) (currentRoundNumber s) (isAggregating s)
    (roundDeadline s) (roundStartTime s) (clientTimingMetrics s)
    (roundMeanTimes s) (overallMeanTime s) (modelQualityCalculator s) (timers s).

Definition setCurrentRound (v : option Round.FederatedRound) : Server :=
  mkServer (serverConfig s) (REQUIRED_CLIENTS s) (TOTAL_ROUNDS s) (clients s)
    (rounds s) v (globalModel s) (currentRoundNumber s) (isAggregating s)
    (roundDeadline s) (roundStartTime s) (clientTimingMetrics s)
    (roundMeanTimes s) (overallMeanTime s) (modelQualityCalculator s) (timers s).

Definition setIsAggregating (v : bool) : Server :=
  mkServer (serverConfig s) (REQUIRED_CLIENTS s) (TOTAL_ROUNDS s) (clients s)
    (rounds s) (currentRound s) (globalModel s) (currentRoundNumber s) v
    (roundDeadline s) (roundStartTime s) (clientTimingMetrics s)
    (roundMeanTimes s) (overallMeanTime s) (modelQualityCalculator s) (timers s).

Definition setTimes (deadline start : option float) : Server :=
  mkServer (serverConfig s) (REQUIRED_CLIENTS s) (TOTAL_ROUNDS s) (clients s)
    (rounds s) (currentRound s) (globalModel s) (currentRoundNumber s)
    (isAggregating s) deadline start (clientTimingMetrics s)
    (roundMeanTimes s) (overallMeanTime s) (modelQualityCalculator s) (timers s).

Definition setTimingMetrics (v : obj (list ClientTimingMetrics)) : Server :=
  mkServer (serverConfig s) (REQUIRED_CLIENTS s) (TOTAL_ROUNDS s) (clients s)
    (rounds s) (currentRound s) (globalModel s) (currentRoundNumber s)
    (isAggregating s) (roundDeadline s) (roundStartTime s) v
    (roundMeanTimes s) (overallMeanTime s) (modelQualityCalculator s) (timers s).

Definition setMeanTimes (v : list (Z * float)) (overall : float) : Server :=
  mkServer (serverConfig s) (REQUIRED_CLIENTS s) (TOTAL_ROUNDS s) (clients s)
    (rounds s) (currentRound s) (globalModel s) (currentRoundNumber s)
    (isAggregating s) (roundDeadline s) (roundStartTime s)
    (clientTimingMetrics s) v overall (modelQualityCalculator s) (timers s).

Definition setCalculator (v : ModelQualityCalculator) : Server :=
  mkServer (serverConfig s) (REQUIRED_CLIENTS s) (TOTAL_ROUNDS s) (clients s)
    (rounds s) (currentRound s) (globalModel s) (currentRoundNumber s)
    (isAggregating s) (roundDeadline s) (roundStartTime s)
    (clientTimingMetrics s) (roundMeanTimes s) (overallMeanTime s) v (timers s).

Definition setTimers (v : list Timer) : Server :=
  mkServer (serverConfig s) (REQUIRED_CLIENTS s) (TOTAL_ROUNDS s) (clients s)
    (rounds s) (currentRound s) (globalModel s) (currentRoundNumber s)
    (isAggregating s) (roundDeadline s) (roundStartTime s)
    (clientTimingMetrics s) (roundMeanTimes s) (overallMeanTime s)
    (modelQualityCalculator s) v.

(** [currentRoundNumber++; currentRound = { roundId: currentRoundNumber, ... }] *)
Definition openRound : Server :=
  let n := (currentRoundNumber s + 1)%Z in
  mkServer (serverConfig s) (REQUIRED_CLIENTS s) (TOTAL_ROUNDS s) (clients s)
    (rounds s)
    (Some {| Round.roundId := n; Round.participants := [];
             Round.modelWeights := {| Round.clients := []; Round.aggregated := None |};
             Round.status := Round.in_progress |})
    (globalModel s) n (isAggregating s)
    (roundDeadline s) (roundStartTime s) (clientTimingMetrics s)
    (roundMeanTimes s) (overallMeanTime s) (modelQualityCalculator s) (timers s).

(** [globalModel = aggregatedWeights; currentRound.modelWeights.aggregated =
    aggregatedWeights; currentRound.status = 'completed';
    rounds.push(currentRound); currentRound = null; roundDeadline = null;
    roundStartTime = null] for the round [r] in progress. *)
Definition closeRound (r : Round.FederatedRound) (aggregatedWeights : Model) : Server :=
  mkServer (serverConfig s) (REQUIRED_CLIENTS s) (TOTAL_ROUNDS s) (clients s)
    (rounds s ++
       [ {| Round.roundId := Round.roundId r;
            Round.participants := Round.participants r;
            Round.modelWeights :=
              {| Round.clients := Round.clients (Round.modelWeights r);
                 Round.aggregated := Some aggregatedWeights |};
            Round.status := Round.completed |} ])
    None (Some aggregatedWeights) (currentRoundNumber s) (isAggregating s)
    None None (clientTimingMetrics s)
    (roundMeanTimes s) (overallMeanTime s) (modelQualityCalculator s) (timers s).
End Assign.

(** ** Round orchestration ([server.ts]) *)

(** What a handler sends back: the HTTP status and the [error] or [message]
    text of the JSON body ([Silent] for a timer callback). *)
Inductive Response : Type :=
| Reply (code : Z) (text : string)
| Silent.

(** [roundMeanTimes[roundNumber] = mean]: integer keys are kept in
    ascending order, which is the order of [Object.values]. *)
Fixpoint roundMeanSet (o : list (Z * float)) (k : Z) (v : float) : list (Z * float) :=
  match o with
  | [] => [(k, v)]
  | (k', v') :: o' =>
      if (k =? k')%Z then (k, v) :: o'
      else if (k <? k')%Z then (k, v) :: o
      else (k', v') :: roundMeanSet o' k v
  end.

(** [a.reduce((x, y) => x + y, 0) / a.length] *)
Definition meanOf (a : list float) : float :=
  fold_left (fun x y => x + y) a 0 / JS.ofNat (length a).

(** The [forEach] of [calculateAndStoreRoundMeanTime]: [timings[roundNumber - 1]]
    is [undefined] for a round number below 1, and reading its
    [trainingTime] throws. *)
Fixpoint collectTimes (tms : list (list ClientTimingMetrics)) (roundNumber : Z)
  : completion (list float) :=
  match tms with
  | [] => Returns []
  | timings :: rest =>
      if (roundNumber <=? Z.of_nat (length timings))%Z then
        match (if (roundNumber <=? 0)%Z then None
               else nth_error timings (Z.to_nat (roundNumber - 1))) with
        | None => Throws TypeError
        | Some timing =>
            times <- collectTimes rest roundNumber ;;
            Returns ((trainingTime timing + communicationTime timing) :: times)
        end
      else collectTimes rest roundNumber
  end.

(** [calculateAndStoreRoundMeanTime(roundNumber)], with
    [calculateOverallMeanTime()] inlined. *)
Definition calculateAndStoreRoundMeanTime (s : Server) (roundNumber : Z)
  : completion Server :=
  times <- collectTimes (objValues (clientTimingMetrics s)) roundNumber ;;
  match times with
  | [] => Returns s
  | _ =>
      let roundMeans := roundMeanSet (roundMeanTimes s) roundNumber (meanOf times) in
      Returns (setMeanTimes s roundMeans (meanOf (map snd roundMeans)))
  end.

Definition shouldUseSynchronousMode (s : Server) : bool :=
  (currentRoundNumber s <=? synchronousRounds (serverConfig s))%Z.

Definition haveAllClientsSubmitted (s : Server) : bool :=
  match currentRound s with
  | None => false
  | Some r => Nat.eqb (length (Round.submitted r)) (length (clients s))
  end.

(** [hasDeadlinePassed()], with [now] the value of [Date.now()]. *)
Definition hasDeadlinePassed (s : Server) (now : float) : bool :=
  match roundDeadline s with
  | None => false
  | Some deadline => deadline <=? now
  end.

Definition shouldStartAggregation (s : Server) (now : float) : bool :=
  if shouldUseSynchronousMode s then haveAllClientsSubmitted s
  else haveAllClientsSubmitted s || hasDeadlinePassed s now.

(** [clients.forEach((client, id) => clients.set(id, { ...client, status }))] *)
Definition setAllStatus (s : Server) (st : Client.Status) : Server :=
  setClients s (map (fun '(id, c) => (id, Client.withStatus c st)) (clients s)).

(** [setTimeout(cb, ms)] *)
Definition setTimeout (s : Server) (cb : Callback) (ms : float) : Server :=
  setTimers s (timers s ++ [ {| callback := cb; delay := ms |} ]).

(** The length of an asynchronous round:
    [Math.max(10000, Math.min(60000, overallMeanTime || 30000))]. *)
Definition deadlineMs (s : Server) : float :=
  JS.Math_max 10000 (JS.Math_min 60000 (JS.orElse (overallMeanTime s) 30000)).

(** [startNewRound()]; [now] is the value of [Date.now()].  The model
    initialisation it awaits settles without another handler running. *)
Definition startNewRound (s : Server) (now : float) : Server :=
  if match currentRound s with Some _ => true | None => false end
     || (Z.of_nat (length (clients s)) <? REQUIRED_CLIENTS s)%Z
     || (TOTAL_ROUNDS s <=? currentRoundNumber s)%Z
     || isAggregating s
  then s
  else
    let s1 :=
      setCalculator s (clearMetrics (initializeModel (modelQualityCalculator s))) in
    let s2 := openRound s1 in
    let s3 :=
      if shouldUseSynchronousMode s2 then setTimes s2 None (Some now)
      else
        setTimeout (setTimes s2 (Some (now + deadlineMs s2)) (Some now))
                   DeadlineReached (deadlineMs s2) in
    setAllStatus s3 Client.training.

(** The weights handed to the aggregator by [performAggregation]: those of
    the selected clients that have an entry in the round. *)
Definition selectedWeights (r : Round.FederatedRound) (selectedClients : list string)
  : ClientWeights :=
  fold_left
    (fun sw id =>
       match objGet (Round.clients (Round.modelWeights r)) id with
       | Some w => objSet sw id w
       | None => sw
       end)
    selectedClients [].

(** [performAggregation()].  The evaluation and logging of the new global
    model after the round is closed change none of the variables. *)
Definition performAggregation (s : Server) : Server :=
  match currentRound s with
  | None => s
  | Some r =>
      if isAggregating s then s
      else
        let s1 := setIsAggregating s true in
        match calculateAndStoreRoundMeanTime s1 (currentRoundNumber s1) with
        | Throws _ => setIsAggregating s1 false
        | Returns s2 =>
            let selectedClients := getSelectedClients (modelQualityCalculator s2) in
            match federatedAveragingAll (selectedWeights r selectedClients) with
            | Throws _ => setIsAggregating s2 false
            | Returns aggregatedWeights =>
                let s3 := closeRound s2 r aggregatedWeights in
                let s4 := setIsAggregating (setAllStatus s3 Client.idle) false in
                if (currentRoundNumber s4 <? TOTAL_ROUNDS s4)%Z
                then setTimeout s4 StartNextRound 1000
                else s4
            end
        end
  end.

Section Handlers.

Variable Math_exp : float -> float.
Variable Math_pow : float -> float -> float.

(** [POST /register]; [newId] is the generated
    [client_<timestamp>_<randomSuffix>]. *)
Definition register (s : Server) (newId : string) (now : float) : Response * Server :=
  if (REQUIRED_CLIENTS s <=? Z.of_nat (length (clients s)))%Z
  then (Reply 400 "Maximum number of clients reached", s)
  else
    let s1 :=
      setClients s
        (objSet (clients s) newId
           {| Client.clientId := newId; Client.status := Client.idle;
              Client.lastUpdate := now |}) in
    let s2 :=
      if (Z.of_nat (length (clients s1)) =? REQUIRED_CLIENTS s1)%Z
      then startNewRound s1 now else s1 in
    (Reply 200 "registered", s2).

(** [GET /round-status] *)
Definition roundStatus (s : Server) (id : string) (now : float) : Response * Server :=
  match objGet (clients s) id with
  | None => (Reply 400 "Invalid client", s)
  | Some _ =>
      match currentRound s with
      | None =>
          let s1 :=
            if (REQUIRED_CLIENTS s <=? Z.of_nat (length (clients s)))%Z
               && (currentRoundNumber s <? TOTAL_ROUNDS s)%Z
               && negb (isAggregating s)
            then startNewRound s now else s in
          (Reply 200 "no_round", s1)
      | Some _ => (Reply 200 "in_progress", s)
      end
  end.

(** The start of the [try] block of [POST /submit-weights]:
    [clientTimingMetrics.get(clientId)!.push(timingMetrics)]. *)
Definition recordTiming (s : Server) (id : string)
    (tTime communicationStartTime performanceNow now : float) : Server :=
  let timing :=
    {| trainingTime := tTime;
       communicationTime := performanceNow - communicationStartTime;
       timestamp := now |} in
  let old :=
    match objGet (clientTimingMetrics s) id with
    | Some ts => ts
    | None => []
    end in
  setTimingMetrics s (objSet (clientTimingMetrics s) id (old ++ [timing])).

(** [currentRound.modelWeights.clients[clientId] = weights] *)
Definition storeWeights (r : Round.FederatedRound) (id : string) (weights : Model)
  : Round.FederatedRound :=
  {| Round.roundId := Round.roundId r;
     Round.participants := Round.participants r;
     Round.modelWeights :=
       {| Round.clients := objSet (Round.clients (Round.modelWeights r)) id weights;
          Round.aggregated := Round.aggregated (Round.modelWeights r) |};
     Round.status := Round.status r |}.

(** The rest of the [try] block up to and including the storing of the
    weights, for a known client and the round [r] in progress: the model
    is scored, the client marked, the weights stored.  It throws when the
    quality calculator does. *)
Definition receiveWeights (s : Server) (client : Client.ClientInfo)
    (r : Round.FederatedRound) (id : string) (weights : Model)
    (nData : float) (ev : Evaluation) (now : float) : completion Server :=
  match evaluateModel Math_exp Math_pow (modelQualityCalculator s) id ev nData with
  | (Throws e, _) => Throws e
  | (Returns _, calc) =>
      let s1 := setCalculator s calc in
      let s2 :=
        setClients s1
          (objSet (clients s1) id
             {| Client.clientId := Client.clientId client;
                Client.status := Client.aggregating;
                Client.lastUpdate := now |}) in
      Returns (setCurrentRound s2 (Some (storeWeights r id weights)))
  end.

(** [POST /submit-weights].  The awaited calls settle without another
    handler running, so the handler is one step. *)
Definition submitWeights (s : Server) (id : string) (weights : Model)
    (nData tTime communicationStartTime : float) (ev : Evaluation)
    (performanceNow now : float) : Response * Server :=
  match objGet (clients s) id, currentRound s with
  | Some client, Some r =>
      if objHas (Round.clients (Round.modelWeights r)) id
      then (Reply 400 "Already submitted", s)
      else
        let s1 := recordTiming s id tTime communicationStartTime performanceNow now in
        match receiveWeights s1 client r id weights nData ev now with
        | Throws _ => (Reply 500 "Failed to process weights", s1)
        | Returns s2 =>
            if shouldStartAggregation s2 now
            then (Reply 200 "aggregated", performAggregation s2)
            else (Reply 200 "Weights received, waiting for other clients or deadline", s2)
        end
  | _, _ => (Reply 400 "Invalid client or no active round", s)
  end.

(** [DELETE /clients/:clientId] *)
Definition deleteClient (s : Server) (id : string) : Response * Server :=
  if objHas (clients s) id
  then (Reply 200 "Client disconnected successfully",
        setClients s (objDelete (clients s) id))
  else (Reply 404 "Client not found", s).

(** [POST /config] *)
Definition below (x : option Z) (bound : Z) : bool :=
  match x with Some v => (v <? bound)%Z | None => false end.

Definition merge {A} (old : A) (new : option A) : A :=
  match new with Some v => v | None => old end.

Definition postConfig (s : Server) (newConfig : PartialConfig) : Response * Server :=
  if below (newTotalRounds newConfig) 1
  then (Reply 400 "Total rounds must be at least 1", s)
  else if below (newRequiredClients newConfig) 1
  then (Reply 400 "Required clients must be at least 1", s)
  else if below (newAggregationInterval newConfig) 100
  then (Reply 400 "Aggregation interval must be at least 100ms", s)
  else
    let c := serverConfig s in
    (Reply 200 "config",
     setConfig s
       {| totalRounds := merge (totalRounds c) (newTotalRounds newConfig);
          requiredClients := merge (requiredClients c) (newRequiredClients newConfig);
          aggregationInterval :=
            merge (aggregationInterval c) (newAggregationInterval newConfig);
          dataset := merge (dataset c) (newDataset newConfig);
          synchronousRounds :=
            merge (synchronousRounds c) (newSynchronousRounds newConfig) |}).

(** A pending timer runs its callback. *)
Definition runCallback (s : Server) (cb : Callback) (now : float) : Server :=
  match cb with
  | DeadlineReached =>
      match currentRound s with
      | Some _ => if isAggregating s then s else performAggregation s
      | None => s
      end
  | StartNextRound => startNewRound s now
  end.

Fixpoint removeNth {A} (l : list A) (n : nat) : list A :=
  match l, n with
  | [], _ => []
  | _ :: l', O => l'
  | x :: l', S n' => x :: removeNth l' n'
  end.

Definition timeout (s : Server) (n : nat) (now : float) : Response * Server :=
  match nth_error (timers s) n with
  | None => (Silent, s)
  | Some t => (Silent, runCallback (setTimers s (removeNth (timers s) n)) (callback t) now)
  end.

(** What reaches the server: an HTTP request or the expiry of the [n]-th
    pending timer.  [now] stands for the clock reading taken while the
    request is handled. *)
Inductive Request : Type :=
| PostRegister (newId : string) (now : float)
| GetRoundStatus (id : string) (now : float)
| PostSubmitWeights (id : string) (weights : Model)
    (nData tTime communicationStartTime : float) (ev : Evaluation)
    (performanceNow now : float)
| DeleteClient (id : string)
| PostConfig (newConfig : PartialConfig)
| TimerExpires (n : nat) (now : float).

Definition handle (s : Server) (req : Request) : Response * Server :=
  match req with
  | PostRegister newId now => register s newId now
  | GetRoundStatus id now => roundStatus s id now
  | PostSubmitWeights id weights nData tTime cst ev pnow now =>
      submitWeights s id weights nData tTime cst ev pnow now
  | DeleteClient id => deleteClient s id
  | PostConfig newConfig => postConfig s newConfig
  | TimerExpires n now => timeout s n now
  end.

(** The server after a sequence of requests, each handled to completion. *)
Definition run (s : Server) (reqs : list Request) : Server :=
  fold_left (fun st req => snd (handle st req)) reqs s.

End Handlers.

(** ** Notions used to state the properties *)

(** A model with every entry [x] replaced by [f x]. *)
Definition mapTensor (f : float -> float) (w : LayerWeights) : LayerWeights :=
  {| data := map f (data w); shape := shape w |}.

Definition mapModel (f : float -> float) (m : Model) : Model :=
  map (fun '(layerName, ws) => (layerName, map (mapTensor f) ws)) m.

(** All the numbers of a model. *)
Definition entries (m : Model) : list float :=
  flat_map (fun '(_, ws) => flat_map data ws) m.

(** What the accumulation loop leaves in an entry that started at [acc] and
    received the contribution [x / numClients] of [m] clients in turn. *)
Fixpoint shares (m : nat) (numClients acc x : float) : float :=
  match m with
  | O => acc
  | S m' => shares m' numClients (acc + x / numClients) x
  end.

(** [0 + x/k + ... + x/k] with [k] terms, rounded at every step. *)
Definition sumOfShares (k : nat) (x : float) : float := shares k (JS.ofNat k) 0 x.

(** The tensor [template[layerName][i]] exists. *)
Definition slotExists (template : Model) (layerName : string) (i : nat) : bool :=
  match objGet template layerName with
  | Some ws => (i <? length ws)%nat
  | None => false
  end.

(** Every non-empty tensor of the layer [ws], numbered from [i], has a
    counterpart in the template. *)
Fixpoint tensorsFit (template : Model) (layerName : string) (i : nat)
    (ws : list LayerWeights) : bool :=
  match ws with
  | [] => true
  | w :: rest =>
      match data w with
      | [] => true
      | _ :: _ => slotExists template layerName i
      end && tensorsFit template layerName (S i) rest
  end.

Definition modelFits (template m : Model) : bool :=
  forallb (fun '(layerName, ws) => tensorsFit template layerName 0 ws) m.

(** The update of the first client of the mapping, [{}] when there is none. *)
Definition firstUpdate (cw : ClientWeights) : Model :=
  match cw with
  | [] => []
  | (_, m) :: _ => m
  end.

(** The accumulation reaches a tensor at [aggregatedWeights[layerName][i]]. *)
Definition slotReached (agg : Accumulator) (layerName : string) (i : nat) : bool :=
  match readLayer agg layerName with
  | Some ws => (i <? length ws)%nat
  | None => false
  end.

(** The accumulator holds tensors at the positions of the template. *)
Definition sameSlots (agg : Accumulator) (template : Model) : Prop :=
  forall layerName i, slotReached agg layerName i = slotExists template layerName i.

(** The layers of an update that the first loop turns into properties of
    the result: all but a layer named [__proto__]. *)
Definition withoutProto (m : Model) : Model :=
  filter (fun '(layerName, _) => negb (String.eqb layerName protoKey)) m.

(** The innermost loop of the accumulation, on one array. *)
Fixpoint addList (a : list float) (j : nat) (ds : list float) (numClients : float)
  : list float :=
  match ds with
  | [] => a
  | d :: ds' => addList (arrayAddAt a j (d / numClients)) (S j) ds' numClients
  end.

(** The weights handed to the aggregator, as [performAggregation] computes
    them for the round [r] of the server [s]. *)
Definition includedWeights (s : Server) (r : Round.FederatedRound) : ClientWeights :=
  selectedWeights r (getSelectedClients (modelQualityCalculator s)).

(** [v] clamped to the interval from [lo] to [hi]. *)
Definition clamp (lo hi v : float) : float :=
  if hi <? v then hi else if lo <? v then v else lo.

(** The rounds a server knows: the archived ones and the one in progress. *)
Definition allRounds (s : Server) : list Round.FederatedRound :=
  rounds s ++ match currentRound s with Some r => [r] | None => [] end.

(** The client has an entry in the submissions of some round. *)
Definition hasSubmitted (s : Server) (id : string) : bool :=
  existsb (fun r => objHas (Round.clients (Round.modelWeights r)) id) (allRounds s).

Section Requests.

Variable Math_exp : float -> float.
Variable Math_pow : float -> float -> float.

(** The server at the point where [POST /submit-weights] evaluates
    [shouldStartAggregation()]: the submission has been timed, scored and
    stored.  [None] when the request is rejected or fails before that. *)
Definition afterStoring (s : Server) (id : string) (weights : Model)
    (nData tTime communicationStartTime : float) (ev : Evaluation)
    (performanceNow now : float) : option Server :=
  match objGet (clients s) id, currentRound s with
  | Some client, Some r =>
      if objHas (Round.clients (Round.modelWeights r)) id then None
      else
        match receiveWeights Math_exp Math_pow
                (recordTiming s id tTime communicationStartTime performanceNow now)
                client r id weights nData ev now with
        | Returns s2 => Some s2
        | Throws _ => None
        end
  | _, _ => None
  end.

(** Requests that remove no client with an entry in some round's
    submissions. *)
Definition keepsSubmitters (s : Server) (req : Request) : bool :=
  match req with
  | DeleteClient id => negb (hasSubmitted s id)
  | _ => true
  end.

Fixpoint allKeepSubmitters (s : Server) (reqs : list Request) : bool :=
  match reqs with
  | [] => true
  | req :: rest =>
      keepsSubmitters s req
      && allKeepSubmitters (snd (handle Math_exp Math_pow s req)) rest
  end.

End Requests.

(** Every submission belongs to a registered client, and no identifier is
    listed twice. *)
Definition wellFormed (s : Server) : Prop :=
  NoDup (objKeys (clients s))
  /\ forall r, In r (allRounds s) ->
       NoDup (Round.submitted r) /\ incl (Round.submitted r) (objKeys (clients s)).

(** Before the first aggregation no mean round time has been stored, and
    [overallMeanTime] still has its initial value. *)
Definition noMeanYet (s : Server) : Prop :=
  roundMeanTimes s = [] -> overallMeanTime s = 0.

(** The score of a loss difference [delta] on [nData] samples, before the
    guard on its finiteness. *)
Definition rawScore (Math_exp : float -> float) (Math_pow : float -> float -> float)
    (delta nData : float) : float :=
  let ratio := Math_pow (JS.Math_abs delta * nData) PHI in
  if 0 <? delta then 1 - Math_exp (THETA * ratio)
  else 1 - Math_exp (- THETA * ratio).

(** The loss difference to score, by the rule "previous loss minus loss, or
    the loss itself when there is no previous loss". *)
Definition lossDelta (prev : option float) (currentLoss : float) : float :=
  match prev with
  | Some p => p - currentLoss
  | None => currentLoss
  end.

(** The value [Math.exp] returns inside the score: of [THETA * ratio] for a
    positive loss difference and of [-THETA * ratio] otherwise. *)
Definition expOfGain (Math_exp : float -> float) (Math_pow : float -> float -> float)
    (delta nData : float) : float :=
  Math_exp (THETA * Math_pow (JS.Math_abs delta * nData) PHI).

Definition expOfLoss (Math_exp : float -> float) (Math_pow : float -> float -> float)
    (delta nData : float) : float :=
  Math_exp (- THETA * Math_pow (JS.Math_abs delta * nData) PHI).

(** [1] in the specification of binary64. *)
Definition SFone64 : spec_float := S754_finite false 4503599627370496 (-52).

(** A specification float with sign [sx] that is neither a zero nor NaN. *)
Definition strictlySigned (sx : bool) (x : spec_float) : Prop :=
  x = S754_infinity sx \/ exists m e, x = S754_finite sx m e.

(** Requests that leave [synchronousRounds] alone. *)
Definition keepsMode (req : Request) : bool :=
  match req with
  | PostConfig newConfig =>
      match newSynchronousRounds newConfig with Some _ => false | None => true end
  | _ => true
  end.

(** A deadline callback is pending only in rounds past the synchronous ones. *)
Definition deadlinesOnlyAsync (s : Server) : Prop :=
  (exists t, In t (timers s) /\ callback t = DeadlineReached) ->
  (synchronousRounds (serverConfig s) < currentRoundNumber s)%Z.

(** A stand-in for the runtime's math library, to run the server on
    concrete requests: [Math.pow(x, 0.5)] as the correctly rounded square
    root and [Math.exp] by a truncated series after range reduction.  Every
    theorem is stated for all runtimes; the stand-in only instantiates the
    examples. *)
Definition exampleExp (x : float) : float :=
  let r := x / 1024 in
  let series :=
    1 + r * (1 + r / 2 * (1 + r / 3 * (1 + r / 4 * (1 + r / 5 * (1 + r / 6))))) in
  Nat.iter 10 (fun y => y * y) series.

Definition examplePow (x y : float) : float :=
  if y =? 0.5 then PrimFloat.sqrt x else nan.

(** ** Example data *)

Local Open Scope string_scope.

(** One layer holding the single weight [1]. *)
Definition unitUpdate : Model :=
  [("layer_0", [ {| data := [1]; shape := [1] |} ])].

Definition sevenClients : list string := ["c1"; "c2"; "c3"; "c4"; "c5"; "c6"; "c7"].

(** Two updates whose only tensor differs in length and shape. *)
Definition mismatchedUpdates : ClientWeights :=
  [("A", [("layer_0", [ {| data := [1; 2]; shape := [2] |} ])]);
   ("B", [("layer_0", [ {| data := [3]; shape := [1] |} ])])].

(** Three clients scored with the same quality [0.7]. *)
Definition scored (id : string) (q : float) : string * ModelQualityMetrics :=
  (id, {| clientId := id; loss := 1; previousLoss := None; lossDifference := None;
          numData := 100; quality := q |}).

Definition threeEqual : ModelQualityCalculator :=
  {| model := true;
     clientMetrics := [scored "A" 0.7; scored "B" 0.7; scored "C" 0.7];
     previousRoundMetrics := [("A", 1); ("B", 1); ("C", 1)] |}.

(** A calculator that scored client [A] with the loss [prev] in an earlier
    round, and one that never saw it. *)
Definition seenBefore (prev : float) : ModelQualityCalculator :=
  {| model := true; clientMetrics := []; previousRoundMetrics := [("A", prev)] |}.

Definition neverSeen : ModelQualityCalculator :=
  {| model := true; clientMetrics := []; previousRoundMetrics := [] |}.

(** A configuration with the given number of required clients and of
    synchronous rounds, and the defaults of [parseArgs] otherwise. *)
Definition config (required sync : Z) : ServerConfig :=
  {| totalRounds := 10; requiredClients := required; aggregationInterval := 1000;
     dataset := "fashion-mnist"; synchronousRounds := sync |}.

(** A submission of [weights] trained on 100 samples in 50 ms, whose
    evaluation yields [currentLoss]; it arrives at time 2000. *)
Definition submit (id : string) (weights : Model) (currentLoss : float) : Request :=
  PostSubmitWeights id weights 100 50 10 (EvalLoss currentLoss) 20 2000.

Definition twoLayerUpdate : Model :=
  [("layer_0", [ {| data := [1]; shape := [1] |} ]);
   ("layer_1", [ {| data := [1]; shape := [1] |} ])].

(** Two clients register and only [A] submits. *)
Definition oneOfTwoSubmitted : list Request :=
  [PostRegister "A" 1000; PostRegister "B" 1001; submit "A" unitUpdate 2].

(** Four clients register; [A], [B] and [C] submit, and [B]'s update has a
    layer that [A]'s lacks. *)
Definition threeOfFourSubmitted : list Request :=
  [PostRegister "A" 1000; PostRegister "B" 1001; PostRegister "C" 1002;
   PostRegister "D" 1003;
   submit "A" unitUpdate 0.5; submit "B" twoLayerUpdate 0.5; submit "C" unitUpdate 8].

(** Three clients register; [A] submits and is then removed by the
    administrator. *)
Definition submitterRemoved : list Request :=
  [PostRegister "A" 1000; PostRegister "B" 1001; PostRegister "C" 1002;
   submit "A" unitUpdate 2; DeleteClient "A"].

(** Two clients: [A] submits, then both clients are removed. *)
Definition registryEmptied : list Request :=
  [PostRegister "A" 1000; PostRegister "B" 1001; submit "A" unitUpdate 2;
   DeleteClient "A"; DeleteClient "B"].

(** Three clients: [A] submits, then [C], which has not submitted, is
    removed. *)
Definition bystanderRemoved : list Request :=
  [PostRegister "A" 1000; PostRegister "B" 1001; PostRegister "C" 1002;
   submit "A" unitUpdate 2; DeleteClient "C"].

(** One client: the first round is completed by a submission that took no
    time at all (training time [0], sent at the very
    [performance.now()] at which the server receives it). *)
Definition instantRound : list Request :=
  [PostRegister "A" 1000;
   PostSubmitWeights "A" unitUpdate 100 0 500 (EvalLoss 2) 500 2000].

(** One client: the first round is completed by an ordinary submission. *)
Definition firstRoundDone : list Request :=
  [PostRegister "A" 1000; submit "A" unitUpdate 2].

(** One layer of two zero weights. *)
Definition zeroUpdate : Model :=
  [("layer_0", [ {| data := [0; 0]; shape := [2] |} ])].

(** Two clients register and both submit the same all-zero update, trained
    on 100 samples. *)
Definition identicalSubmissions : list Request :=
  [PostRegister "A" 1000; PostRegister "B" 1001;
   submit "A" zeroUpdate 2; submit "B" zeroUpdate 2].

(** The servers these requests lead to when every round is asynchronous, on
    the stand-in runtime. *)
Definition afterInstantRound : Server :=
  run exampleExp examplePow (initialServer (config 1 0)) instantRound.

Definition waitingForB : Server :=
  run exampleExp examplePow (initialServer (config 2 0)) oneOfTwoSubmitted.

Definition waitingForD : Server :=
  run exampleExp examplePow (initialServer (config 4 0)) threeOfFourSubmitted.

(** The round in progress (an empty closed round when there is none). *)
Definition roundOf (s : Server) : Round.FederatedRound :=
  match currentRound s with
  | Some r => r
  | None =>
      {| Round.roundId := 0; Round.participants := [];
         Round.modelWeights := {| Round.clients := []; Round.aggregated := None |};
         Round.status := Round.completed |}
  end.

Local Close Scope string_scope.

From Stdlib Require Import Ascii.

(** ** Further functions of [server.ts] and [modelQuality.ts] *)

(** [clientWeights[clientId]] as the loops of [federatedAveraging] use it:
    [for ... in undefined] runs no iteration, like [for ... in {}]. *)
Definition weightsOf (clientWeights : ClientWeights) (clientId : string) : Model :=
  match objGet clientWeights clientId with
  | Some m => m
  | None => []
  end.

(** [federatedAveraging(clientWeights)], the variant that asks the quality
    calculator for the selection itself and falls back to all clients.  No
    function of the server calls it. *)
Definition federatedAveraging (c : ModelQualityCalculator) (clientWeights : ClientWeights)
  : completion Model :=
  let selectedClients := getSelectedClients c in
  match selectedClients with
  | [] => federatedAveragingAll clientWeights
  | firstClientId :: _ =>
      let numSelectedClients := JS.ofNat (length selectedClients) in
      agg <- addClients (initAggregated (objGet clientWeights firstClientId))
               (map (weightsOf clientWeights) selectedClients)
               numSelectedClients ;;
      Returns (returned agg)
  end.

(** [getClientMetrics()] *)
Definition getClientMetrics (c : ModelQualityCalculator) : list ModelQualityMetrics :=
  objValues (clientMetrics c).

(** [GET /global-model]: the reply and the [weights] of its body. *)
Definition getGlobalModel (s : Server) : Response * option Model :=
  match globalModel s with
  | None => (Reply 404 "No aggregated model available", None)
  | Some m => (Reply 200 "weights", Some m)
  end.

(** ** Command line ([server.ts], [parseArgs]) *)

Module Args.

(** [interface ServerConfig] as [parseArgs] fills it: the numeric options
    are whatever [parseInt] returned. *)
Record ServerConfig : Type := mk {
  totalRounds : float;
  requiredClients : float;
  aggregationInterval : float;
  dataset : string;
  synchronousRounds : float
}.

(** [s.split('=')]: the pieces between the separators, at least one. *)
Fixpoint split (sep : ascii) (s : string) : list string :=
  match s with
  | EmptyString => [EmptyString]
  | String c s' =>
      if Ascii.eqb c sep then EmptyString :: split sep s'
      else
        match split sep s' with
        | piece :: pieces => String c piece :: pieces
        | [] => [String c EmptyString]
        end
  end.

(** [arg.slice(2)] *)
Definition slice2 (arg : string) : string :=
  match arg with
  | String _ (String _ rest) => rest
  | _ => EmptyString
  end.

(** [const [key, value] = arg.slice(2).split('=')] *)
Definition keyOf (arg : string) : string :=
  match split "="%char (slice2 arg) with
  | key :: _ => key
  | [] => EmptyString
  end.

Definition valueOf (arg : string) : option string :=
  match split "="%char (slice2 arg) with
  | _ :: value :: _ => Some value
  | _ => None
  end.

(** [value || d] on a [string | undefined]. *)
Definition orString (value : option string) (d : string) : string :=
  match value with
  | Some EmptyString | None => d
  | Some v => v
  end.

Section ParseArgs.

(** The runtime's [parseInt], applied to a [string | undefined]. *)
Variable parseInt : option string -> float.

(** The body of the loop for one argument; [None] when [process.exit(0)]
    ends the process. *)
Definition parseArg (config : ServerConfig) (arg : string) : option ServerConfig :=
  if String.prefix "--" arg then
    let key := keyOf arg in
    let value := valueOf arg in
    if (String.eqb key "min-clients" || String.eqb key "required-clients")%bool then
      Some {| totalRounds := totalRounds config;
              requiredClients := JS.orElse (parseInt value) 5;
              aggregationInterval := aggregationInterval config;
              dataset := dataset config;
              synchronousRounds := synchronousRounds config |}
    else if (String.eqb key "fl-rounds" || String.eqb key "total-rounds")%bool then
      Some {| totalRounds := JS.orElse (parseInt value) 10;
              requiredClients := requiredClients config;
              aggregationInterval := aggregationInterval config;
              dataset := dataset config;
              synchronousRounds := synchronousRounds config |}
    else if String.eqb key "dataset" then
      Some {| totalRounds := totalRounds config;
              requiredClients := requiredClients config;
              aggregationInterval := aggregationInterval config;
              dataset := orString value "fashion-mnist";
              synchronousRounds := synchronousRounds config |}
    else if (String.eqb key "sync-rounds" || String.eqb key "synchronous-rounds")%bool then
      Some {| totalRounds := totalRounds config;
              requiredClients := requiredClients config;
              aggregationInterval := aggregationInterval config;
              dataset := dataset config;
              synchronousRounds := JS.orElse (parseInt value) 3 |}
    else if String.eqb key "aggregation-interval" then
      Some {| totalRounds := totalRounds config;
              requiredClients := requiredClients config;
              aggregationInterval := JS.orElse (parseInt value) 1000;
              dataset := dataset config;
              synchronousRounds := synchronousRounds config |}
    else if String.eqb key "help" then None
    else Some config
  else Some config.

Fixpoint parseFrom (config : ServerConfig) (args : list string) : option ServerConfig :=
  match args with
  | [] => Some config
  | arg :: rest =>
      match parseArg config arg with
      | Some config' => parseFrom config' rest
      | None => None
      end
  end.

(** [parseArgs()] for [process.argv.slice(2) = args]. *)
Definition parseArgs (args : list string) : option ServerConfig :=
  parseFrom {| totalRounds := 10; requiredClients := 5; aggregationInterval := 1000;
               dataset := "fashion-mnist"; synchronousRounds := 1 |} args.

End ParseArgs.
End Args.

(** ** Model architectures ([server.ts], [getModelArchitecture];
       [modelQuality.ts], [initializeModel]) *)

(** [interface LayerConfig] ([types.ts]) *)
Record LayerConfig : Type := mkLayer {
  type : string;
  units : option float;
  activation : option string;
  inputShape : option (list float);
  filters : option float;
  kernelSize : option float;
  poolSize : option float
}.

(** [interface ModelArchitecture] *)
Record ModelArchitecture : Type := mkArchitecture {
  archInputShape : list float;
  layers : list LayerConfig
}.

Definition dense (u : float) (a : string) (shape : option (list float)) : LayerConfig :=
  {| type := "dense"; units := Some u; activation := Some a; inputShape := shape;
     filters := None; kernelSize := None; poolSize := None |}.

Definition conv2d (f k : float) (a : string) (shape : option (list float)) : LayerConfig :=
  {| type := "conv2d"; units := None; activation := Some a; inputShape := shape;
     filters := Some f; kernelSize := Some k; poolSize := None |}.

Definition maxPooling2d (p : float) : LayerConfig :=
  {| type := "maxPooling2d"; units := None; activation := None; inputShape := None;
     filters := None; kernelSize := None; poolSize := Some p |}.

Definition flatten : LayerConfig :=
  {| type := "flatten"; units := None; activation := None; inputShape := None;
     filters := None; kernelSize := None; poolSize := None |}.

Section Architecture.

(** [String.prototype.toLowerCase] *)
Variable toLowerCase : string -> string.

(** [getModelArchitecture(dataset)] *)
Definition getModelArchitecture (dataset : string) : ModelArchitecture :=
  let name := toLowerCase dataset in
  if String.eqb name "cifar10" then
    {| archInputShape := [32; 32; 3];
       layers := [conv2d 32 3 "relu" (Some [32; 32; 3]); maxPooling2d 2;
                  conv2d 64 3 "relu" None; maxPooling2d 2; flatten;
                  dense 64 "relu" None; dense 10 "softmax" None] |}
  else if String.eqb name "fashion-mnist" then
    {| archInputShape := [784];
       layers := [dense 128 "relu" (Some [784]); dense 64 "relu" None;
                  dense 10 "softmax" None] |}
  else if String.eqb name "mnist" then
    {| archInputShape := [784];
       layers := [dense 128 "relu" (Some [784]); dense 64 "relu" None;
                  dense 10 "softmax" None] |}
  else
    {| archInputShape := [10];
       layers := [dense 64 "relu" (Some [10]); dense 32 "relu" None;
                  dense 10 "softmax" None] |}.

End Architecture.

(** The calls of [tf.layers] that [initializeModel] makes. *)
Inductive TfLayer : Type :=
| TfDense (units : option float) (activation : option string)
    (inputShape : option (list float))
| TfConv2d (filters kernelSize : option float) (activation : option string)
    (inputShape : option (list float))
| TfMaxPooling2d (poolSize : option float)
| TfFlatten.

(** The [switch (layer.type)] of [initializeModel]. *)
Definition layerOf (layer : LayerConfig) : completion TfLayer :=
  if String.eqb (type layer) "dense" then
    Returns (TfDense (units layer) (activation layer) (inputShape layer))
  else if String.eqb (type layer) "conv2d" then
    Returns (TfConv2d (filters layer) (kernelSize layer) (activation layer)
               (inputShape layer))
  else if String.eqb (type layer) "maxPooling2d" then
    Returns (TfMaxPooling2d (poolSize layer))
  else if String.eqb (type layer) "flatten" then Returns TfFlatten
  else Throws (Error ("Unsupported layer type: " ++ type layer)).

(** [architecture.layers.map(layer => ...)] *)
Fixpoint layersOf (ls : list LayerConfig) : completion (list TfLayer) :=
  match ls with
  | [] => Returns []
  | layer :: rest =>
      l <- layerOf layer ;;
      ls' <- layersOf rest ;;
      Returns (l :: ls')
  end.

(** ** Notions used to state further properties *)

(** The metrics whose quality is above the computed mean. *)
Definition aboveMean (c : ModelQualityCalculator) (m : ModelQualityMetrics) : bool :=
  meanQuality (objValues (clientMetrics c)) <? quality m.

(** Two lists combined entry by entry, as far as both reach. *)
Fixpoint zipWith {A B C} (f : A -> B -> C) (a : list A) (b : list B) : list C :=
  match a, b with
  | x :: a', y :: b' => f x y :: zipWith f a' b'
  | _, _ => []
  end.

(** One pass of the accumulation loop over an update [u] whose tensors lie
    where those of the accumulator do: every entry [x] of the accumulator
    becomes [x + d / n] for the entry [d] of the update at the same place. *)
Definition accumulateTensor (n : float) (a w : LayerWeights) : LayerWeights :=
  {| data := zipWith (fun x d => x + d / n) (data a) (data w); shape := shape a |}.

(** The tensors an update has under a layer name. *)
Definition tensorsOf (u : Model) (layerName : string) : list LayerWeights :=
  match objGet u layerName with
  | Some ws => ws
  | None => []
  end.

(** What the accumulation leaves in the layer [layerName] that started as
    [start], after the updates [us] in turn. *)
Definition accumulateLayer (n : float) (us : list Model) (layerName : string)
    (start : list LayerWeights) : list LayerWeights :=
  fold_left (fun acc u => zipWith (accumulateTensor n) acc (tensorsOf u layerName))
            us start.

(** The entry-by-entry average of the updates of a mapping: the layers of
    the first update that become properties of the result, started at zero
    and accumulated over the clients in the order of the mapping. *)
Definition pointwiseAverage (cw : ClientWeights) : Model :=
  map (fun '(layerName, ws) =>
         (layerName,
          accumulateLayer (JS.ofNat (length cw)) (objValues cw) layerName
                          (map zeroLike ws)))
      (withoutProto (firstUpdate cw)).

(** The layer names of a model with the lengths of its data arrays, and with
    its shape arrays. *)
Definition skeleton (m : Model) : list (string * list nat) :=
  map (fun '(name, ws) => (name, map (fun w => length (data w)) ws)) m.

Definition layout (m : Model) : list (string * list (list float)) :=
  map (fun '(name, ws) => (name, map shape ws)) m.


(** The aggregate of the round archived last. *)
Definition lastAggregated (rs : list Round.FederatedRound) : option Model :=
  match rev rs with
  | [] => None
  | r :: _ => Round.aggregated (Round.modelWeights r)
  end.

(** An archived round: completed, and holding the average of the updates of
    some of its submitters. *)
Definition archived (r : Round.FederatedRound) : Prop :=
  Round.status r = Round.completed
  /\ Round.participants r = []
  /\ exists selectedClients m,
       federatedAveragingAll (selectedWeights r selectedClients) = Returns m
       /\ Round.aggregated (Round.modelWeights r) = Some m.

(** The timing entries stored for a client, and the number of rounds in
    which it has a submission. *)
Definition timingsOf (s : Server) (id : string) : list ClientTimingMetrics :=
  match objGet (clientTimingMetrics s) id with
  | Some timings => timings
  | None => []
  end.

Definition submissionsOf (s : Server) (id : string) : nat :=
  length (filter (fun r => objHas (Round.clients (Round.modelWeights r)) id)
                 (allRounds s)).

(** What holds of the module-level variables between any two handlers. *)
Record coherent (s : Server) : Prop := {
  coh_flag : isAggregating s = false;
  coh_required : REQUIRED_CLIENTS s = requiredClients (serverConfig s);
  coh_total : TOTAL_ROUNDS s = totalRounds (serverConfig s);
  coh_ids : map Round.roundId (rounds s) = map Z.of_nat (seq 1 (length (rounds s)));
  coh_archived : Forall archived (rounds s);
  coh_global : globalModel s = lastAggregated (rounds s);
  coh_number :
    currentRoundNumber s =
    (Z.of_nat (length (rounds s))
     + match currentRound s with Some _ => 1 | None => 0 end)%Z;
  coh_current :
    forall r, currentRound s = Some r ->
      Round.roundId r = currentRoundNumber s
      /\ Round.status r = Round.in_progress
      /\ Round.participants r = []
      /\ Round.aggregated (Round.modelWeights r) = None
      /\ model (modelQualityCalculator s) = true
      /\ (exists t, roundStartTime s = Some t)
      /\ incl (objKeys (clientMetrics (modelQualityCalculator s))) (Round.submitted r)
      /\ (forall id c, objGet (clients s) id = Some c ->
            Client.status c = Client.aggregating -> In id (Round.submitted r));
  coh_idle :
    currentRound s = None ->
      roundDeadline s = None /\ roundStartTime s = None
      /\ Forall (fun kc => Client.status (snd kc) = Client.idle) (clients s);
  coh_clients :
    NoDup (objKeys (clients s))
    /\ Forall (fun kc => Client.clientId (snd kc) = fst kc) (clients s);
  coh_metrics :
    NoDup (objKeys (clientMetrics (modelQualityCalculator s)))
    /\ Forall (fun km => clientId (snd km) = fst km)
              (clientMetrics (modelQualityCalculator s));
  coh_means :
    match roundMeanTimes s with
    | [] => overallMeanTime s = 0
    | _ => overallMeanTime s = meanOf (map snd (roundMeanTimes s))
    end;
  coh_timings :
    forall id, length (timingsOf s id) = submissionsOf s id
}.


(** The requests a federated client sends while a round is running. *)
Definition isClientRequest (req : Request) : bool :=
  match req with
  | GetRoundStatus _ _ | PostSubmitWeights _ _ _ _ _ _ _ _ => true
  | _ => false
  end.

(** Every registered client has an entry in the submissions of [r]. *)
Definition allHaveSubmitted (s : Server) (r : Round.FederatedRound) : bool :=
  forallb (fun id => objHas (Round.clients (Round.modelWeights r)) id)
          (objKeys (clients s)).

(** Requests that change neither [requiredClients] nor [totalRounds]. *)
Definition keepsLimits (req : Request) : bool :=
  match req with
  | PostConfig newConfig =>
      match newTotalRounds newConfig, newRequiredClients newConfig with
      | None, None => true
      | _, _ => false
      end
  | _ => true
  end.

(** The bounds that [POST /config] checks. *)
Definition validConfig (c : ServerConfig) : Prop :=
  (1 <= totalRounds c)%Z /\ (1 <= requiredClients c)%Z
  /\ (100 <= aggregationInterval c)%Z.

(** The registry and the round counter are within [required] and [total],
    which the configuration and its two copies hold. *)
Definition withinLimits (required total : Z) (s : Server) : Prop :=
  (requiredClients (serverConfig s) = required /\ totalRounds (serverConfig s) = total)
  /\ REQUIRED_CLIENTS s = required /\ TOTAL_ROUNDS s = total
  /\ (Z.of_nat (length (clients s)) <= Z.max 0 required)%Z
  /\ (currentRoundNumber s <= Z.max 0 total)%Z.

(** The timers still pending once the request [req] has been taken up: an
    expired timer leaves the list as its callback starts. *)
Definition pendingAfter (s : Server) (req : Request) : list Timer :=
  match req with
  | TimerExpires n _ => removeNth (timers s) n
  | _ => timers s
  end.

(** An evaluation that [evaluateModel] answers with the default quality. *)
Definition unscored (ev : Evaluation) : bool :=
  match ev with
  | EvalThrows => true
  | EvalLoss currentLoss => JS.isNaN currentLoss
  end.

(** The argument is [--help], with or without a value. *)
Definition asksForHelp (arg : string) : bool :=
  String.prefix "--" arg && String.eqb (Args.keyOf arg) "help".

(** No numeric option is [0] or NaN and the dataset has a name. *)
Definition usable (c : Args.ServerConfig) : Prop :=
  JS.truthy (Args.totalRounds c) = true /\ JS.truthy (Args.requiredClients c) = true
  /\ JS.truthy (Args.aggregationInterval c) = true
  /\ JS.truthy (Args.synchronousRounds c) = true
  /\ Args.dataset c <> EmptyString.

(** The client has a stored previous loss. *)
Definition hasPreviousLoss (s : Server) (id : string) : bool :=
  objHas (previousRoundMetrics (modelQualityCalculator s)) id.

(** ** Further example data *)

Local Open Scope string_scope.

(** Two clients whose updates have the same layout. *)
Definition twoUpdates : ClientWeights :=
  [("A", [("layer_0", [ {| data := [1; 2]; shape := [2] |} ])]);
   ("B", [("layer_0", [ {| data := [3; 5]; shape := [2] |} ])])].

(** Two clients whose updates list the same layers in different orders. *)
Definition reorderedUpdates : ClientWeights :=
  [("A", [("layer_0", [ {| data := [1; 2]; shape := [2] |} ]);
          ("layer_1", [ {| data := [10]; shape := [1] |} ])]);
   ("B", [("layer_1", [ {| data := [20]; shape := [1] |} ]);
          ("layer_0", [ {| data := [3; 5]; shape := [2] |} ])])].

(** An update with a layer named [__proto__], as [JSON.parse] builds it from
    a request body, and two clients submitting it. *)
Definition shadowedUpdate : Model :=
  [("layer_0", [ {| data := [1]; shape := [1] |} ]);
   ("__proto__", [ {| data := [4]; shape := [1] |} ])].

Definition shadowedUpdates : ClientWeights :=
  [("A", shadowedUpdate); ("B", shadowedUpdate)].

(** Two clients register. *)
Definition twoRegistered : list Request :=
  [PostRegister "A" 1000; PostRegister "B" 1001].

(** Two clients in a synchronous round: [A] submits and [B] is removed. *)
Definition lastWaitingRemoved : list Request :=
  [PostRegister "A" 1000; PostRegister "B" 1001; submit "A" unitUpdate 2;
   DeleteClient "B"].

(** One client, every round asynchronous: the first round, whose deadline
    is at 31 s, is closed by the submission of [A] at 24 s, and the second
    round starts at 25 s with its deadline at 35 s. *)
Definition secondRoundStarted : list Request :=
  [PostRegister "A" 1000;
   PostSubmitWeights "A" unitUpdate 100 50 10 (EvalLoss 2) 20 24000;
   TimerExpires 1 25000].

(** An accepted and a rejected reconfiguration. *)
Definition reconfigured : list Request :=
  [PostConfig {| newTotalRounds := Some 3%Z; newRequiredClients := Some 4%Z;
                 newAggregationInterval := None; newDataset := None;
                 newSynchronousRounds := None |};
   PostConfig {| newTotalRounds := Some 0%Z; newRequiredClients := None;
                 newAggregationInterval := None; newDataset := None;
                 newSynchronousRounds := None |}].

(** Client [A] is removed and registers again. *)
Definition removedAndBack : list Request :=
  [DeleteClient "A"; PostRegister "A" 3000].

Local Close Scope string_scope.

(** * Properties of objects and arrays *)

Section ObjectFacts.
Context {V : Type}.
Implicit Types (o : obj V) (k : string) (v : V).

Lemma objGet_In o k v : objGet o k = Some v -> In (k, v) o.
Proof.
  induction o as [|[k' v'] o IH]; simpl; [discriminate|].
  destruct (String.eqb_spec k k') as [->|Hne].
  - intros [= ->]. now left.
  - intros H. right. auto.
Qed.

Lemma objGet_None o k : objGet o k = None <-> ~ In k (objKeys o).
Proof.
  induction o as [|[k' v'] o IH]; simpl; [tauto|].
  destruct (String.eqb_spec k k') as [->|Hne].
  - split; [discriminate|]. intros H. exfalso. apply H. now left.
  - rewrite IH. split; intros H; [intros [E|E]; [congruence|auto]|auto].
Qed.

Lemma objGet_objSet_same o k v : objGet (objSet o k v) k = Some v.
Proof.
  induction o as [|[k' v'] o IH]; simpl.
  - now rewrite String.eqb_refl.
  - destruct (String.eqb_spec k k') as [->|Hne]; simpl.
    + now rewrite String.eqb_refl.
    + destruct (String.eqb_spec k k'); [contradiction|assumption].
Qed.

Lemma objGet_objSet_other o k k' v : k' <> k -> objGet (objSet o k v) k' = objGet o k'.
Proof.
  intros Hne. induction o as [|[k0 v0] o IH]; simpl.
  - destruct (String.eqb_spec k' k); [contradiction|reflexivity].
  - destruct (String.eqb_spec k k0) as [->|Hk]; simpl.
    + destruct (String.eqb_spec k' k0); [contradiction|reflexivity].
    + now rewrite IH.
Qed.

Lemma objSet_objSet o k v v' : objSet (objSet o k v) k v' = objSet o k v'.
Proof.
  induction o as [|[k' w] o IH]; simpl.
  - now rewrite String.eqb_refl.
  - destruct (String.eqb_spec k k') as [->|Hne]; simpl.
    + now rewrite String.eqb_refl.
    + destruct (String.eqb_spec k k'); [contradiction|now rewrite IH].
Qed.

Lemma objSet_same o k v : objGet o k = Some v -> objSet o k v = o.
Proof.
  induction o as [|[k' w] o IH]; simpl; [discriminate|].
  destruct (String.eqb_spec k k') as [->|Hne].
  - now intros [= ->].
  - intros H. now rewrite IH.
Qed.

(** Keys after an assignment: the same keys, or one more at the end. *)
Lemma objKeys_objSet o k v :
  objKeys (objSet o k v) = if objHas o k then objKeys o else objKeys o ++ [k].
Proof.
  unfold objHas. induction o as [|[k' w] o IH]; simpl; [reflexivity|].
  destruct (String.eqb_spec k k') as [->|Hne]; simpl; [reflexivity|].
  rewrite IH. now destruct (objGet o k).
Qed.

Lemma objGet_app_skip (a b : obj V) k :
  ~ In k (objKeys a) -> objGet (a ++ b) k = objGet b k.
Proof.
  induction a as [|[k' w] a IH]; simpl; [reflexivity|].
  intros H. destruct (String.eqb_spec k k') as [->|Hne]; [tauto|].
  apply IH. tauto.
Qed.

Lemma objSet_app_skip (a b : obj V) k v :
  ~ In k (objKeys a) -> objSet (a ++ b) k v = a ++ objSet b k v.
Proof.
  induction a as [|[k' w] a IH]; simpl; [reflexivity|].
  intros H. destruct (String.eqb_spec k k') as [->|Hne]; [tauto|].
  f_equal. apply IH. tauto.
Qed.

Lemma objSet_fresh o k v : ~ In k (objKeys o) -> objSet o k v = o ++ [(k, v)].
Proof.
  intros H. rewrite <- (app_nil_r o) at 1. now rewrite objSet_app_skip.
Qed.

Lemma objKeys_objDelete_incl o k : incl (objKeys (objDelete o k)) (objKeys o).
Proof.
  induction o as [|[k' w] o IH]; simpl; [apply incl_refl|].
  destruct (String.eqb k k').
  - apply incl_tl, incl_refl.
  - intros x [<-|Hx]; [now left|right; now apply IH].
Qed.

Lemma NoDup_objKeys_objSet o k v : NoDup (objKeys o) -> NoDup (objKeys (objSet o k v)).
Proof.
  intros H. rewrite objKeys_objSet. unfold objHas.
  destruct (objGet o k) eqn:E; [assumption|].
  apply objGet_None in E.
  apply NoDup_app; [assumption|repeat constructor; simpl; tauto|].
  intros x Hx [<-|[]]. contradiction.
Qed.
End ObjectFacts.

Section ArrayFacts.
Context {V : Type}.

Lemma arraySet_length (a : list V) i v : length (arraySet a i v) = length a.
Proof.
  revert i; induction a as [|x a IH]; intros [|i]; simpl; auto.
Qed.

Lemma arraySet_app_here (pre : list V) x rest v :
  arraySet (pre ++ x :: rest) (length pre) v = pre ++ v :: rest.
Proof. induction pre as [|y pre IH]; simpl; [reflexivity|now rewrite IH]. Qed.

Lemma nth_error_arraySet_same (a : list V) i v x :
  nth_error a i = Some x -> nth_error (arraySet a i v) i = Some v.
Proof.
  revert i; induction a as [|y a IH]; intros [|i]; simpl; try discriminate; auto.
Qed.

Lemma arraySet_arraySet (a : list V) i v v' :
  arraySet (arraySet a i v) i v' = arraySet a i v'.
Proof.
  revert i; induction a as [|y a IH]; intros [|i]; simpl; auto.
  now rewrite IH.
Qed.

Lemma arraySet_same (a : list V) i x : nth_error a i = Some x -> arraySet a i x = a.
Proof.
  revert i; induction a as [|y a IH]; intros [|i]; simpl; try discriminate.
  - now intros [= ->].
  - intros H. now rewrite IH.
Qed.
End ArrayFacts.

Lemma objGet_map_values {A B : Type} (g : A -> B) (o : obj A) k :
  objGet (map (fun '(name, v) => (name, g v)) o) k = option_map g (objGet o k).
Proof.
  induction o as [|[k' v] o IH]; simpl; [reflexivity|].
  now destruct (String.eqb k k').
Qed.

Lemma objKeys_map_values {A B : Type} (g : A -> B) (o : obj A) :
  objKeys (map (fun '(name, v) => (name, g v)) o) = objKeys o.
Proof.
  unfold objKeys. rewrite map_map. apply map_ext. now intros [k v].
Qed.
(** * Federated averaging *)

Lemma repeat_zero_map (ds : list float) : repeat 0 (length ds) = map (fun _ => 0) ds.
Proof. induction ds; simpl; congruence. Qed.

Lemma zeroLike_mapTensor w : zeroLike w = mapTensor (fun _ => 0) w.
Proof. unfold zeroLike, mapTensor. now rewrite repeat_zero_map. Qed.

(** ** The accumulator *)

Ltac accumulator_cases agg name Hget Hp :=
  unfold readLayer, assignLayer, objHas;
  destruct (objGet (ownLayers agg) name) eqn:Hget;
  [|destruct (String.eqb name protoKey) eqn:Hp];
  cbn [negb andb ownLayers inherited]; rewrite ?Hget, ?Hp.

Lemma readLayer_assignLayer_same agg name ws :
  readLayer (assignLayer agg name ws) name = Some ws.
Proof.
  accumulator_cases agg name Hget Hp.
  - now rewrite objGet_objSet_same.
  - reflexivity.
  - now rewrite objGet_objSet_same.
Qed.

Lemma readLayer_assignLayer_other agg name name' ws :
  name' <> name -> readLayer (assignLayer agg name ws) name' = readLayer agg name'.
Proof.
  intros Hne. accumulator_cases agg name Hget Hp.
  - now rewrite objGet_objSet_other.
  - apply String.eqb_eq in Hp. subst name.
    destruct (objGet (ownLayers agg) name'); [reflexivity|].
    destruct (String.eqb_spec name' protoKey); [contradiction|reflexivity].
  - now rewrite objGet_objSet_other.
Qed.

Lemma assignLayer_same agg name ws :
  readLayer agg name = Some ws -> assignLayer agg name ws = agg.
Proof.
  destruct agg as [own inh].
  accumulator_cases {| ownLayers := own; inherited := inh |} name Hget Hp;
    cbn [ownLayers inherited] in *.
  - intros [= ->]. now rewrite (objSet_same _ _ _ Hget).
  - now intros ->.
  - discriminate.
Qed.

Lemma assignLayer_twice agg name ws ws' :
  assignLayer (assignLayer agg name ws) name ws' = assignLayer agg name ws'.
Proof.
  accumulator_cases agg name Hget Hp.
  - rewrite objGet_objSet_same. cbn [negb andb]. now rewrite objSet_objSet.
  - reflexivity.
  - rewrite objGet_objSet_same. cbn [negb andb]. now rewrite objSet_objSet.
Qed.

(** Writing to a layer that a read reaches adds no property. *)
Lemma ownKeys_assignLayer agg name ws ws' :
  readLayer agg name = Some ws ->
  objKeys (ownLayers (assignLayer agg name ws')) = objKeys (ownLayers agg).
Proof.
  accumulator_cases agg name Hget Hp; intros H.
  - rewrite objKeys_objSet. unfold objHas. now rewrite Hget.
  - reflexivity.
  - discriminate.
Qed.

Lemma readLayer_own agg name :
  In name (objKeys (ownLayers agg)) -> objGet (ownLayers agg) name = readLayer agg name.
Proof.
  unfold readLayer. destruct (objGet (ownLayers agg) name) eqn:Hget; [reflexivity|].
  apply objGet_None in Hget. contradiction.
Qed.

(** An object is determined by its keys, in order, and the values under them. *)
Lemma obj_by_keys {V} (a b : obj V) :
  objKeys a = objKeys b -> NoDup (objKeys a) ->
  (forall k, In k (objKeys a) -> objGet a k = objGet b k) -> a = b.
Proof.
  revert b. induction a as [|[k v] a IH]; intros [|[k' v'] b] Hk Hnd Hget;
    simpl in *; try discriminate; [reflexivity|].
  injection Hk as <- Hk. inversion Hnd as [|? ? Hnotin Hnd']; subst.
  pose proof (Hget k (or_introl eq_refl)) as Hv. rewrite String.eqb_refl in Hv.
  injection Hv as <-. f_equal. apply IH; try assumption.
  intros y Hy. specialize (Hget y (or_intror Hy)).
  destruct (String.eqb_spec y k) as [E|Hne]; [subst; contradiction|assumption].
Qed.

Lemma objGet_In_NoDup {V} (o : obj V) k v :
  NoDup (objKeys o) -> In (k, v) o -> objGet o k = Some v.
Proof.
  induction o as [|[k' v'] o IH]; simpl; [tauto|].
  intros Hnd [[= -> ->]|Hin].
  - now rewrite String.eqb_refl.
  - inversion Hnd as [|? ? Hnotin Hnd']; subst.
    destruct (String.eqb_spec k k') as [->|Hne].
    + exfalso. apply Hnotin. unfold objKeys. apply (in_map fst _ _ Hin).
    + now apply IH.
Qed.

(** ** The layers that become properties *)

Lemma objKeys_withoutProto_incl (m : Model) : incl (objKeys (withoutProto m)) (objKeys m).
Proof.
  induction m as [|[k ws] m IH]; simpl; [apply incl_refl|].
  destruct (negb (String.eqb k protoKey)); simpl.
  - intros x [<-|Hx]; [now left|right; now apply IH].
  - now apply incl_tl.
Qed.

Lemma NoDup_withoutProto (m : Model) : NoDup (objKeys m) -> NoDup (objKeys (withoutProto m)).
Proof.
  induction m as [|[k ws] m IH]; simpl; [trivial|].
  intros Hnd. inversion Hnd as [|? ? Hnotin Hnd']; subst.
  destruct (negb (String.eqb k protoKey)); simpl; [|now apply IH].
  constructor; [|now apply IH].
  intros Hin. apply Hnotin. now apply objKeys_withoutProto_incl.
Qed.

Lemma In_withoutProto (m : Model) k ws :
  In (k, ws) (withoutProto m) <-> In (k, ws) m /\ k <> protoKey.
Proof.
  unfold withoutProto. rewrite filter_In.
  destruct (String.eqb_spec k protoKey); simpl; intuition congruence.
Qed.

Lemma withoutProto_none (m : Model) : objHas m protoKey = false -> withoutProto m = m.
Proof.
  unfold objHas. induction m as [|[k ws] m IH]; [reflexivity|].
  cbn [objGet withoutProto filter]. rewrite (String.eqb_sym k protoKey).
  destruct (String.eqb protoKey k); [discriminate|].
  cbn [negb]. intros H. f_equal. now apply IH.
Qed.

(** ** The first loop *)

Lemma initAggregated_own (first : Model) (acc : Accumulator) :
  NoDup (objKeys (ownLayers acc) ++ objKeys first) ->
  ~ In protoKey (objKeys (ownLayers acc)) ->
  ownLayers
    (fold_left (fun agg '(layerName, ws) => assignLayer agg layerName (map zeroLike ws))
               first acc)
  = ownLayers acc
    ++ map (fun '(layerName, ws) => (layerName, map zeroLike ws)) (withoutProto first).
Proof.
  revert acc. induction first as [|[name ws] first IH]; intros acc Hnd Hp.
  - simpl. now rewrite app_nil_r.
  - assert (Hfresh : ~ In name (objKeys (ownLayers acc))).
    { apply NoDup_remove_2 in Hnd. intros Hin. apply Hnd, in_or_app. now left. }
    assert (Hhas : objHas (ownLayers acc) name = false).
    { unfold objHas. apply objGet_None in Hfresh. now rewrite Hfresh. }
    cbn [fold_left withoutProto filter]. unfold assignLayer at 2. rewrite Hhas.
    cbn [negb andb].
    destruct (String.eqb_spec name protoKey) as [->|Hne]; cbn [negb].
    + rewrite IH; cbn [ownLayers]; [reflexivity| |assumption].
      now apply NoDup_remove_1 in Hnd.
    + rewrite IH; cbn [ownLayers]; rewrite objSet_fresh by assumption.
      * cbn [map]. now rewrite <- app_assoc.
      * unfold objKeys in *. rewrite map_app. cbn [map fst] in *.
        now rewrite <- app_assoc.
      * unfold objKeys in *. rewrite map_app. cbn [map fst]. intros Hin.
        apply in_app_or in Hin.
        destruct Hin as [Hin|[E|[]]]; [now apply Hp|congruence].
Qed.

Lemma initAggregated_read (first : Model) (acc : Accumulator) name :
  NoDup (objKeys first) ->
  readLayer
    (fold_left (fun agg '(layerName, ws) => assignLayer agg layerName (map zeroLike ws))
               first acc) name
  = match objGet first name with
    | Some ws => Some (map zeroLike ws)
    | None => readLayer acc name
    end.
Proof.
  revert acc. induction first as [|[k ws] first IH]; intros acc Hnd; simpl; [reflexivity|].
  inversion Hnd as [|? ? Hnotin Hnd']; subst.
  rewrite IH by assumption.
  destruct (String.eqb_spec name k) as [->|Hne].
  - apply objGet_None in Hnotin. rewrite Hnotin. apply readLayer_assignLayer_same.
  - destruct (objGet first name); [reflexivity|].
    now apply readLayer_assignLayer_other.
Qed.

Lemma initAggregated_some_own (first : Model) :
  NoDup (objKeys first) ->
  ownLayers (initAggregated (Some first)) = mapModel (fun _ => 0) (withoutProto first).
Proof.
  intros Hnd. unfold initAggregated. rewrite initAggregated_own; simpl; try tauto.
  unfold mapModel. apply map_ext. intros [name ws]. f_equal.
  apply map_ext. intros w. apply zeroLike_mapTensor.
Qed.

(** ** The accumulation loops *)

Lemma arrayAddAt_here pre x rest v :
  arrayAddAt (pre ++ x :: rest) (length pre) v = pre ++ (x + v) :: rest.
Proof.
  unfold arrayAddAt. rewrite nth_error_app2 by lia.
  rewrite Nat.sub_diag. simpl. apply arraySet_app_here.
Qed.

Lemma addList_zip pre a ds n :
  length a = length ds ->
  addList (pre ++ a) (length pre) ds n = pre ++ zipWith (fun x d => x + d / n) a ds.
Proof.
  revert pre a. induction ds as [|d ds IH]; intros pre [|x a] Hlen; simpl in *;
    try discriminate; try reflexivity.
  rewrite arrayAddAt_here.
  change (pre ++ (x + d / n) :: a) with (pre ++ [x + d / n] ++ a).
  rewrite app_assoc.
  replace (S (length pre)) with (length (pre ++ [x + d / n]))
    by (rewrite length_app; simpl; lia).
  rewrite IH by congruence. now rewrite <- app_assoc.
Qed.

Lemma addData_eq agg name i j ds n ws w :
  readLayer agg name = Some ws -> nth_error ws i = Some w ->
  addData agg name i j ds n =
  Returns (assignLayer agg name
             (arraySet ws i {| data := addList (data w) j ds n; shape := shape w |})).
Proof.
  revert agg j ws w. induction ds as [|d ds IH]; intros agg j ws w Hget Hnth; simpl.
  - destruct w as [dw sw]; simpl.
    rewrite (arraySet_same _ _ _ Hnth). now rewrite (assignLayer_same _ _ _ Hget).
  - unfold addAt. rewrite Hget, Hnth. simpl.
    set (w1 := {| data := arrayAddAt (data w) j (d / n); shape := shape w |}).
    rewrite (IH _ _ (arraySet ws i w1) w1).
    + rewrite assignLayer_twice, arraySet_arraySet. reflexivity.
    + apply readLayer_assignLayer_same.
    + eapply nth_error_arraySet_same; eassumption.
Qed.

(** One layer of an update whose tensors are as long as those the
    accumulator holds there. *)
Lemma addLayer_zip agg name ws us n pre :
  readLayer agg name = Some (pre ++ ws) ->
  map (fun w => length (data w)) ws = map (fun w => length (data w)) us ->
  addLayer agg name (length pre) us n =
  Returns (assignLayer agg name (pre ++ zipWith (accumulateTensor n) ws us)).
Proof.
  revert agg pre ws. induction us as [|u us IH]; intros agg pre [|w ws] Hget Hlen;
    simpl in *; try discriminate.
  - now rewrite (assignLayer_same _ _ _ Hget).
  - injection Hlen as Hw Hrest.
    erewrite addData_eq; [|eassumption|].
    2:{ rewrite nth_error_app2 by lia. rewrite Nat.sub_diag. reflexivity. }
    simpl. rewrite arraySet_app_here.
    pose proof (addList_zip [] (data w) (data u) n Hw) as Hl. simpl in Hl. rewrite Hl.
    change {| data := zipWith (fun x d => x + d / n) (data w) (data u); shape := shape w |}
      with (accumulateTensor n w u).
    replace (S (length pre)) with (length (pre ++ [accumulateTensor n w u]))
      by (rewrite length_app; simpl; lia).
    rewrite (IH _ (pre ++ [accumulateTensor n w u]) ws).
    + rewrite assignLayer_twice. now rewrite <- app_assoc.
    + rewrite readLayer_assignLayer_same. now rewrite <- app_assoc.
    + assumption.
Qed.

(** One update whose layers are all reached, with tensors as long as those
    the accumulator holds: every layer of the update is accumulated where
    it is read, and nothing else changes. *)
Lemma addClient_zip agg (u : Model) n :
  NoDup (objKeys u) ->
  (forall name us, In (name, us) u ->
     exists ws, readLayer agg name = Some ws
                /\ map (fun w => length (data w)) ws = map (fun w => length (data w)) us) ->
  exists agg',
    addClient agg u n = Returns agg'
    /\ objKeys (ownLayers agg') = objKeys (ownLayers agg)
    /\ (forall name us, In (name, us) u ->
          exists ws, readLayer agg name = Some ws
                     /\ readLayer agg' name = Some (zipWith (accumulateTensor n) ws us))
    /\ (forall name, ~ In name (objKeys u) -> readLayer agg' name = readLayer agg name).
Proof.
  revert agg. induction u as [|[k us] u IH]; intros agg Hnd Hall.
  - exists agg. repeat split; simpl; tauto.
  - inversion Hnd as [|? ? Hnotin Hnd']; subst.
    destruct (Hall k us (or_introl eq_refl)) as (ws & Hget & Hlen).
    cbn [addClient].
    pose proof (addLayer_zip agg k ws us n [] Hget Hlen) as Hlayer.
    cbn [length app] in Hlayer. rewrite Hlayer. cbn [JS.bind].
    set (agg1 := assignLayer agg k (zipWith (accumulateTensor n) ws us)).
    assert (Hother : forall name, name <> k -> readLayer agg1 name = readLayer agg name)
      by (intros; now apply readLayer_assignLayer_other).
    assert (Hin_ne : forall name vs, In (name, vs) u -> name <> k).
    { intros name vs Hin ->. apply Hnotin. apply (in_map fst _ _ Hin). }
    destruct (IH agg1 Hnd') as (agg' & Hrun & Hkeys & Hdone & Hrest).
    { intros name vs Hin. rewrite (Hother name (Hin_ne _ _ Hin)).
      apply Hall. now right. }
    exists agg'. split; [assumption|]. split; [|split].
    + rewrite Hkeys. apply (ownKeys_assignLayer _ _ _ _ Hget).
    + intros name vs [[= <- <-]|Hin].
      * exists ws. split; [assumption|].
        rewrite (Hrest k Hnotin). apply readLayer_assignLayer_same.
      * destruct (Hdone name vs Hin) as (ws' & H1 & H2).
        exists ws'. split; [|assumption].
        now rewrite <- (Hother name (Hin_ne _ _ Hin)).
    + intros name Hname. simpl in Hname.
      rewrite Hrest by tauto. apply Hother. intros ->. tauto.
Qed.

(** The properties of the accumulator are determined by what is read under
    their names. *)
Lemma ownLayers_by_reads agg (m : Model)
    (g : string -> list LayerWeights -> list LayerWeights) :
  NoDup (objKeys m) -> objKeys (ownLayers agg) = objKeys m ->
  (forall name ws, In (name, ws) m -> readLayer agg name = Some (g name ws)) ->
  ownLayers agg = map (fun '(name, ws) => (name, g name ws)) m.
Proof.
  intros Hnd Hkeys Hread. apply obj_by_keys.
  - rewrite Hkeys. unfold objKeys. rewrite map_map. apply map_ext. now intros [k ws].
  - now rewrite Hkeys.
  - intros k Hk. rewrite readLayer_own by assumption.
    rewrite Hkeys in Hk. unfold objKeys in Hk. apply in_map_iff in Hk.
    destruct Hk as ([k' ws] & <- & Hin). cbn [fst].
    rewrite (Hread _ _ Hin). symmetry. apply objGet_In_NoDup.
    + unfold objKeys. rewrite map_map.
      erewrite map_ext; [exact Hnd|]. now intros [k1 w1].
    + apply in_map_iff. exists (k', ws). now split.
Qed.

(** ** Identical updates *)

Lemma zipWith_accumulate_same (f : float -> float) n (ws : list LayerWeights) :
  zipWith (accumulateTensor n) (map (mapTensor f) ws) ws
  = map (mapTensor (fun x => f x + x / n)) ws.
Proof.
  induction ws as [|w ws IH]; simpl; [reflexivity|]. f_equal; [|assumption].
  unfold accumulateTensor, mapTensor. simpl. f_equal.
  induction (data w) as [|x xs IHx]; simpl; congruence.
Qed.

Lemma lengths_mapTensor (f : float -> float) (ws : list LayerWeights) :
  map (fun w => length (data w)) (map (mapTensor f) ws)
  = map (fun w => length (data w)) ws.
Proof.
  rewrite map_map. apply map_ext. intros w. simpl. apply length_map.
Qed.

Lemma addClients_identical (f : float -> float) (u : Model) (m : nat) n agg :
  NoDup (objKeys u) ->
  (forall name ws, In (name, ws) u -> readLayer agg name = Some (map (mapTensor f) ws)) ->
  exists agg',
    addClients agg (repeat u m) n = Returns agg'
    /\ objKeys (ownLayers agg') = objKeys (ownLayers agg)
    /\ forall name ws, In (name, ws) u ->
         readLayer agg' name = Some (map (mapTensor (fun x => shares m n (f x) x)) ws).
Proof.
  intros Hnd. revert f agg. induction m as [|m IH]; intros f agg Hread.
  - exists agg. repeat split; assumption.
  - cbn [repeat addClients].
    destruct (addClient_zip agg u n Hnd) as (agg1 & -> & Hkeys & Hdone & _).
    { intros name ws Hin. exists (map (mapTensor f) ws).
      split; [now apply Hread|apply lengths_mapTensor]. }
    cbn [JS.bind].
    destruct (IH (fun x => f x + x / n) agg1) as (agg' & Hrun & Hkeys' & Hread').
    { intros name ws Hin. destruct (Hdone name ws Hin) as (ws' & H1 & H2).
      rewrite (Hread name ws Hin) in H1. injection H1 as <-.
      now rewrite H2, zipWith_accumulate_same. }
    exists agg'. split; [assumption|]. split; [congruence|exact Hread'].
Qed.

Lemma mapTensor_id (f : float -> float) w :
  Forall (fun x => f x = x) (data w) -> mapTensor f w = w.
Proof.
  destruct w as [d s]. unfold mapTensor. simpl. intros H. f_equal.
  induction H; simpl; congruence.
Qed.

Lemma mapModel_id (f : float -> float) (m : Model) :
  Forall (fun x => f x = x) (entries m) -> mapModel f m = m.
Proof.
  induction m as [|[name ws] m IH]; simpl; [reflexivity|].
  intros H. apply Forall_app in H. destruct H as [Hws Hm].
  rewrite IH by assumption. do 2 f_equal.
  clear IH Hm. induction ws as [|w ws IHw]; simpl in *; [reflexivity|].
  apply Forall_app in Hws. destruct Hws as [Hw Hws].
  now rewrite mapTensor_id, IHw.
Qed.

Lemma objValues_constant (ids : list string) (u : Model) :
  objValues (map (fun id => (id, u)) ids) = repeat u (length ids).
Proof. induction ids; simpl; congruence. Qed.

Lemma objKeys_constant (ids : list string) (u : Model) :
  objKeys (map (fun id => (id, u)) ids) = ids.
Proof. unfold objKeys. rewrite map_map. simpl. apply map_id. Qed.

Lemma federatedAveragingAll_copies (ids : list string) (u : Model) :
  ids <> [] -> NoDup (objKeys u) ->
  federatedAveragingAll (map (fun id => (id, u)) ids)
  = Returns (mapModel (sumOfShares (length ids)) (withoutProto u)).
Proof.
  intros Hne Hnd. unfold federatedAveragingAll.
  rewrite objValues_constant, objKeys_constant.
  destruct ids as [|id ids]; [congruence|].
  cbn [map objGet]. rewrite String.eqb_refl.
  destruct (addClients_identical (fun _ => 0) u (length (id :: ids))
              (JS.ofNat (length (id :: ids))) (initAggregated (Some u)) Hnd)
    as (agg & -> & Hkeys & Hread).
  { intros name ws Hin. unfold initAggregated.
    rewrite initAggregated_read by assumption.
    rewrite (objGet_In_NoDup _ _ _ Hnd Hin). f_equal.
    apply map_ext. intros w. apply zeroLike_mapTensor. }
  cbn [JS.bind]. f_equal. unfold returned, mapModel.
  apply (ownLayers_by_reads agg (withoutProto u)
           (fun _ ws => map (mapTensor (sumOfShares (length (id :: ids)))) ws)).
  - now apply NoDup_withoutProto.
  - rewrite Hkeys, initAggregated_some_own by assumption.
    unfold mapModel. apply objKeys_map_values.
  - intros name ws Hin. apply In_withoutProto in Hin. destruct Hin as [Hin _].
    now apply Hread.
Qed.

(** ** When the accumulation throws *)

Lemma slotReached_update (agg : Accumulator) name ws i w name' i' :
  readLayer agg name = Some ws ->
  slotReached (assignLayer agg name (arraySet ws i w)) name' i' = slotReached agg name' i'.
Proof.
  intros Hget. unfold slotReached.
  destruct (String.eqb_spec name' name) as [->|Hne].
  - now rewrite readLayer_assignLayer_same, Hget, arraySet_length.
  - now rewrite readLayer_assignLayer_other.
Qed.

Lemma addAt_fits agg name i j v :
  slotReached agg name i = true ->
  exists agg', addAt agg name i j v = Returns agg'
               /\ forall name' i', slotReached agg' name' i' = slotReached agg name' i'.
Proof.
  unfold slotReached at 1, addAt.
  destruct (readLayer agg name) as [ws|] eqn:Hget; [|discriminate].
  intros Hlt. apply Nat.ltb_lt in Hlt.
  destruct (nth_error ws i) as [w|] eqn:Hnth.
  - eexists. split; [reflexivity|].
    intros name' i'. now apply slotReached_update.
  - apply nth_error_None in Hnth. lia.
Qed.

Lemma addAt_misfit agg name i j v :
  slotReached agg name i = false -> addAt agg name i j v = Throws TypeError.
Proof.
  unfold slotReached, addAt. destruct (readLayer agg name) as [ws|]; [|reflexivity].
  intros Hlt. apply Nat.ltb_ge in Hlt.
  destruct (nth_error ws i) eqn:Hnth; [|reflexivity].
  assert (nth_error ws i <> None) as Hs by congruence.
  apply nth_error_Some in Hs. lia.
Qed.

Lemma addData_fits agg name i j ds n :
  slotReached agg name i = true ->
  exists agg', addData agg name i j ds n = Returns agg'
               /\ forall name' i', slotReached agg' name' i' = slotReached agg name' i'.
Proof.
  revert agg j. induction ds as [|d ds IH]; intros agg j Hslot; simpl.
  - exists agg. now split.
  - destruct (addAt_fits agg name i j (d / n) Hslot) as (agg1 & -> & H1). simpl.
    destruct (IH agg1 (S j)) as (agg2 & -> & H2); [now rewrite H1|].
    exists agg2. split; [reflexivity|]. intros name' i'. now rewrite H2.
Qed.

Lemma addData_misfit agg name i j d ds n :
  slotReached agg name i = false ->
  addData agg name i j (d :: ds) n = Throws TypeError.
Proof. intros H. simpl. now rewrite addAt_misfit. Qed.

Lemma addLayer_fits template agg name i ws n :
  sameSlots agg template -> tensorsFit template name i ws = true ->
  exists agg', addLayer agg name i ws n = Returns agg' /\ sameSlots agg' template.
Proof.
  revert agg i. induction ws as [|w ws IH]; intros agg i Hs Hfit; simpl in *.
  - now exists agg.
  - apply andb_true_iff in Hfit. destruct Hfit as [Hw Hrest].
    destruct (data w) as [|d ds] eqn:Hd.
    + simpl. now apply IH.
    + rewrite <- Hs in Hw.
      destruct (addData_fits agg name i 0 (d :: ds) n Hw) as (agg1 & -> & H1). simpl.
      apply IH; [|assumption]. intros name' i'. now rewrite H1.
Qed.

Lemma addLayer_misfit template agg name i ws n :
  sameSlots agg template -> tensorsFit template name i ws = false ->
  addLayer agg name i ws n = Throws TypeError.
Proof.
  revert agg i. induction ws as [|w ws IH]; intros agg i Hs Hfit; simpl in *.
  - discriminate.
  - destruct (data w) as [|d ds] eqn:Hd.
    + simpl in *. now apply IH.
    + rewrite <- Hs in Hfit.
      destruct (slotReached agg name i) eqn:Hslot.
      * destruct (addData_fits agg name i 0 (d :: ds) n Hslot) as (agg1 & -> & H1). simpl.
        apply IH; [|assumption]. intros name' i'. now rewrite H1.
      * now rewrite addData_misfit.
Qed.

Lemma addClient_fits template agg m n :
  sameSlots agg template -> modelFits template m = true ->
  exists agg', addClient agg m n = Returns agg' /\ sameSlots agg' template.
Proof.
  revert agg. induction m as [|[name ws] m IH]; intros agg Hs Hfit; simpl in *.
  - now exists agg.
  - apply andb_true_iff in Hfit. destruct Hfit as [Hl Hrest].
    destruct (addLayer_fits template agg name 0 ws n Hs Hl) as (agg1 & -> & H1). simpl.
    now apply IH.
Qed.

Lemma addClient_misfit template agg m n :
  sameSlots agg template -> modelFits template m = false ->
  addClient agg m n = Throws TypeError.
Proof.
  revert agg. induction m as [|[name ws] m IH]; intros agg Hs Hfit; simpl in *.
  - discriminate.
  - destruct (tensorsFit template name 0 ws) eqn:Hl.
    + destruct (addLayer_fits template agg name 0 ws n Hs Hl) as (agg1 & -> & H1). simpl.
      now apply IH.
    + now rewrite (addLayer_misfit template).
Qed.

Lemma addClients_fits template agg ms n :
  sameSlots agg template -> forallb (modelFits template) ms = true ->
  exists agg', addClients agg ms n = Returns agg' /\ sameSlots agg' template.
Proof.
  revert agg. induction ms as [|m ms IH]; intros agg Hs Hfit; simpl in *.
  - now exists agg.
  - apply andb_true_iff in Hfit. destruct Hfit as [Hm Hrest].
    destruct (addClient_fits template agg m n Hs Hm) as (agg1 & -> & H1). simpl.
    now apply IH.
Qed.

Lemma addClients_misfit template agg ms n :
  sameSlots agg template -> forallb (modelFits template) ms = false ->
  addClients agg ms n = Throws TypeError.
Proof.
  revert agg. induction ms as [|m ms IH]; intros agg Hs Hfit; simpl in *.
  - discriminate.
  - destruct (modelFits template m) eqn:Hm.
    + destruct (addClient_fits template agg m n Hs Hm) as (agg1 & -> & H1). simpl.
      now apply IH.
    + now rewrite (addClient_misfit template).
Qed.

(** The accumulator starts with the layout of the first update: a tensor
    is reached wherever the first update has one, also in a layer that has
    become the prototype. *)
Lemma initAggregated_slots (cw : ClientWeights) :
  NoDup (objKeys (firstUpdate cw)) ->
  sameSlots
    (initAggregated
       match objKeys cw with
       | [] => None
       | firstClientId :: _ => objGet cw firstClientId
       end)
    (firstUpdate cw).
Proof.
  destruct cw as [|[id m] cw]; cbn [objKeys map fst objGet firstUpdate]; intros Hnd.
  - intros name i. unfold slotReached, readLayer. cbn.
    now destruct (String.eqb name protoKey).
  - rewrite String.eqb_refl. intros name i. unfold slotReached, slotExists, initAggregated.
    rewrite initAggregated_read by assumption.
    destruct (objGet m name); [now rewrite length_map|].
    unfold readLayer. cbn. now destruct (String.eqb name protoKey).
Qed.

(** [federatedAveragingAll] throws exactly when some update has a non-empty
    tensor where the first update has none; it never throws anything but a
    TypeError. *)
Lemma federatedAveragingAll_fits (cw : ClientWeights) :
  NoDup (objKeys (firstUpdate cw)) ->
  forallb (modelFits (firstUpdate cw)) (objValues cw) = true ->
  exists m, federatedAveragingAll cw = Returns m.
Proof.
  intros Hnd Hfit. unfold federatedAveragingAll.
  destruct (addClients_fits (firstUpdate cw) _ (objValues cw)
              (JS.ofNat (length (objKeys cw))) (initAggregated_slots cw Hnd) Hfit)
    as (agg & -> & _).
  now eexists.
Qed.

Lemma federatedAveragingAll_misfit (cw : ClientWeights) :
  NoDup (objKeys (firstUpdate cw)) ->
  forallb (modelFits (firstUpdate cw)) (objValues cw) = false ->
  federatedAveragingAll cw = Throws TypeError.
Proof.
  intros Hnd Hfit. unfold federatedAveragingAll.
  now rewrite (addClients_misfit (firstUpdate cw)) by (try assumption; now apply initAggregated_slots).
Qed.

(** Whatever the accumulation throws is a TypeError. *)
Lemma addAt_throws agg name i j v e : addAt agg name i j v = Throws e -> e = TypeError.
Proof.
  unfold addAt. destruct (readLayer agg name) as [T|]; [|congruence].
  destruct (nth_error T i); congruence.
Qed.

Lemma addData_throws agg name i j ds n e :
  addData agg name i j ds n = Throws e -> e = TypeError.
Proof.
  revert agg j. induction ds as [|d ds IH]; intros agg j; simpl; [discriminate|].
  destruct (addAt agg name i j (d / n)) as [agg1|e1] eqn:Ha; simpl; [apply IH|].
  intros [= <-]. eapply addAt_throws; eassumption.
Qed.

Lemma addLayer_throws agg name i ws n e :
  addLayer agg name i ws n = Throws e -> e = TypeError.
Proof.
  revert agg i. induction ws as [|w ws IH]; intros agg i; simpl; [discriminate|].
  destruct (addData agg name i 0 (data w) n) as [agg1|e1] eqn:Hd; simpl; [apply IH|].
  intros [= <-]. eapply addData_throws; eassumption.
Qed.

Lemma addClient_throws agg m n e : addClient agg m n = Throws e -> e = TypeError.
Proof.
  revert agg. induction m as [|[name ws] m IH]; intros agg; simpl; [discriminate|].
  destruct (addLayer agg name 0 ws n) as [agg1|e1] eqn:Hl; simpl; [apply IH|].
  intros [= <-]. eapply addLayer_throws; eassumption.
Qed.

Lemma addClients_throws agg ms n e :
  addClients agg ms n = Throws e -> e = TypeError /\ ms <> [].
Proof.
  revert agg. induction ms as [|m ms IH]; intros agg; simpl; [discriminate|].
  intros H. split; [|discriminate].
  destruct (addClient agg m n) as [agg1|e1] eqn:Hc; simpl in H.
  - now apply IH in H.
  - injection H as <-. eapply addClient_throws; eassumption.
Qed.

(** ** The aggregator on special inputs *)

(** C4, as the code has it: [federatedAveragingAll] raises no error of its
    own for an empty mapping.  On [{}] it returns the empty model [{}]; the
    only exception it can raise at all is the TypeError of reading a tensor
    that the accumulator lacks, and that needs a non-empty mapping. *)
Theorem federatedAveragingAll_empty :
  federatedAveragingAll [] = Returns []
  /\ forall cw e, federatedAveragingAll cw = Throws e -> e = TypeError /\ cw <> [].
Proof.
  split; [reflexivity|].
  intros cw e H. unfold federatedAveragingAll in H.
  destruct (addClients _ _ _) as [agg|e'] eqn:Hrun; [discriminate|].
  injection H as <-.
  apply addClients_throws in Hrun. destruct Hrun as [-> Hne]. split; [reflexivity|].
  intros ->. now apply Hne.
Qed.

(** C4 as stated fails: the empty mapping is averaged to a result, not
    rejected. *)
Lemma federatedAveragingAll_empty_returns :
  exists m, federatedAveragingAll [] = Returns m.
Proof. now exists []. Qed.

(** C6, as the code has it: when [k >= 1] clients all submit the update [u],
    [federatedAveragingAll] returns the layers of [u] with every entry [x]
    replaced by the floating-point sum [0 + x/k + ... + x/k] of [k] terms,
    except a layer named [__proto__], which the first loop makes the
    prototype of the result instead of a property; the result is [u] itself
    whenever [u] has no such layer and that sum is exact for every entry of
    [u]. *)
Theorem federatedAveragingAll_identical (ids : list string) (u : Model) :
  ids <> [] -> NoDup (objKeys u) ->
  federatedAveragingAll (map (fun id => (id, u)) ids)
  = Returns (mapModel (sumOfShares (length ids)) (withoutProto u))
  /\ (objHas u protoKey = false ->
      Forall (fun x => sumOfShares (length ids) x = x) (entries u) ->
      federatedAveragingAll (map (fun id => (id, u)) ids) = Returns u).
Proof.
  intros Hne Hnd. split.
  - now apply federatedAveragingAll_copies.
  - intros Hproto Hexact. rewrite federatedAveragingAll_copies by assumption.
    rewrite (withoutProto_none _ Hproto). now rewrite mapModel_id.
Qed.

(** Two clients submitting [unitUpdate]: halving and adding twice is exact. *)
Lemma federatedAveragingAll_identical_witness :
  federatedAveragingAll (map (fun id => (id, unitUpdate)) ["c1"; "c2"]%string)
  = Returns (mapModel (sumOfShares 2) (withoutProto unitUpdate))
  /\ federatedAveragingAll (map (fun id => (id, unitUpdate)) ["c1"; "c2"]%string)
     = Returns unitUpdate.
Proof.
  destruct (federatedAveragingAll_identical ["c1"; "c2"]%string unitUpdate) as [H1 H2].
  - discriminate.
  - repeat constructor; simpl; tauto.
  - split; [exact H1|]. apply H2; [reflexivity|repeat constructor].
Defined.

(** C6 as stated fails: seven clients submitting the weight [1] are averaged
    to [0.9999999999999998], since [1/7] is rounded before it is added seven
    times. *)
Lemma seven_identical_updates_drift :
  federatedAveragingAll (map (fun id => (id, unitUpdate)) sevenClients)
  = Returns [("layer_0"%string,
              [ {| data := [0x1.ffffffffffffep-1]; shape := [1] |} ])]
  /\ (0x1.ffffffffffffep-1 <? 1) = true.
Proof. split; reflexivity. Qed.

(** C5 as stated fails: the second update has a shorter tensor of another
    shape, and the average is computed all the same. *)
Lemma mismatched_updates_are_averaged :
  federatedAveragingAll mismatchedUpdates
  = Returns [("layer_0"%string, [ {| data := [2; 1]; shape := [2] |} ])].
Proof. reflexivity. Qed.


(** * Client selection *)

Lemma filter_constant {A} (p : A -> bool) (l : list A) :
  (forall x y, In x l -> In y l -> p x = p y) -> filter p l = [] \/ filter p l = l.
Proof.
  destruct l as [|a l]; [now left|].
  intros H. destruct (p a) eqn:Ha.
  - right. apply forallb_filter_id. apply forallb_forall.
    intros x Hx. rewrite <- Ha. apply H; [assumption|now left].
  - left. assert (Hall : forall x, In x (a :: l) -> p x = false).
    { intros x Hx. rewrite <- Ha. apply H; [assumption|now left]. }
    clear H Ha. induction (a :: l) as [|b l' IH]; [reflexivity|].
    simpl. rewrite Hall by now left. apply IH. intros x Hx. apply Hall. now right.
Qed.

Lemma getSelectedClients_filter (c : ModelQualityCalculator) :
  getSelectedClients c =
  map clientId
    (filter (fun m => meanQuality (objValues (clientMetrics c)) <? quality m)
            (objValues (clientMetrics c))).
Proof.
  unfold getSelectedClients. now destruct (objValues (clientMetrics c)).
Qed.

(** C1, as the code has it: [getSelectedClients] returns nothing when no
    client has been scored; otherwise it returns exactly the scored clients
    whose quality is strictly greater than the mean as the code computes it
    (the qualities added in floating point from [0], in order, and divided by
    their number).  When all qualities are equal the result is the empty list
    or, when rounding puts the computed mean below the common value, the list
    of all scored clients. *)
Theorem getSelectedClients_above_mean (c : ModelQualityCalculator) :
  let metrics := objValues (clientMetrics c) in
  (metrics = [] -> getSelectedClients c = [])
  /\ (forall id, In id (getSelectedClients c) <->
        exists m, In m metrics /\ clientId m = id
                  /\ (meanQuality metrics <? quality m) = true)
  /\ ((forall m m', In m metrics -> In m' metrics -> quality m = quality m') ->
      getSelectedClients c = [] \/ getSelectedClients c = map clientId metrics).
Proof.
  intros metrics. rewrite getSelectedClients_filter. fold metrics.
  split; [|split].
  - now intros ->.
  - intros id. rewrite in_map_iff. split.
    + intros (m & Hid & Hm). apply filter_In in Hm. destruct Hm. now exists m.
    + intros (m & Hin & Hid & Hq). exists m. split; [assumption|].
      apply filter_In. now split.
  - intros Heq.
    destruct (filter_constant (fun m => meanQuality metrics <? quality m) metrics) as [->| ->].
    + intros x y Hx Hy. now rewrite (Heq x y).
    + now left.
    + now right.
Qed.

(** C1 as stated fails: three clients with quality [0.7] have the computed
    mean [0.6999999999999998], and all three are selected. *)
Lemma equal_qualities_all_selected :
  Forall (fun m => quality m = 0.7) (objValues (clientMetrics threeEqual))
  /\ getSelectedClients threeEqual = ["A"; "B"; "C"]%string.
Proof. split; [repeat constructor|reflexivity]. Qed.

(** * The quality score *)

(** C2, at a failing input: client [A] was scored with loss [1] in an
    earlier round and submits a model with loss [1] again, with
    [numData = 100].  The loss difference is recorded as [0], but
    [lossDifference || currentLoss] passes the raw loss [1] to
    [computeModelQuality]: the client is scored exactly like one that was
    never seen before, on [1 - exp(0.01 * pow(100, 0.5))] rather than on the
    [1 - exp(-0.01 * pow(0, 0.5))] of a zero difference. *)
Theorem evaluateModel_unchanged_loss (Math_exp : float -> float)
    (Math_pow : float -> float -> float) :
  let '(q, c) := evaluateModel Math_exp Math_pow (seenBefore 1) "A" (EvalLoss 1) 100 in
  q = Returns (computeModelQuality Math_exp Math_pow 1 100)
  /\ q = fst (evaluateModel Math_exp Math_pow neverSeen "A" (EvalLoss 1) 100)
  /\ option_map previousLoss (objGet (clientMetrics c) "A") = Some (Some 1)
  /\ option_map lossDifference (objGet (clientMetrics c) "A") = Some (Some 0)
  /\ computeModelQuality Math_exp Math_pow 1 100 =
     (let score := 1 - Math_exp (THETA * Math_pow 100 PHI) in
      if JS.isNaN score || negb (JS.isFinite score) then 0.5 else score).
Proof. repeat split. Qed.

(** The same two inputs on the stand-in runtime.  With an unchanged loss the
    code returns a negative quality where the rule of C2 gives [0]; with a
    stored previous loss of [0] and a current loss of [1] it returns the same
    negative quality where the rule, on the loss difference [-1], gives a
    positive one. *)
Lemma falsy_losses_on_the_example_runtime :
  (fst (evaluateModel exampleExp examplePow (seenBefore 1) "A" (EvalLoss 1) 100)
   = Returns (computeModelQuality exampleExp examplePow 1 100)
   /\ (computeModelQuality exampleExp examplePow 1 100 <? 0) = true
   /\ rawScore exampleExp examplePow (lossDelta (Some 1) 1) 100 = 0)
  /\ (fst (evaluateModel exampleExp examplePow (seenBefore 0) "A" (EvalLoss 1) 100)
      = Returns (computeModelQuality exampleExp examplePow 1 100)
      /\ (0 <? rawScore exampleExp examplePow (lossDelta (Some 0) 1) 100) = true).
Proof. repeat split; vm_compute; reflexivity. Qed.

Lemma isFinite_not_NaN x : JS.isFinite x = true -> JS.isNaN x = false.
Proof.
  unfold JS.isFinite, JS.isNaN, PrimFloat.is_finite. intros H.
  apply negb_true_iff in H. now apply orb_false_iff in H.
Qed.

Section QualityFormula.

Variable Math_exp : float -> float.
Variable Math_pow : float -> float -> float.

Lemma computeModelQuality_formula delta nData :
  JS.isFinite delta = true -> JS.isFinite nData = true -> (nData <=? 0) = false ->
  computeModelQuality Math_exp Math_pow delta nData =
  if JS.isFinite (rawScore Math_exp Math_pow delta nData)
  then rawScore Math_exp Math_pow delta nData else 0.5.
Proof.
  intros Hd Hn Hpos. unfold computeModelQuality.
  rewrite (isFinite_not_NaN _ Hd), (isFinite_not_NaN _ Hn), Hd, Hn, Hpos.
  cbn [orb negb]. cbv zeta.
  change (if 0 <? delta
          then 1 - Math_exp (THETA * Math_pow (JS.Math_abs delta * nData) PHI)
          else 1 - Math_exp (- THETA * Math_pow (JS.Math_abs delta * nData) PHI))
    with (rawScore Math_exp Math_pow delta nData).
  destruct (JS.isFinite (rawScore Math_exp Math_pow delta nData)) eqn:Hs.
  - now rewrite (isFinite_not_NaN _ Hs).
  - now rewrite orb_true_r.
Qed.

(** X1, the part of C2 that holds: for a client whose stored previous loss is
    usable (absent, or present and neither [0] nor NaN) and a submission
    whose loss is a number, whose loss difference is finite and not [0], and
    whose [numData] is finite and positive, the quality is the score
    [1 - exp(0.01 * pow(|delta| * numData, 0.5))] for [delta > 0] and
    [1 - exp(-0.01 * pow(|delta| * numData, 0.5))] otherwise, replaced by
    [0.5] when it is not finite; the metrics are recorded and the stored
    previous loss becomes the current loss. *)
Theorem evaluateModel_quality (c : ModelQualityCalculator) (id : string)
    (currentLoss nData : float) :
  let prev := objGet (previousRoundMetrics c) id in
  let delta := lossDelta prev currentLoss in
  model c = true ->
  JS.isNaN currentLoss = false ->
  match prev with Some p => JS.truthy p = true | None => True end ->
  JS.truthy delta = true -> JS.isFinite delta = true ->
  JS.isFinite nData = true -> (nData <=? 0) = false ->
  let q := if JS.isFinite (rawScore Math_exp Math_pow delta nData)
           then rawScore Math_exp Math_pow delta nData else 0.5 in
  let '(result, c') := evaluateModel Math_exp Math_pow c id (EvalLoss currentLoss) nData in
  result = Returns q
  /\ objGet (previousRoundMetrics c') id = Some currentLoss
  /\ objGet (clientMetrics c') id =
     Some {| clientId := id; loss := currentLoss; previousLoss := prev;
             lossDifference := option_map (fun p => p - currentLoss) prev;
             numData := nData; quality := q |}.
Proof.
  intros prev delta Hmodel Hnan Hprev Htruthy Hfin Hn Hpos q.
  unfold evaluateModel. rewrite Hmodel, Hnan. simpl.
  fold prev.
  assert (Hor : orNull prev = prev).
  { destruct prev as [p|]; simpl; [now rewrite Hprev|reflexivity]. }
  rewrite Hor.
  assert (Harg : orNumber match prev with Some p => Some (p - currentLoss) | None => None end
                   currentLoss = delta).
  { unfold delta, lossDelta. destruct prev as [p|]; simpl; [|reflexivity].
    unfold JS.orElse. unfold delta, lossDelta in Htruthy. now rewrite Htruthy. }
  rewrite Harg. rewrite (computeModelQuality_formula delta nData Hfin Hn Hpos).
  fold q. rewrite !objGet_objSet_same.
  repeat split.
Qed.

End QualityFormula.

(** Client [A], scored with loss [2] before, submits a model with loss [3]. *)
Lemma evaluateModel_quality_witness :
  fst (evaluateModel exampleExp examplePow (seenBefore 2) "A" (EvalLoss 3) 100)
  = Returns (if JS.isFinite (rawScore exampleExp examplePow (-1) 100)
             then rawScore exampleExp examplePow (-1) 100 else 0.5)
  /\ objGet (previousRoundMetrics
               (snd (evaluateModel exampleExp examplePow (seenBefore 2) "A" (EvalLoss 3) 100)))
            "A" = Some 3.
Proof.
  pose proof (evaluateModel_quality exampleExp examplePow (seenBefore 2) "A" 3 100) as H.
  cbv zeta in H.
  destruct (evaluateModel exampleExp examplePow (seenBefore 2) "A" (EvalLoss 3) 100)
    as [result c'] eqn:He.
  destruct H as (H1 & H2 & _); try (vm_compute; reflexivity).
  simpl fst. simpl snd. split; [exact H1|exact H2].
Defined.
(** * The sign of the quality score *)

(** ** Binary64 subtraction from [1]

    The facts below are read off the specification of binary64 arithmetic
    ([SpecFloat]), to which the primitive operations conform. *)

(** The number of binary digits bounds the mantissa. *)
Lemma digits2_pos_bounds m :
  (2 ^ (Zpos (digits2_pos m) - 1) <= Zpos m < 2 ^ Zpos (digits2_pos m))%Z.
Proof.
  induction m as [p IH|p IH|]; simpl digits2_pos.
  - rewrite Pos2Z.inj_succ.
    replace (Z.succ (Zpos (digits2_pos p)) - 1)%Z with (Z.succ (Zpos (digits2_pos p) - 1))%Z by lia.
    rewrite !Z.pow_succ_r by lia. lia.
  - rewrite Pos2Z.inj_succ.
    replace (Z.succ (Zpos (digits2_pos p)) - 1)%Z with (Z.succ (Zpos (digits2_pos p) - 1))%Z by lia.
    rewrite !Z.pow_succ_r by lia. lia.
  - simpl. lia.
Qed.

Lemma iter_xO_grows m d : (2 * Zpos m <= Zpos (Pos.iter xO m d))%Z.
Proof.
  induction d as [|d IH] using Pos.peano_ind.
  - simpl. lia.
  - rewrite Pos.iter_succ. lia.
Qed.

Lemma Prim2SF_one : Prim2SF 1 = SFone64.
Proof. reflexivity. Qed.

Lemma Prim2SF_zero : Prim2SF 0 = S754_zero false.
Proof. reflexivity. Qed.

(** A valid mantissa with an exponent above the subnormal range has 53
    digits; any valid mantissa has at most 53. *)
Lemma valid_digits m e :
  bounded prec emax m e = true ->
  (Zpos (digits2_pos m) <= 53)%Z
  /\ ((-1074 < e)%Z -> Zpos (digits2_pos m) = 53%Z).
Proof.
  unfold bounded, canonical_mantissa, fexp, SpecFloat.emin, prec, emax.
  intros H. apply andb_true_iff in H. destruct H as [H _].
  apply Z.eqb_eq in H. lia.
Qed.

Lemma valid_exponent m e :
  bounded prec emax m e = true -> (SpecFloat.emin prec emax <= e)%Z.
Proof.
  unfold bounded, canonical_mantissa, fexp, SpecFloat.emin, prec, emax.
  intros H. apply andb_true_iff in H. destruct H as [H _].
  apply Z.eqb_eq in H. lia.
Qed.

Lemma shr_1_div2 mrs : (0 <= shr_m mrs)%Z -> shr_m (shr_1 mrs) = (shr_m mrs / 2)%Z.
Proof.
  destruct mrs as [m r s]. cbn [shr_m].
  destruct m as [|[p|p|]|p]; cbn [shr_1 shr_m]; intros H; try lia.
  - reflexivity.
  - apply Z.div_unique with (r := 1%Z); lia.
  - apply Z.div_unique with (r := 0%Z); lia.
  - reflexivity.
Qed.

Lemma iter_shr_1_div p : forall mrs,
  (0 <= shr_m mrs)%Z ->
  (0 <= shr_m (iter_pos shr_1 p mrs))%Z
  /\ shr_m (iter_pos shr_1 p mrs) = (shr_m mrs / 2 ^ Zpos p)%Z.
Proof.
  induction p as [p IH|p IH|]; intros mrs H; simpl iter_pos.
  - pose proof (shr_1_div2 mrs H) as H1.
    assert (H1' : (0 <= shr_m (shr_1 mrs))%Z) by (rewrite H1; apply Z.div_pos; lia).
    destruct (IH _ H1') as [H2 E2]. destruct (IH _ H2) as [H3 E3].
    split; [assumption|]. rewrite E3, E2, H1.
    assert (Hpow : (0 < 2 ^ Zpos p)%Z) by (apply Z.pow_pos_nonneg; lia).
    rewrite !Z.div_div by lia. f_equal.
    replace (Zpos p~1) with (1 + Zpos p + Zpos p)%Z by lia.
    rewrite !Z.pow_add_r by lia. change (2 ^ 1)%Z with 2%Z. lia.
  - destruct (IH _ H) as [H2 E2]. destruct (IH _ H2) as [H3 E3].
    split; [assumption|]. rewrite E3, E2.
    assert (Hpow : (0 < 2 ^ Zpos p)%Z) by (apply Z.pow_pos_nonneg; lia).
    rewrite !Z.div_div by lia. f_equal.
    replace (Zpos p~0) with (Zpos p + Zpos p)%Z by lia.
    rewrite !Z.pow_add_r by lia. lia.
  - pose proof (shr_1_div2 mrs H) as H1. split.
    + rewrite H1. apply Z.div_pos; lia.
    + rewrite H1. reflexivity.
Qed.

(** Rounding a positive mantissa whose exponent is not below the smallest
    one keeps it positive. *)
Lemma shr_fexp_positive m e l :
  (0 < m)%Z -> (SpecFloat.emin prec emax <= e)%Z ->
  (0 < shr_m (fst (shr_fexp prec emax m e l)))%Z
  /\ (SpecFloat.emin prec emax <= snd (shr_fexp prec emax m e l))%Z.
Proof.
  intros Hm He. unfold shr_fexp, shr.
  assert (Hrec : shr_m (shr_record_of_loc m l) = m)
    by (destruct l as [|[| |]]; reflexivity).
  destruct m as [|p|p]; try lia. simpl Zdigits2.
  pose proof (digits2_pos_bounds p) as Hp.
  unfold fexp. unfold SpecFloat.emin, prec, emax in *.
  destruct (Z.max (Z.pos (digits2_pos p) + e - 53) (3 - 1024 - 53) - e)%Z
    as [|n|n] eqn:Hn; simpl fst; simpl snd; try (rewrite Hrec; split; lia).
  destruct (iter_shr_1_div n (shr_record_of_loc (Z.pos p) l)) as [_ E];
    [rewrite Hrec; lia|].
  rewrite E, Hrec. split; [|lia].
  assert (Hn' : Zpos n = (Zpos (digits2_pos p) - 53)%Z) by lia.
  apply Z.lt_le_trans with (m := (2 ^ 52)%Z); [reflexivity|].
  apply Z.div_le_lower_bound; [apply Z.pow_pos_nonneg; lia|].
  rewrite <- Z.pow_add_r by lia.
  replace (Z.pos n + 52)%Z with (Zpos (digits2_pos p) - 1)%Z by lia. lia.
Qed.

Lemma round_nearest_even_positive m l : (0 < m)%Z -> (0 < round_nearest_even m l)%Z.
Proof.
  intros H. unfold round_nearest_even.
  destruct l as [|[| |]]; try assumption; [destruct (Z.even m)|]; lia.
Qed.

Lemma binary_round_aux_strictlySigned sx m e l :
  (0 < m)%Z -> (SpecFloat.emin prec emax <= e)%Z ->
  strictlySigned sx (binary_round_aux prec emax sx m e l).
Proof.
  intros H He. unfold binary_round_aux.
  destruct (shr_fexp_positive m e l H He) as [H1 He1].
  destruct (shr_fexp prec emax m e l) as [mrs' e'] eqn:E1. simpl in H1, He1.
  destruct (shr_fexp_positive _ e' loc_Exact
              (round_nearest_even_positive _ (loc_of_shr_record mrs') H1) He1)
    as [H2 _].
  destruct (shr_fexp prec emax _ e' loc_Exact) as [mrs'' e''] eqn:E2. simpl in H2.
  unfold strictlySigned. destruct (shr_m mrs'') as [|p|p]; try lia.
  destruct (e'' <=? emax - prec)%Z; [right; eauto|now left].
Qed.

Lemma binary_round_strictlySigned sx m e :
  (SpecFloat.emin prec emax <= e)%Z ->
  strictlySigned sx (binary_round prec emax sx m e).
Proof.
  intros He. unfold binary_round, shl_align.
  destruct (fexp prec emax (Z.pos (digits2_pos m) + e) - e)%Z eqn:Hd;
    apply binary_round_aux_strictlySigned; try lia.
  unfold fexp. lia.
Qed.

Lemma strictlySigned_negative_lt_zero x :
  strictlySigned true x -> SFltb x (S754_zero false) = true.
Proof. intros [->|(m & e & ->)]; reflexivity. Qed.

Lemma strictlySigned_positive_gt_zero x :
  strictlySigned false x -> SFltb (S754_zero false) x = true.
Proof. intros [->|(m & e & ->)]; reflexivity. Qed.

Lemma SFltb_positive m1 e1 m2 e2 :
  SFltb (S754_finite false m1 e1) (S754_finite false m2 e2) = true ->
  (e1 < e2)%Z \/ (e1 = e2 /\ (Zpos m1 < Zpos m2)%Z).
Proof.
  unfold SFltb, SFcompare.
  destruct (Z.compare_spec e1 e2) as [He|He|He]; try discriminate; [|now left].
  fold (Pos.compare m1 m2).
  destruct (Pos.compare_spec m1 m2) as [Hm|Hm|Hm]; try discriminate;
    intros _; right; split; try assumption; lia.
Qed.

Lemma SF_one_minus_negative E :
  valid_binary E = true -> SFltb SFone64 E = true ->
  SFltb (SF64sub SFone64 E) (S754_zero false) = true.
Proof.
  intros Hvalid Hlt.
  destruct E as [s|s| |s m e]; try discriminate.
  - destruct s; [discriminate|reflexivity].
  - destruct s; [discriminate|].
    simpl in Hvalid. destruct (valid_digits m e Hvalid) as [_ Hnormal].
    pose proof (valid_exponent m e Hvalid) as Hemin.
    pose proof (digits2_pos_bounds m) as Hm.
    apply SFltb_positive in Hlt.
    unfold SF64sub, SFsub, SFone64, binary_normalize, cond_Zopp.
    destruct Hlt as [He|[He Hge]].
    + rewrite Z.min_l by lia. unfold shl_align at 1. rewrite Z.sub_diag.
      cbn [fst].
      unfold shl_align. destruct (-52 - e)%Z as [|d|d] eqn:Hd; try lia. cbn [fst].
      rewrite Hnormal in Hm by lia.
      pose proof (iter_xO_grows m d) as Hgrow.
      change (2 ^ (53 - 1))%Z with 4503599627370496%Z in Hm.
      destruct (Z.pos 4503599627370496 - Z.pos (Pos.iter xO m d))%Z as [|p|p] eqn:Hdiff;
        try lia.
      apply strictlySigned_negative_lt_zero, binary_round_strictlySigned.
      unfold SpecFloat.emin, prec, emax. lia.
    + subst e. rewrite Z.min_id. unfold shl_align. rewrite Z.sub_diag. cbn [fst].
      destruct (Z.pos 4503599627370496 - Z.pos m)%Z as [|p|p] eqn:Hd; try lia.
      apply strictlySigned_negative_lt_zero, binary_round_strictlySigned.
      unfold SpecFloat.emin, prec, emax. lia.
Qed.

Lemma SF_one_minus_positive E :
  valid_binary E = true -> SFleb (S754_zero false) E = true -> SFltb E SFone64 = true ->
  SFltb (S754_zero false) (SF64sub SFone64 E) = true.
Proof.
  intros Hvalid Hge Hlt.
  destruct E as [s|s| |s m e]; try discriminate.
  - destruct s; reflexivity.
  - destruct s; discriminate.
  - destruct s; [discriminate|].
    simpl in Hvalid. destruct (valid_digits m e Hvalid) as [Hdigits _].
    pose proof (valid_exponent m e Hvalid) as Hemin.
    pose proof (digits2_pos_bounds m) as Hm.
    apply SFltb_positive in Hlt.
    unfold SF64sub, SFsub, SFone64, binary_normalize, cond_Zopp.
    unfold SpecFloat.emin, prec, emax in Hemin.
    destruct Hlt as [He|[He Hbound]].
    + rewrite Z.min_r by lia. unfold shl_align at 2. rewrite Z.sub_diag. cbn [fst].
      unfold shl_align. destruct (e - -52)%Z as [|d|d] eqn:Hd; try lia. cbn [fst].
      pose proof (iter_xO_grows 4503599627370496 d) as Hgrow.
      assert (Hup : (Zpos m < 2 ^ 53)%Z).
      { destruct Hm as [_ Hm]. eapply Z.lt_le_trans; [exact Hm|].
        apply Z.pow_le_mono_r; lia. }
      change (2 ^ 53)%Z with 9007199254740992%Z in Hup.
      destruct (Z.pos (Pos.iter xO 4503599627370496%positive d) - Z.pos m)%Z
        as [|p|p] eqn:Hdiff; try lia.
      apply strictlySigned_positive_gt_zero, binary_round_strictlySigned.
      unfold SpecFloat.emin, prec, emax. lia.
    + subst e. rewrite Z.min_id. unfold shl_align. rewrite Z.sub_diag. cbn [fst].
      destruct (Z.pos 4503599627370496 - Z.pos m)%Z as [|p|p] eqn:Hd; try lia.
      apply strictlySigned_positive_gt_zero, binary_round_strictlySigned.
      unfold SpecFloat.emin, prec, emax. lia.
Qed.

Lemma one_minus_negative e : (1 <? e) = true -> (1 - e <? 0) = true.
Proof.
  rewrite !FloatAxioms.ltb_spec, FloatAxioms.sub_spec, Prim2SF_one, Prim2SF_zero.
  apply SF_one_minus_negative, Prim2SF_valid.
Qed.

Lemma one_minus_positive e :
  (0 <=? e) = true -> (e <? 1) = true -> (0 <? 1 - e) = true.
Proof.
  rewrite !FloatAxioms.ltb_spec, FloatAxioms.leb_spec, FloatAxioms.sub_spec, Prim2SF_one, Prim2SF_zero.
  apply SF_one_minus_positive, Prim2SF_valid.
Qed.

Lemma ltb_through_zero a b : (a <? 0) = true -> (0 <? b) = true -> (a <? b) = true.
Proof.
  rewrite !FloatAxioms.ltb_spec, Prim2SF_zero.
  destruct (Prim2SF a) as [sa|sa| |sa ma ea], (Prim2SF b) as [sb|sb| |sb mb eb];
    try discriminate;
    try destruct sa; try destruct sb; try discriminate; reflexivity.
Qed.

Lemma iter_xO_pow m d : Zpos (Pos.iter xO m d) = (Zpos m * 2 ^ Zpos d)%Z.
Proof.
  induction d as [|d IH] using Pos.peano_ind.
  - simpl. lia.
  - rewrite Pos.iter_succ, Pos2Z.inj_xO, IH, Pos2Z.inj_succ, Z.pow_succ_r by lia. lia.
Qed.

Lemma shl_align_value mx ex ex' :
  (ex' <= ex)%Z -> Zpos (fst (shl_align mx ex ex')) = (Zpos mx * 2 ^ (ex - ex'))%Z.
Proof.
  intros H. unfold shl_align.
  destruct (ex' - ex)%Z as [|d|d] eqn:Hd; cbn [fst]; try lia.
  - replace (ex - ex')%Z with 0%Z by lia. lia.
  - rewrite iter_xO_pow. f_equal. f_equal. lia.
Qed.

Lemma Zdigits2_upper m k :
  (0 < m)%Z -> (0 <= k)%Z -> (m < 2 ^ k)%Z -> (Zdigits2 m <= k)%Z.
Proof.
  intros Hm Hk H. destruct m as [|p|p]; try lia. simpl.
  pose proof (digits2_pos_bounds p) as [Hp _].
  assert (Hlt : (2 ^ (Zpos (digits2_pos p) - 1) < 2 ^ k)%Z) by lia.
  apply Z.pow_lt_mono_r_iff in Hlt; lia.
Qed.

(** [shr_fexp] divides the mantissa by the power of two that it adds to the
    exponent. *)
Lemma shr_fexp_spec m e l :
  (0 < m)%Z ->
  exists k, (0 <= k)%Z
    /\ snd (shr_fexp prec emax m e l) = (e + k)%Z
    /\ snd (shr_fexp prec emax m e l) = Z.max e (fexp prec emax (Zdigits2 m + e))
    /\ shr_m (fst (shr_fexp prec emax m e l)) = (m / 2 ^ k)%Z.
Proof.
  intros Hm. unfold shr_fexp, shr.
  assert (Hrec : shr_m (shr_record_of_loc m l) = m)
    by (destruct l as [|[| |]]; reflexivity).
  destruct (fexp prec emax (Zdigits2 m + e) - e)%Z as [|n|n] eqn:Hn; cbn [fst snd].
  - exists 0%Z. rewrite Hrec, Z.div_1_r. repeat split; lia.
  - exists (Zpos n).
    destruct (iter_shr_1_div n (shr_record_of_loc m l)) as [_ E]; [rewrite Hrec; lia|].
    rewrite E, Hrec. repeat split; try reflexivity; lia.
  - exists 0%Z. rewrite Hrec, Z.div_1_r. repeat split; lia.
Qed.

Lemma round_nearest_even_bounds m l :
  (m <= round_nearest_even m l <= m + 1)%Z.
Proof.
  unfold round_nearest_even.
  destruct l as [|[| |]]; try destruct (Z.even m); lia.
Qed.

Lemma SFleb_positive_intro m1 e1 m2 e2 :
  (e1 < e2)%Z \/ (e1 = e2 /\ (Zpos m1 <= Zpos m2)%Z) ->
  SFleb (S754_finite false m1 e1) (S754_finite false m2 e2) = true.
Proof.
  unfold SFleb, SFcompare. intros H.
  destruct (Z.compare_spec e1 e2) as [He|He|He]; [|reflexivity|lia].
  fold (Pos.compare m1 m2).
  destruct (Pos.compare_spec m1 m2) as [Hm|Hm|Hm]; try reflexivity. lia.
Qed.

(** Rounding a positive number below [1] gives at most [1]. *)
Lemma binary_round_aux_at_most_one m e l :
  (0 < m)%Z -> (m < 2 ^ (- e))%Z ->
  (SpecFloat.emin prec emax <= e)%Z -> (e <= -52)%Z ->
  SFleb (binary_round_aux prec emax false m e l) SFone64 = true.
Proof.
  intros Hm Hlt Hemin He. unfold binary_round_aux.
  destruct (shr_fexp_spec m e l Hm) as (k & Hk & He1 & Hmax & Hm1).
  destruct (shr_fexp_positive m e l Hm Hemin) as [Hpos1 Hemin1].
  pose proof (Zdigits2_upper m (- e) Hm ltac:(lia) Hlt) as Hd.
  destruct (shr_fexp prec emax m e l) as [mrs1 e1] eqn:E1. cbn [fst snd] in *.
  pose proof (round_nearest_even_bounds (shr_m mrs1) (loc_of_shr_record mrs1)) as Hround.
  set (m2 := round_nearest_even (shr_m mrs1) (loc_of_shr_record mrs1)) in *.
  assert (He1' : (e1 <= -52)%Z).
  { rewrite Hmax. unfold fexp, SpecFloat.emin, prec, emax. lia. }
  assert (Hpow : (2 ^ (- e) = 2 ^ k * 2 ^ (- e1))%Z).
  { rewrite <- Z.pow_add_r by lia. f_equal. lia. }
  assert (Hm1' : (shr_m mrs1 < 2 ^ (- e1))%Z).
  { rewrite Hm1. apply Z.div_lt_upper_bound; [apply Z.pow_pos_nonneg; lia|lia]. }
  assert (Hm2 : (0 < m2)%Z) by lia.
  assert (Hm2' : (m2 < 2 ^ (- e1 + 1))%Z).
  { rewrite Z.pow_add_r by lia. change (2 ^ 1)%Z with 2%Z. lia. }
  pose proof (Zdigits2_upper m2 (- e1 + 1) Hm2 ltac:(lia) Hm2') as Hd2.
  destruct (shr_fexp_spec m2 e1 loc_Exact Hm2) as (k3 & Hk3 & He3 & Hmax3 & Hm3).
  destruct (shr_fexp_positive m2 e1 loc_Exact Hm2 Hemin1) as [Hpos3 _].
  destruct (shr_fexp prec emax m2 e1 loc_Exact) as [mrs3 e3] eqn:E3. cbn [fst snd] in *.
  assert (He3' : (e3 <= -52)%Z).
  { rewrite Hmax3. unfold fexp, SpecFloat.emin, prec, emax. lia. }
  assert (Hpow3 : (2 ^ (- e1) = 2 ^ k3 * 2 ^ (- e3))%Z).
  { rewrite <- Z.pow_add_r by lia. f_equal. lia. }
  assert (Hm3' : (shr_m mrs3 <= 2 ^ (- e3))%Z).
  { rewrite Hm3. apply Z.div_le_upper_bound; [apply Z.pow_pos_nonneg; lia|lia]. }
  destruct (shr_m mrs3) as [|p|p]; try lia.
  assert (Hfinite : (e3 <=? emax - prec)%Z = true)
    by (apply Z.leb_le; unfold emax, prec; lia).
  rewrite Hfinite. apply SFleb_positive_intro.
  destruct (Z.eq_dec e3 (-52)) as [->|Hne]; [right|left; lia].
  split; [reflexivity|]. exact Hm3'.
Qed.

Lemma binary_round_at_most_one m e :
  (Zpos m < 2 ^ (- e))%Z ->
  (SpecFloat.emin prec emax <= e)%Z -> (e <= -52)%Z ->
  SFleb (binary_round prec emax false m e) SFone64 = true.
Proof.
  intros Hlt Hemin He. unfold binary_round, shl_align.
  destruct (fexp prec emax (Z.pos (digits2_pos m) + e) - e)%Z as [|d|d] eqn:Hd;
    try (apply binary_round_aux_at_most_one; lia).
  apply binary_round_aux_at_most_one; try lia.
  - rewrite iter_xO_pow.
    replace (- fexp prec emax (Z.pos (digits2_pos m) + e))%Z with (- e + Zpos d)%Z by lia.
    rewrite Z.pow_add_r by lia.
    apply Z.mul_lt_mono_pos_r; [apply Z.pow_pos_nonneg; lia|assumption].
  - unfold fexp. lia.
Qed.

Lemma strictlySigned_negative_le_one x :
  strictlySigned true x -> SFleb x SFone64 = true.
Proof. intros [->|(m & e & ->)]; reflexivity. Qed.

Lemma SF_one_minus_at_most_one E :
  valid_binary E = true -> SFleb (S754_zero false) E = true ->
  SFleb (SF64sub SFone64 E) SFone64 = true.
Proof.
  intros Hvalid Hge.
  destruct E as [s|s| |s m e]; try discriminate.
  - destruct s; reflexivity.
  - destruct s; [discriminate|reflexivity].
  - destruct s; [discriminate|].
    simpl in Hvalid. pose proof (valid_exponent m e Hvalid) as Hemin.
    unfold SpecFloat.emin, prec, emax in Hemin.
    unfold SF64sub, SFsub, SFone64, binary_normalize, cond_Zopp.
    pose proof (shl_align_value 4503599627370496 (-52) (Z.min (-52) e) ltac:(lia)) as H1.
    pose proof (shl_align_value m e (Z.min (-52) e) ltac:(lia)) as H2.
    assert (Hone : (Zpos 4503599627370496 * 2 ^ (-52 - Z.min (-52) e)
                    = 2 ^ (- Z.min (-52) e))%Z).
    { change (Zpos 4503599627370496) with (2 ^ 52)%Z.
      rewrite <- Z.pow_add_r by lia. f_equal. lia. }
    assert (Hpos : (0 < 2 ^ (e - Z.min (-52) e))%Z) by (apply Z.pow_pos_nonneg; lia).
    destruct (Z.pos (fst (shl_align 4503599627370496 (-52) (Z.min (-52) e)))
              - Z.pos (fst (shl_align m e (Z.min (-52) e))))%Z as [|p|p] eqn:Hdiff.
    + reflexivity.
    + apply binary_round_at_most_one;
        unfold SpecFloat.emin, prec, emax; lia.
    + apply strictlySigned_negative_le_one, binary_round_strictlySigned.
      unfold SpecFloat.emin, prec, emax. lia.
Qed.

Lemma one_minus_at_most_one e : (0 <=? e) = true -> (1 - e <=? 1) = true.
Proof.
  rewrite !FloatAxioms.leb_spec, FloatAxioms.sub_spec, Prim2SF_one, Prim2SF_zero.
  apply SF_one_minus_at_most_one, Prim2SF_valid.
Qed.

(** ** The score of improving and of worsening clients *)

Lemma rawScore_gain Math_exp Math_pow delta nData :
  (0 <? delta) = true ->
  rawScore Math_exp Math_pow delta nData = 1 - expOfGain Math_exp Math_pow delta nData.
Proof. intros H. unfold rawScore, expOfGain. cbv zeta. now rewrite H. Qed.

Lemma rawScore_loss Math_exp Math_pow delta nData :
  (0 <? delta) = false ->
  rawScore Math_exp Math_pow delta nData = 1 - expOfLoss Math_exp Math_pow delta nData.
Proof. intros H. unfold rawScore, expOfLoss. cbv zeta. now rewrite H. Qed.

Lemma computeModelQuality_gain Math_exp Math_pow L N :
  JS.isFinite L = true -> JS.isFinite N = true -> (N <=? 0) = false ->
  (0 <? L) = true -> (1 <? expOfGain Math_exp Math_pow L N) = true ->
  if JS.isFinite (1 - expOfGain Math_exp Math_pow L N)
  then (computeModelQuality Math_exp Math_pow L N <? 0) = true
  else computeModelQuality Math_exp Math_pow L N = 0.5.
Proof.
  intros HL HN Hpos Hgain Hexp.
  rewrite (computeModelQuality_formula Math_exp Math_pow L N HL HN Hpos).
  rewrite (rawScore_gain _ _ _ _ Hgain).
  destruct (JS.isFinite (1 - expOfGain Math_exp Math_pow L N)); [|reflexivity].
  now apply one_minus_negative.
Qed.

Lemma computeModelQuality_loss Math_exp Math_pow L N :
  JS.isFinite L = true -> JS.isFinite N = true -> (N <=? 0) = false ->
  (0 <? L) = false ->
  (0 <=? expOfLoss Math_exp Math_pow L N) = true ->
  (expOfLoss Math_exp Math_pow L N <? 1) = true ->
  (0 <? computeModelQuality Math_exp Math_pow L N) = true
  /\ (computeModelQuality Math_exp Math_pow L N <=? 1) = true.
Proof.
  intros HL HN Hpos Hloss Hexp0 Hexp1.
  rewrite (computeModelQuality_formula Math_exp Math_pow L N HL HN Hpos).
  rewrite (rawScore_loss _ _ _ _ Hloss).
  destruct (JS.isFinite (1 - expOfLoss Math_exp Math_pow L N)); [|split; reflexivity].
  split; [now apply one_minus_positive|now apply one_minus_at_most_one].
Qed.

(** C10, amended: for a finite loss difference [L] and a finite [N > 0],
    (1) when [L > 0] and [Math.exp] returned a value above [1], the quality
    is strictly negative if the score [1 - exp] is finite and is the default
    [0.5] otherwise; (2) when [L <= 0] and [Math.exp] returned a value in
    [[0, 1)], the quality is strictly positive and at most [1]; (3) hence an
    improving client of case (1) with a finite score is strictly below every
    worsening client of case (2). *)
Theorem computeModelQuality_sign (Math_exp : float -> float)
    (Math_pow : float -> float -> float) (L N : float) :
  JS.isFinite L = true -> JS.isFinite N = true -> (N <=? 0) = false ->
  let q := computeModelQuality Math_exp Math_pow L N in
  ((0 <? L) = true -> (1 <? expOfGain Math_exp Math_pow L N) = true ->
   if JS.isFinite (1 - expOfGain Math_exp Math_pow L N)
   then (q <? 0) = true else q = 0.5)
  /\ ((0 <? L) = false ->
      (0 <=? expOfLoss Math_exp Math_pow L N) = true ->
      (expOfLoss Math_exp Math_pow L N <? 1) = true ->
      (0 <? q) = true /\ (q <=? 1) = true)
  /\ (forall L' N' : float,
        JS.isFinite L' = true -> JS.isFinite N' = true -> (N' <=? 0) = false ->
        (0 <? L) = true -> (1 <? expOfGain Math_exp Math_pow L N) = true ->
        JS.isFinite (1 - expOfGain Math_exp Math_pow L N) = true ->
        (0 <? L') = false ->
        (0 <=? expOfLoss Math_exp Math_pow L' N') = true ->
        (expOfLoss Math_exp Math_pow L' N' <? 1) = true ->
        (q <? computeModelQuality Math_exp Math_pow L' N') = true).
Proof.
  intros HL HN Hpos q. unfold q. split; [|split].
  - intros Hgain Hexp. now apply computeModelQuality_gain.
  - intros Hloss Hexp0 Hexp1. now apply computeModelQuality_loss.
  - intros L' N' HL' HN' Hpos' Hgain Hexp Hfinite Hloss Hexp0 Hexp1.
    apply ltb_through_zero.
    + pose proof (computeModelQuality_gain Math_exp Math_pow L N HL HN Hpos Hgain Hexp) as H.
      now rewrite Hfinite in H.
    + now apply computeModelQuality_loss.
Qed.

(** A client whose loss fell by [1] and one whose loss rose by [1], each on
    [100] samples. *)
Lemma computeModelQuality_sign_witness :
  (computeModelQuality exampleExp examplePow 1 100 <? 0) = true
  /\ (0 <? computeModelQuality exampleExp examplePow (-1) 100) = true
  /\ (computeModelQuality exampleExp examplePow (-1) 100 <=? 1) = true
  /\ (computeModelQuality exampleExp examplePow 1 100
      <? computeModelQuality exampleExp examplePow (-1) 100) = true.
Proof.
  destruct (computeModelQuality_sign exampleExp examplePow 1 100) as (Hgain & _ & Hbelow);
    try (vm_compute; reflexivity).
  destruct (computeModelQuality_sign exampleExp examplePow (-1) 100) as (_ & Hloss & _);
    try (vm_compute; reflexivity).
  split; [|split; [|split]].
  - assert (Hfinite : JS.isFinite (1 - expOfGain exampleExp examplePow 1 100) = true)
      by (vm_compute; reflexivity).
    rewrite Hfinite in Hgain. apply Hgain; vm_compute; reflexivity.
  - apply Hloss; vm_compute; reflexivity.
  - apply Hloss; vm_compute; reflexivity.
  - apply Hbelow; vm_compute; reflexivity.
Defined.

(** C10 as stated fails.  On the example runtime: a loss that fell by
    [1e10] on [1e6] samples is scored [0.5], above the [0.095...] of a client
    whose loss rose by [1] on [100] samples; a loss that rose by [1e5] on
    [1e4] samples is scored [1]; a loss that fell by [2^-200] on one sample
    is scored [0].  On every runtime: where [Math.exp] overflows the quality
    of an improving client is [0.5], where it returns [1] that quality is
    [0], and where it returns [0] the quality of a worsening client is
    [1]. *)
Lemma quality_sign_fails :
  computeModelQuality exampleExp examplePow 1e10 1e6 = 0.5
  /\ (computeModelQuality exampleExp examplePow (-1) 100
      <? computeModelQuality exampleExp examplePow 1e10 1e6) = true
  /\ computeModelQuality exampleExp examplePow (-1e5) 1e4 = 1
  /\ computeModelQuality exampleExp examplePow 0x1p-200 1 = 0
  /\ (forall (Math_exp : float -> float) (Math_pow : float -> float -> float),
        Math_pow infinity PHI = infinity -> Math_exp infinity = infinity ->
        computeModelQuality Math_exp Math_pow 1e200 1e200 = 0.5)
  /\ (forall (Math_exp : float -> float) (Math_pow : float -> float -> float),
        Math_pow 0x1p-200 PHI = 0x1p-100 -> Math_exp (THETA * 0x1p-100) = 1 ->
        computeModelQuality Math_exp Math_pow 0x1p-200 1 = 0)
  /\ (forall (Math_exp : float -> float) (Math_pow : float -> float -> float),
        Math_pow infinity PHI = infinity -> Math_exp neg_infinity = 0 ->
        computeModelQuality Math_exp Math_pow (-1e200) 1e200 = 1).
Proof.
  repeat split; try (vm_compute; reflexivity).
  - intros Math_exp Math_pow Hpow Hexp.
    rewrite computeModelQuality_formula by (vm_compute; reflexivity).
    rewrite rawScore_gain by (vm_compute; reflexivity).
    unfold expOfGain.
    replace (JS.Math_abs 1e200 * 1e200) with infinity by (vm_compute; reflexivity).
    rewrite Hpow.
    replace (THETA * infinity) with infinity by (vm_compute; reflexivity).
    rewrite Hexp. vm_compute. reflexivity.
  - intros Math_exp Math_pow Hpow Hexp.
    rewrite computeModelQuality_formula by (vm_compute; reflexivity).
    rewrite rawScore_gain by (vm_compute; reflexivity).
    unfold expOfGain.
    replace (JS.Math_abs 0x1p-200 * 1) with 0x1p-200 by (vm_compute; reflexivity).
    rewrite Hpow, Hexp. vm_compute. reflexivity.
  - intros Math_exp Math_pow Hpow Hexp.
    rewrite computeModelQuality_formula by (vm_compute; reflexivity).
    rewrite rawScore_loss by (vm_compute; reflexivity).
    unfold expOfLoss.
    replace (JS.Math_abs (-1e200) * 1e200) with infinity by (vm_compute; reflexivity).
    rewrite Hpow.
    replace (- THETA * infinity) with neg_infinity by (vm_compute; reflexivity).
    rewrite Hexp. vm_compute. reflexivity.
Qed.

(** * Aggregation of a round *)

Lemma collectTimes_returns tms roundNumber :
  (1 <= roundNumber)%Z -> exists times, collectTimes tms roundNumber = Returns times.
Proof.
  intros Hpos. induction tms as [|timings tms [times IH]]; simpl.
  - now exists [].
  - destruct (roundNumber <=? Z.of_nat (length timings))%Z eqn:Hlen.
    + apply Z.leb_le in Hlen.
      destruct (roundNumber <=? 0)%Z eqn:H0; [apply Z.leb_le in H0; lia|].
      destruct (nth_error timings (Z.to_nat (roundNumber - 1))) as [t|] eqn:Hnth.
      * rewrite IH. simpl. eauto.
      * apply nth_error_None in Hnth. lia.
    + eauto.
Qed.

(** Storing the round's mean time changes the timing statistics only. *)
Lemma calculateAndStoreRoundMeanTime_returns s roundNumber :
  (1 <= roundNumber)%Z ->
  exists means overall,
    calculateAndStoreRoundMeanTime s roundNumber = Returns (setMeanTimes s means overall).
Proof.
  intros Hpos. unfold calculateAndStoreRoundMeanTime.
  destruct (collectTimes_returns (objValues (clientTimingMetrics s)) roundNumber Hpos)
    as [times ->]. simpl.
  destruct times as [|t times].
  - exists (roundMeanTimes s), (overallMeanTime s). now destruct s.
  - eauto.
Qed.

Lemma performAggregation_throws s r e :
  currentRound s = Some r -> isAggregating s = false ->
  (1 <= currentRoundNumber s)%Z ->
  federatedAveragingAll (includedWeights s r) = Throws e ->
  globalModel (performAggregation s) = globalModel s
  /\ currentRound (performAggregation s) = Some r
  /\ rounds (performAggregation s) = rounds s
  /\ isAggregating (performAggregation s) = false.
Proof.
  intros Hr Hagg Hpos Hthrow. unfold performAggregation. rewrite Hr, Hagg.
  destruct (calculateAndStoreRoundMeanTime_returns (setIsAggregating s true)
              (currentRoundNumber (setIsAggregating s true)) Hpos)
    as (means & overall & ->).
  unfold includedWeights in Hthrow. simpl. rewrite Hthrow. simpl. auto.
Qed.

Lemma performAggregation_returns s r m :
  currentRound s = Some r -> isAggregating s = false ->
  (1 <= currentRoundNumber s)%Z ->
  federatedAveragingAll (includedWeights s r) = Returns m ->
  globalModel (performAggregation s) = Some m
  /\ currentRound (performAggregation s) = None
  /\ isAggregating (performAggregation s) = false
  /\ clients (performAggregation s)
     = map (fun '(id, c) => (id, Client.withStatus c Client.idle)) (clients s).
Proof.
  intros Hr Hagg Hpos Hret. unfold performAggregation. rewrite Hr, Hagg.
  destruct (calculateAndStoreRoundMeanTime_returns (setIsAggregating s true)
              (currentRoundNumber (setIsAggregating s true)) Hpos)
    as (means & overall & ->).
  unfold includedWeights in Hret. simpl. rewrite Hret. simpl.
  destruct (currentRoundNumber s <? TOTAL_ROUNDS s)%Z; simpl; auto.
Qed.

(** C3, on the code: when the selection is empty, [performAggregation]
    hands the aggregator an empty mapping and installs its result, the empty
    model [{}], as the global model, whatever the clients submitted.  The
    fallback to all submitters lives in [federatedAveraging], which
    [performAggregation] does not call. *)
Theorem performAggregation_empty_selection s r :
  currentRound s = Some r -> isAggregating s = false ->
  (1 <= currentRoundNumber s)%Z ->
  getSelectedClients (modelQualityCalculator s) = [] ->
  globalModel (performAggregation s) = Some [].
Proof.
  intros Hr Hagg Hpos Hsel.
  apply (performAggregation_returns s r); try assumption.
  unfold includedWeights. now rewrite Hsel.
Qed.


(** An asynchronous round in which one of two clients has submitted: its
    quality equals the mean, nobody is selected, and the deadline's
    aggregation replaces the global model by [{}] although averaging the
    submissions would give the submitted update. *)
Lemma performAggregation_empty_selection_witness :
  federatedAveragingAll (Round.clients (Round.modelWeights (roundOf waitingForB)))
  = Returns unitUpdate
  /\ globalModel (performAggregation waitingForB) = Some [].
Proof.
  split; [vm_compute; reflexivity|].
  apply (performAggregation_empty_selection waitingForB (roundOf waitingForB));
    vm_compute; solve [reflexivity | discriminate].
Defined.

(** The same on two identical submissions in a synchronous round: both
    clients get the same quality, nobody is above the mean, and the round
    ends with the global model [{}] instead of the submitted all-zero
    update. *)
Lemma identical_submissions_empty_model :
  globalModel (run exampleExp examplePow (initialServer (config 2 1)) identicalSubmissions)
  = Some []
  /\ map (fun r => Round.clients (Round.modelWeights r))
       (rounds (run exampleExp examplePow (initialServer (config 2 1))
                  identicalSubmissions))
     = [[("A"%string, zeroUpdate); ("B"%string, zeroUpdate)]].
Proof. split; vm_compute; reflexivity. Qed.

(** C5, as the code has it: [federatedAveragingAll] compares no shapes.  With
    the first included update as the layout of the accumulator, it throws (a
    TypeError) exactly when some included update has a non-empty tensor at a
    layer name or tensor index that the first one lacks, and
    [performAggregation] then leaves the global model as it was; with any
    other difference between the updates (data lengths, shape arrays, missing
    layers or tensors) it returns a result, which becomes the global model. *)
Theorem performAggregation_mismatch s r :
  currentRound s = Some r -> isAggregating s = false ->
  (1 <= currentRoundNumber s)%Z ->
  NoDup (objKeys (firstUpdate (includedWeights s r))) ->
  if forallb (modelFits (firstUpdate (includedWeights s r)))
             (objValues (includedWeights s r))
  then exists m, federatedAveragingAll (includedWeights s r) = Returns m
                 /\ globalModel (performAggregation s) = Some m
  else federatedAveragingAll (includedWeights s r) = Throws TypeError
       /\ globalModel (performAggregation s) = globalModel s.
Proof.
  intros Hr Hagg Hpos Hnd.
  destruct (forallb _ _) eqn:Hfit.
  - destruct (federatedAveragingAll_fits _ Hnd Hfit) as (m & Hm).
    exists m. split; [assumption|].
    now apply (performAggregation_returns s r).
  - pose proof (federatedAveragingAll_misfit _ Hnd Hfit) as Hthrow.
    split; [assumption|].
    now apply (performAggregation_throws s r TypeError).
Qed.

(** Three of four clients have submitted, [A] and [B] are selected, and [B]'s
    second layer is missing from [A]'s update: the aggregation throws and the
    global model stays unset. *)
Lemma performAggregation_mismatch_witness :
  objKeys (includedWeights waitingForD (roundOf waitingForD)) = ["A"; "B"]%string
  /\ federatedAveragingAll (includedWeights waitingForD (roundOf waitingForD))
     = Throws TypeError
  /\ globalModel (performAggregation waitingForD) = globalModel waitingForD.
Proof.
  split; [vm_compute; reflexivity|].
  assert (Hr : currentRound waitingForD = Some (roundOf waitingForD))
    by (vm_compute; reflexivity).
  assert (Hagg : isAggregating waitingForD = false) by (vm_compute; reflexivity).
  assert (Hpos : (1 <= currentRoundNumber waitingForD)%Z) by (vm_compute; discriminate).
  assert (Hnd : NoDup (objKeys (firstUpdate
                  (includedWeights waitingForD (roundOf waitingForD))))).
  { vm_compute. repeat constructor. intros []. }
  pose proof (performAggregation_mismatch waitingForD (roundOf waitingForD)
                Hr Hagg Hpos Hnd) as H.
  assert (Hfit : forallb (modelFits (firstUpdate
                    (includedWeights waitingForD (roundOf waitingForD))))
                   (objValues (includedWeights waitingForD (roundOf waitingForD)))
                 = false) by (vm_compute; reflexivity).
  rewrite Hfit in H. exact H.
Defined.

(** * Reachable states *)

Lemma objKeys_setStatus (cs : obj Client.ClientInfo) st :
  objKeys (map (fun '(id, c) => (id, Client.withStatus c st)) cs) = objKeys cs.
Proof. apply (objKeys_map_values (fun c => Client.withStatus c st)). Qed.

(** [wellFormed] only reads the client identifiers and the rounds. *)
Lemma wellFormed_same s s' :
  objKeys (clients s') = objKeys (clients s) ->
  currentRound s' = currentRound s -> rounds s' = rounds s ->
  wellFormed s -> wellFormed s'.
Proof.
  unfold wellFormed, allRounds. intros -> -> ->. auto.
Qed.

Lemma calculateAndStoreRoundMeanTime_frame s roundNumber s' :
  calculateAndStoreRoundMeanTime s roundNumber = Returns s' ->
  exists means overall, s' = setMeanTimes s means overall.
Proof.
  unfold calculateAndStoreRoundMeanTime.
  destruct (collectTimes _ _) as [times|]; simpl; [|discriminate].
  destruct times; intros [= <-]; [|eauto].
  exists (roundMeanTimes s), (overallMeanTime s). now destruct s.
Qed.

Lemma wellFormed_closeRound s r agg :
  currentRound s = Some r -> wellFormed s -> wellFormed (closeRound s r agg).
Proof.
  unfold wellFormed, allRounds. intros Hr [Hnd Hall]. rewrite Hr in Hall.
  simpl. split; [assumption|].
  intros r' Hin. rewrite app_nil_r in Hin. apply in_app_or in Hin.
  destruct Hin as [Hin|[<-|[]]].
  - apply Hall, in_or_app. now left.
  - apply (Hall r). apply in_or_app. right. now left.
Qed.

Lemma wellFormed_performAggregation s :
  wellFormed s -> wellFormed (performAggregation s).
Proof.
  intros Hwf. unfold performAggregation.
  destruct (currentRound s) as [r|] eqn:Hr; [|assumption].
  destruct (isAggregating s); [assumption|].
  destruct (calculateAndStoreRoundMeanTime _ _) as [s2|] eqn:Hcalc.
  - apply calculateAndStoreRoundMeanTime_frame in Hcalc.
    destruct Hcalc as (means & overall & ->).
    destruct (federatedAveragingAll _) as [agg|].
    + assert (Hwf' : wellFormed
                (setIsAggregating
                   (setAllStatus
                      (closeRound (setMeanTimes (setIsAggregating s true) means overall)
                                  r agg) Client.idle) false)).
      { eapply wellFormed_same; [| | |apply (wellFormed_closeRound s r agg Hr Hwf)];
          simpl; try reflexivity. apply objKeys_setStatus. }
      destruct (_ <? _)%Z; [|exact Hwf'].
      eapply wellFormed_same; [| | |exact Hwf']; reflexivity.
    + eapply wellFormed_same; [| | |exact Hwf]; reflexivity.
  - eapply wellFormed_same; [| | |exact Hwf]; reflexivity.
Qed.

Lemma wellFormed_startNewRound s now :
  wellFormed s -> wellFormed (startNewRound s now).
Proof.
  intros Hwf. unfold startNewRound.
  destruct (currentRound s) as [r|] eqn:Hr; simpl; [assumption|].
  destruct (_ || _ || _); [assumption|].
  destruct Hwf as [Hnd Hall]. unfold allRounds in Hall. rewrite Hr in Hall.
  assert (Hgoal : forall s',
             objKeys (clients s') = objKeys (clients s) ->
             rounds s' = rounds s ->
             (exists r, currentRound s' = Some r /\ Round.submitted r = []) ->
             wellFormed s').
  { intros s' Hk Hrs (r & Hcur & Hsub). unfold wellFormed, allRounds.
    rewrite Hk, Hrs, Hcur. split; [assumption|].
    intros r' Hin. apply in_app_or in Hin. destruct Hin as [Hin|[<-|[]]].
    - apply Hall. now rewrite app_nil_r.
    - rewrite Hsub. split; [constructor|intros x []]. }
  destruct (shouldUseSynchronousMode _); apply Hgoal; simpl;
    try reflexivity; try apply objKeys_setStatus; eauto.
Qed.

Section Reachability.

Variable Math_exp : float -> float.
Variable Math_pow : float -> float -> float.


Lemma wellFormed_register s newId now :
  wellFormed s -> wellFormed (snd (register s newId now)).
Proof.
  intros Hwf. unfold register.
  destruct (_ <=? _)%Z; simpl; [assumption|].
  assert (Hwf1 : wellFormed
            (setClients s
               (objSet (clients s) newId
                  {| Client.clientId := newId; Client.status := Client.idle;
                     Client.lastUpdate := now |}))).
  { destruct Hwf as [Hnd Hall]. split; simpl.
    - now apply NoDup_objKeys_objSet.
    - intros r Hin. destruct (Hall r Hin) as [H1 H2]. split; [assumption|].
      intros x Hx. apply H2 in Hx. rewrite objKeys_objSet.
      destruct (objHas _ _); [assumption|]. apply in_or_app. now left. }
  destruct (_ =? _)%Z; [|assumption].
  now apply wellFormed_startNewRound.
Qed.

Lemma wellFormed_roundStatus s id now :
  wellFormed s -> wellFormed (snd (roundStatus s id now)).
Proof.
  intros Hwf. unfold roundStatus.
  destruct (objGet (clients s) id); [|assumption].
  destruct (currentRound s); simpl; [assumption|].
  destruct (_ && _ && _); [|assumption].
  now apply wellFormed_startNewRound.
Qed.

Lemma objHas_true_In {V} (o : obj V) k : objHas o k = true <-> In k (objKeys o).
Proof.
  unfold objHas. destruct (objGet o k) eqn:E.
  - split; [|reflexivity]. intros _. apply objGet_In in E.
    apply (in_map fst) in E. exact E.
  - apply objGet_None in E. split; [discriminate|contradiction].
Qed.

Lemma wellFormed_receiveWeights s client r id weights nData ev now s' :
  objGet (clients s) id = Some client -> currentRound s = Some r ->
  receiveWeights Math_exp Math_pow s client r id weights nData ev now = Returns s' ->
  wellFormed s -> wellFormed s'.
Proof.
  intros Hc Hr Hrecv [Hnd Hall]. unfold receiveWeights in Hrecv.
  destruct (evaluateModel _ _ _ _ _ _) as [[q|e] calc]; [|discriminate].
  injection Hrecv as <-.
  assert (Hkeys : objKeys (objSet (clients s) id
                     {| Client.clientId := Client.clientId client;
                        Client.status := Client.aggregating;
                        Client.lastUpdate := now |}) = objKeys (clients s)).
  { rewrite objKeys_objSet. unfold objHas. now rewrite Hc. }
  unfold wellFormed, allRounds in *. simpl. rewrite Hkeys, Hr in *.
  split; [assumption|].
  intros r' Hin. apply in_app_or in Hin. destruct Hin as [Hin|[<-|[]]].
  - apply Hall, in_or_app. now left.
  - destruct (Hall r) as [H1 H2]; [apply in_or_app; right; now left|].
    unfold Round.submitted in *. simpl. split.
    + now apply NoDup_objKeys_objSet.
    + rewrite objKeys_objSet. destruct (objHas _ _); [assumption|].
      intros x Hx. apply in_app_or in Hx. destruct Hx as [Hx|[<-|[]]]; [now apply H2|].
      apply objHas_true_In. unfold objHas. now rewrite Hc.
Qed.

Lemma wellFormed_submitWeights s id weights nData tTime cst ev pnow now :
  wellFormed s ->
  wellFormed (snd (submitWeights Math_exp Math_pow s id weights nData tTime cst ev pnow now)).
Proof.
  intros Hwf. unfold submitWeights.
  destruct (objGet (clients s) id) as [client|] eqn:Hc; [|assumption].
  destruct (currentRound s) as [r|] eqn:Hr; [|assumption].
  destruct (objHas _ _); [assumption|].
  assert (Hwf1 : wellFormed (recordTiming s id tTime cst pnow now)).
  { eapply wellFormed_same; [| | |exact Hwf]; reflexivity. }
  destruct (receiveWeights _ _ _ _ _ _ _ _ _ _) as [s2|e] eqn:Hrecv; simpl; [|assumption].
  apply wellFormed_receiveWeights in Hrecv; try assumption.
  destruct (shouldStartAggregation s2 now); simpl; [|assumption].
  now apply wellFormed_performAggregation.
Qed.

Lemma wellFormed_deleteClient s id :
  hasSubmitted s id = false -> wellFormed s -> wellFormed (snd (deleteClient s id)).
Proof.
  intros Hsub [Hnd Hall]. unfold deleteClient.
  destruct (objHas (clients s) id); simpl; [|now split].
  split; simpl.
  - clear Hall Hsub. induction (clients s) as [|[k v] o IH]; simpl; [constructor|].
    simpl in Hnd. inversion Hnd as [|? ? Hk Hnd']; subst.
    destruct (String.eqb id k); [assumption|]. simpl. constructor; [|auto].
    intros Hin. apply Hk. now apply (objKeys_objDelete_incl o id).
  - intros r Hin. destruct (Hall r Hin) as [H1 H2]. split; [assumption|].
    intros x Hx. assert (Hne : x <> id).
    { intros ->. unfold hasSubmitted in Hsub.
      assert (existsb (fun r => objHas (Round.clients (Round.modelWeights r)) id)
                (allRounds s) = true) as Hex; [|congruence].
      apply existsb_exists. exists r. split; [assumption|].
      now apply objHas_true_In. }
    apply H2 in Hx. clear - Hx Hne.
    induction (clients s) as [|[k v] o IH]; simpl in *; [contradiction|].
    destruct (String.eqb_spec id k) as [->|Hk].
    + destruct Hx as [Hx|Hx]; [congruence|assumption].
    + simpl. destruct Hx as [Hx|Hx]; [now left|right; auto].
Qed.

Lemma wellFormed_postConfig s newConfig :
  wellFormed s -> wellFormed (snd (postConfig s newConfig)).
Proof.
  intros Hwf. unfold postConfig.
  repeat (destruct (below _ _); [assumption|]). simpl.
  eapply wellFormed_same; [| | |exact Hwf]; reflexivity.
Qed.

Lemma wellFormed_timeout s n now :
  wellFormed s -> wellFormed (snd (timeout s n now)).
Proof.
  intros Hwf. unfold timeout.
  destruct (nth_error (timers s) n) as [t|]; simpl; [|assumption].
  assert (Hwf1 : wellFormed (setTimers s (removeNth (timers s) n))).
  { eapply wellFormed_same; [| | |exact Hwf]; reflexivity. }
  unfold runCallback. destruct (callback t).
  - simpl. destruct (currentRound s); [|assumption].
    destruct (isAggregating s); [assumption|].
    now apply wellFormed_performAggregation.
  - now apply wellFormed_startNewRound.
Qed.

Lemma wellFormed_handle s req :
  keepsSubmitters s req = true -> wellFormed s -> wellFormed (snd (handle Math_exp Math_pow s req)).
Proof.
  intros Hkeep Hwf. destruct req; simpl.
  - now apply wellFormed_register.
  - now apply wellFormed_roundStatus.
  - now apply wellFormed_submitWeights.
  - simpl in Hkeep. apply negb_true_iff in Hkeep. now apply wellFormed_deleteClient.
  - now apply wellFormed_postConfig.
  - now apply wellFormed_timeout.
Qed.

Lemma wellFormed_initial config : wellFormed (initialServer config).
Proof. split; simpl; [constructor|intros r []]. Qed.

Lemma wellFormed_run s reqs :
  allKeepSubmitters Math_exp Math_pow s reqs = true -> wellFormed s ->
  wellFormed (run Math_exp Math_pow s reqs).
Proof.
  revert s. induction reqs as [|req reqs IH]; intros s Hkeep Hwf; simpl in *.
  - assumption.
  - apply andb_true_iff in Hkeep. destruct Hkeep as [H1 H2].
    apply IH; [assumption|]. now apply wellFormed_handle.
Qed.

(** C9, as the code has it: in every state reached by requests none of
    which removes a client that has an entry in some round's submissions, and
    for every round (archived or in progress), no client identifier appears
    twice among the round's submissions and their number is at most the
    number of registered clients.  ([DELETE /clients/:id] removes the client
    from the registry only, never its submissions.) *)
Theorem submissions_within_registry config reqs :
  allKeepSubmitters Math_exp Math_pow (initialServer config) reqs = true ->
  forall r, In r (allRounds (run Math_exp Math_pow (initialServer config) reqs)) ->
    NoDup (Round.submitted r)
    /\ (length (Round.submitted r) <= length (clients (run Math_exp Math_pow (initialServer config) reqs)))%nat.
Proof.
  intros Hkeep r Hin.
  destruct (wellFormed_run (initialServer config) reqs Hkeep (wellFormed_initial config))
    as [Hnd Hall].
  destruct (Hall r Hin) as [H1 H2]. split; [assumption|].
  apply NoDup_incl_length in H2; [|assumption].
  unfold objKeys in H2. now rewrite length_map in H2.
Qed.

End Reachability.

(** Removing a client that has not submitted keeps the bound. *)
Lemma submissions_within_registry_witness :
  allKeepSubmitters exampleExp examplePow (initialServer (config 3 1)) bystanderRemoved
  = true
  /\ forall r,
       In r (allRounds (run exampleExp examplePow (initialServer (config 3 1))
                          bystanderRemoved)) ->
       NoDup (Round.submitted r)
       /\ (length (Round.submitted r)
           <= length (clients (run exampleExp examplePow (initialServer (config 3 1))
                                 bystanderRemoved)))%nat.
Proof.
  split; [vm_compute; reflexivity|].
  apply (submissions_within_registry exampleExp examplePow (config 3 1) bystanderRemoved).
  vm_compute; reflexivity.
Defined.

(** Whatever the runtime: after [A] has submitted and both clients have been
    removed, the round holds one submission and the registry is empty. *)
Lemma registry_emptied (Math_exp : float -> float) (Math_pow : float -> float -> float) :
  option_map Round.submitted
    (currentRound (run Math_exp Math_pow (initialServer (config 2 1)) registryEmptied))
  = Some ["A"%string]
  /\ clients (run Math_exp Math_pow (initialServer (config 2 1)) registryEmptied) = [].
Proof. split; vm_compute; reflexivity. Qed.

(** C9 as stated fails: one submission, no registered client. *)
Lemma more_submissions_than_clients :
  option_map (fun r => length (Round.submitted r))
    (currentRound (run exampleExp examplePow (initialServer (config 2 1)) registryEmptied))
  = Some 1%nat
  /\ length (clients (run exampleExp examplePow (initialServer (config 2 1))
                        registryEmptied)) = 0%nat.
Proof.
  destruct (registry_emptied exampleExp examplePow) as [H1 H2].
  rewrite H2. split; [|reflexivity].
  destruct (currentRound _) as [r|]; [|discriminate].
  simpl in *. injection H1 as ->. reflexivity.
Qed.

(** * The deadline of an asynchronous round *)

(** [Math.max(10000, Math.min(60000, v))] is [v] clamped, for a number [v]. *)
Lemma clamp_max_min v :
  JS.isNaN v = false ->
  JS.Math_max 10000 (JS.Math_min 60000 v) = clamp 10000 60000 v.
Proof.
  intros Hnan. unfold JS.Math_min, clamp.
  change (JS.isNaN 60000) with false. rewrite Hnan. simpl orb. cbv iota.
  destruct (60000 <? v) eqn:Hhi; [reflexivity|].
  assert (Hmin : (if v <? 60000 then v
                  else if PrimFloat.get_sign 60000 then 60000 else v) = v).
  { now destruct (v <? 60000). }
  rewrite Hmin. unfold JS.Math_max.
  change (JS.isNaN 10000) with false. rewrite Hnan. simpl orb. cbv iota.
  destruct (10000 <? v); [reflexivity|].
  now destruct (v <? 10000).
Qed.

Lemma truthy_not_NaN v : JS.truthy v = true -> JS.isNaN v = false.
Proof.
  unfold JS.truthy. intros H. apply negb_true_iff in H.
  now apply orb_false_iff in H.
Qed.

Lemma deadlineMs_clamp s :
  deadlineMs s =
  clamp 10000 60000
    (if JS.truthy (overallMeanTime s) then overallMeanTime s else 30000).
Proof.
  unfold deadlineMs, JS.orElse. apply clamp_max_min.
  destruct (JS.truthy (overallMeanTime s)) eqn:Ht; [|reflexivity].
  now apply truthy_not_NaN.
Qed.

Lemma noMeanYet_same s s' :
  roundMeanTimes s' = roundMeanTimes s -> overallMeanTime s' = overallMeanTime s ->
  noMeanYet s -> noMeanYet s'.
Proof. unfold noMeanYet. now intros -> ->. Qed.

Lemma roundMeanSet_nonempty o k v : roundMeanSet o k v <> [].
Proof.
  destruct o as [|[k' v'] o]; simpl; [discriminate|].
  destruct (k =? k')%Z; [discriminate|]. destruct (k <? k')%Z; discriminate.
Qed.

Lemma noMeanYet_calculate s roundNumber s' :
  calculateAndStoreRoundMeanTime s roundNumber = Returns s' ->
  noMeanYet s -> noMeanYet s'.
Proof.
  unfold calculateAndStoreRoundMeanTime.
  destruct (collectTimes _ _) as [times|]; simpl; [|discriminate].
  destruct times as [|t times]; intros [= <-] H; [assumption|].
  intros Hnil. simpl in Hnil. now apply roundMeanSet_nonempty in Hnil.
Qed.

Lemma noMeanYet_startNewRound s now : noMeanYet s -> noMeanYet (startNewRound s now).
Proof.
  intros H. unfold startNewRound.
  destruct (_ || _ || _ || _); [assumption|].
  destruct (shouldUseSynchronousMode _); (eapply noMeanYet_same; [| |exact H]); reflexivity.
Qed.

Lemma noMeanYet_performAggregation s : noMeanYet s -> noMeanYet (performAggregation s).
Proof.
  intros H. unfold performAggregation.
  destruct (currentRound s) as [r|]; [|assumption].
  destruct (isAggregating s); [assumption|].
  destruct (calculateAndStoreRoundMeanTime _ _) as [s2|] eqn:Hcalc.
  - apply noMeanYet_calculate in Hcalc;
      [|eapply noMeanYet_same; [| |exact H]; reflexivity].
    destruct (federatedAveragingAll _) as [agg|].
    + destruct (_ <? _)%Z; (eapply noMeanYet_same; [| |exact Hcalc]); reflexivity.
    + eapply noMeanYet_same; [| |exact Hcalc]; reflexivity.
  - eapply noMeanYet_same; [| |exact H]; reflexivity.
Qed.

Section Deadline.

Variable Math_exp : float -> float.
Variable Math_pow : float -> float -> float.

Lemma noMeanYet_handle s req :
  noMeanYet s -> noMeanYet (snd (handle Math_exp Math_pow s req)).
Proof.
  intros H. destruct req; simpl.
  - unfold register. destruct (_ <=? _)%Z; simpl; [assumption|].
    destruct (_ =? _)%Z; [apply noMeanYet_startNewRound|];
      (eapply noMeanYet_same; [| |exact H]); reflexivity.
  - unfold roundStatus. destruct (objGet _ _); [|assumption].
    destruct (currentRound s); simpl; [assumption|].
    destruct (_ && _ && _); [|assumption]. now apply noMeanYet_startNewRound.
  - unfold submitWeights. destruct (objGet _ _); [|assumption].
    destruct (currentRound s); [|assumption].
    destruct (objHas _ _); [assumption|].
    unfold receiveWeights.
    destruct (evaluateModel _ _ _ _ _ _) as [[q|e] calc]; simpl; [|assumption].
    destruct (shouldStartAggregation _ _); simpl;
      [apply noMeanYet_performAggregation|];
      (eapply noMeanYet_same; [| |exact H]); reflexivity.
  - unfold deleteClient. now destruct (objHas _ _).
  - unfold postConfig. repeat (destruct (below _ _); [assumption|]). assumption.
  - unfold timeout. destruct (nth_error _ _) as [t|]; simpl; [|assumption].
    unfold runCallback. destruct (callback t).
    + simpl. destruct (currentRound s); [|assumption].
      destruct (isAggregating s); [assumption|].
      apply noMeanYet_performAggregation.
      eapply noMeanYet_same; [| |exact H]; reflexivity.
    + apply noMeanYet_startNewRound.
      eapply noMeanYet_same; [| |exact H]; reflexivity.
Qed.

Lemma noMeanYet_run s reqs :
  noMeanYet s -> noMeanYet (run Math_exp Math_pow s reqs).
Proof.
  revert s. induction reqs as [|req reqs IH]; intros s H; simpl; [assumption|].
  apply IH. now apply noMeanYet_handle.
Qed.

(** C8, as the code has it: when a round starts in asynchronous mode at time
    [now], the armed deadline is [now] plus [base] clamped to the interval
    from 10 000 ms to 60 000 ms, where [base] is [overallMeanTime], or
    30 000 ms when [overallMeanTime] is [0] or NaN, as it is in particular
    while no mean has been computed; the timer set at that round start has
    the same delay. *)
Theorem asynchronous_round_deadline config reqs now :
  let s := run Math_exp Math_pow (initialServer config) reqs in
  currentRound s = None ->
  (REQUIRED_CLIENTS s <= Z.of_nat (length (clients s)))%Z ->
  (currentRoundNumber s < TOTAL_ROUNDS s)%Z ->
  isAggregating s = false ->
  (synchronousRounds (serverConfig s) < currentRoundNumber s + 1)%Z ->
  let base := if JS.truthy (overallMeanTime s) then overallMeanTime s else 30000 in
  let s' := startNewRound s now in
  currentRoundNumber s' = (currentRoundNumber s + 1)%Z
  /\ roundStartTime s' = Some now
  /\ roundDeadline s' = Some (now + clamp 10000 60000 base)
  /\ timers s' =
     timers s ++ [ {| callback := DeadlineReached; delay := clamp 10000 60000 base |} ]
  /\ (roundMeanTimes s = [] -> roundDeadline s' = Some (now + 30000)).
Proof.
  intros s Hcur Hreq Htot Hagg Hasync base s'.
  assert (Hno : noMeanYet s) by (apply noMeanYet_run; intros _; reflexivity).
  subst s'. unfold startNewRound. rewrite Hcur, Hagg.
  replace (Z.of_nat (length (clients s)) <? REQUIRED_CLIENTS s)%Z with false
    by (symmetry; apply Z.ltb_ge; lia).
  replace (TOTAL_ROUNDS s <=? currentRoundNumber s)%Z with false
    by (symmetry; apply Z.leb_gt; lia).
  simpl orb. cbv iota.
  unfold shouldUseSynchronousMode. simpl currentRoundNumber. simpl serverConfig.
  replace (currentRoundNumber s + 1 <=? synchronousRounds (serverConfig s))%Z with false
    by (symmetry; apply Z.leb_gt; lia).
  rewrite deadlineMs_clamp. simpl.
  repeat split.
  intros Hnil. unfold base. rewrite (Hno Hnil). reflexivity.
Qed.

End Deadline.

(** After a first round with a mean time of 60 ms the second round gets the
    shortest deadline, 10 s after its start at time 3000. *)
Lemma asynchronous_round_deadline_witness :
  roundStartTime
    (startNewRound (run exampleExp examplePow (initialServer (config 1 0)) firstRoundDone)
       3000) = Some 3000
  /\ roundDeadline
       (startNewRound (run exampleExp examplePow (initialServer (config 1 0)) firstRoundDone)
          3000) = Some 13000.
Proof.
  destruct (asynchronous_round_deadline exampleExp examplePow (config 1 0)
              firstRoundDone 3000) as (_ & Hstart & Hdeadline & _).
  - vm_compute; reflexivity.
  - vm_compute; discriminate.
  - vm_compute; reflexivity.
  - vm_compute; reflexivity.
  - vm_compute; reflexivity.
  - split; [exact Hstart|].
    etransitivity; [exact Hdeadline|]. vm_compute; reflexivity.
Defined.

(** C8 as stated fails: a first round whose only submission took no time
    stores the mean [0]; a mean has then been computed, its value clamped is
    10 000 ms, and the next round still gets the default 30 000 ms. *)
Lemma instant_round_deadline :
  roundMeanTimes afterInstantRound = [(1%Z, 0)]
  /\ overallMeanTime afterInstantRound = 0
  /\ 3000 + clamp 10000 60000 (overallMeanTime afterInstantRound) = 13000
  /\ roundDeadline (startNewRound afterInstantRound 3000) = Some 33000.
Proof. repeat split; vm_compute; reflexivity. Qed.

(** * Synchronous rounds *)

(** C7, at a failing input: three clients are required and round 1 is
    synchronous.  [A] submits and is then removed by [DELETE /clients/A].
    When [B] submits, the round holds two submissions and the registry two
    clients, so [haveAllClientsSubmitted] holds and the handler aggregates:
    round 1 is completed with the submissions of [A] and [B], while the
    registered client [C] never submitted. *)
Theorem synchronous_round_aggregates_early (Math_exp : float -> float)
    (Math_pow : float -> float -> float) :
  let s := run Math_exp Math_pow (initialServer (config 3 1)) submitterRemoved in
  let done := handle Math_exp Math_pow s (submit "B" unitUpdate 2) in
  shouldUseSynchronousMode s = true
  /\ objKeys (clients s) = ["B"; "C"]%string
  /\ option_map Round.submitted (currentRound s) = Some ["A"%string]
  /\ option_map (fun s2 => shouldStartAggregation s2 2000)
       (afterStoring Math_exp Math_pow s "B" unitUpdate 100 50 10 (EvalLoss 2) 20 2000)
     = Some true
  /\ fst done = Reply 200 "aggregated"
  /\ currentRound (snd done) = None
  /\ map Round.submitted (rounds (snd done)) = [["A"; "B"]%string]
  /\ objKeys (clients (snd done)) = ["B"; "C"]%string.
Proof.
  cbv zeta. repeat split; try (vm_compute; reflexivity);
    vm_compute;
    match goal with |- context [if ?b then _ else _] => destruct b end;
    reflexivity.
Qed.

(** * Synchronous rounds without removals *)

Lemma deadlinesOnlyAsync_same s s' :
  incl (timers s') (timers s) ->
  synchronousRounds (serverConfig s') = synchronousRounds (serverConfig s) ->
  currentRoundNumber s' = currentRoundNumber s ->
  deadlinesOnlyAsync s -> deadlinesOnlyAsync s'.
Proof.
  unfold deadlinesOnlyAsync. intros Hincl -> -> H (t & Hin & Hcb).
  apply H. exists t. split; [now apply Hincl|assumption].
Qed.

Lemma deadlinesOnlyAsync_setTimeout_next s :
  deadlinesOnlyAsync s -> deadlinesOnlyAsync (setTimeout s StartNextRound 1000).
Proof.
  unfold deadlinesOnlyAsync. simpl. intros H (t & Hin & Hcb).
  apply in_app_or in Hin. destruct Hin as [Hin|[<-|[]]]; [|discriminate].
  apply H. now exists t.
Qed.

Lemma deadlinesOnlyAsync_performAggregation s :
  deadlinesOnlyAsync s -> deadlinesOnlyAsync (performAggregation s).
Proof.
  intros H. unfold performAggregation.
  destruct (currentRound s) as [r|]; [|assumption].
  destruct (isAggregating s); [assumption|].
  destruct (calculateAndStoreRoundMeanTime _ _) as [s2|] eqn:Hcalc.
  - apply calculateAndStoreRoundMeanTime_frame in Hcalc.
    destruct Hcalc as (means & overall & ->).
    destruct (federatedAveragingAll _) as [agg|].
    + destruct (_ <? _)%Z; [apply deadlinesOnlyAsync_setTimeout_next|];
        (eapply deadlinesOnlyAsync_same; [| | |exact H]);
        try reflexivity; apply incl_refl.
    + eapply deadlinesOnlyAsync_same; [| | |exact H]; try reflexivity; apply incl_refl.
  - eapply deadlinesOnlyAsync_same; [| | |exact H]; try reflexivity; apply incl_refl.
Qed.

Lemma deadlinesOnlyAsync_startNewRound s now :
  deadlinesOnlyAsync s -> deadlinesOnlyAsync (startNewRound s now).
Proof.
  intros H. unfold startNewRound.
  destruct (_ || _ || _ || _); [assumption|].
  unfold shouldUseSynchronousMode. simpl.
  destruct (_ <=? _)%Z eqn:Hmode; unfold deadlinesOnlyAsync in *; simpl.
  - intros Hex. apply H in Hex. lia.
  - intros _. apply Z.leb_gt in Hmode. exact Hmode.
Qed.

Lemma removeNth_incl {A} (l : list A) n : incl (removeNth l n) l.
Proof.
  revert n. induction l as [|x l IH]; intros [|n]; simpl;
    try apply incl_refl; [apply incl_tl, incl_refl|].
  intros y [<-|Hy]; [now left|right; now apply (IH n)].
Qed.

Section Barrier.

Variable Math_exp : float -> float.
Variable Math_pow : float -> float -> float.

Lemma deadlinesOnlyAsync_handle s req :
  keepsMode req = true ->
  deadlinesOnlyAsync s -> deadlinesOnlyAsync (snd (handle Math_exp Math_pow s req)).
Proof.
  intros Hmode H. destruct req; simpl.
  - unfold register. destruct (_ <=? _)%Z; simpl; [assumption|].
    destruct (_ =? _)%Z; [apply deadlinesOnlyAsync_startNewRound|];
      (eapply deadlinesOnlyAsync_same; [| | |exact H]); try reflexivity; apply incl_refl.
  - unfold roundStatus. destruct (objGet _ _); [|assumption].
    destruct (currentRound s); simpl; [assumption|].
    destruct (_ && _ && _); [|assumption]. now apply deadlinesOnlyAsync_startNewRound.
  - unfold submitWeights. destruct (objGet _ _); [|assumption].
    destruct (currentRound s); [|assumption].
    destruct (objHas _ _); [assumption|].
    unfold receiveWeights.
    destruct (evaluateModel _ _ _ _ _ _) as [[q|e] calc]; simpl; [|assumption].
    destruct (shouldStartAggregation _ _); simpl;
      [apply deadlinesOnlyAsync_performAggregation|];
      (eapply deadlinesOnlyAsync_same; [| | |exact H]); try reflexivity; apply incl_refl.
  - unfold deleteClient. now destruct (objHas _ _).
  - unfold postConfig. repeat (destruct (below _ _); [assumption|]). simpl.
    simpl in Hmode. destruct (newSynchronousRounds newConfig); [discriminate|].
    eapply deadlinesOnlyAsync_same; [| | |exact H]; try reflexivity; apply incl_refl.
  - unfold timeout. destruct (nth_error _ _) as [t|]; simpl; [|assumption].
    assert (H1 : deadlinesOnlyAsync (setTimers s (removeNth (timers s) n))).
    { eapply deadlinesOnlyAsync_same; [| | |exact H]; try reflexivity.
      apply removeNth_incl. }
    unfold runCallback. destruct (callback t).
    + simpl. destruct (currentRound s); [|assumption].
      destruct (isAggregating s); [assumption|].
      now apply deadlinesOnlyAsync_performAggregation.
    + now apply deadlinesOnlyAsync_startNewRound.
Qed.

Lemma deadlinesOnlyAsync_run s reqs :
  forallb keepsMode reqs = true ->
  deadlinesOnlyAsync s -> deadlinesOnlyAsync (run Math_exp Math_pow s reqs).
Proof.
  revert s. induction reqs as [|req reqs IH]; intros s Hmode H; simpl in *; [assumption|].
  apply andb_true_iff in Hmode. destruct Hmode as [H1 H2].
  apply IH; [assumption|]. now apply deadlinesOnlyAsync_handle.
Qed.

Lemma afterStoring_wellFormed s id weights nData tTime cst ev pnow now s2 :
  afterStoring Math_exp Math_pow s id weights nData tTime cst ev pnow now = Some s2 ->
  wellFormed s ->
  wellFormed s2
  /\ shouldUseSynchronousMode s2 = shouldUseSynchronousMode s
  /\ exists r2, currentRound s2 = Some r2.
Proof.
  unfold afterStoring. intros Hafter Hwf.
  destruct (objGet (clients s) id) as [client|] eqn:Hc; [|discriminate].
  destruct (currentRound s) as [r|] eqn:Hr; [|discriminate].
  destruct (objHas _ _); [discriminate|].
  destruct (receiveWeights _ _ _ _ _ _ _ _ _ _) as [s'|e] eqn:Hrecv; [|discriminate].
  injection Hafter as ->.
  split.
  - eapply wellFormed_receiveWeights; [| |exact Hrecv|]; eassumption.
  - unfold receiveWeights in Hrecv.
    destruct (evaluateModel _ _ _ _ _ _) as [[q|e] calc]; [|discriminate].
    injection Hrecv as <-. split; [reflexivity|]. simpl. eauto.
Qed.

(** X2, the part of C7 that holds: as long as no client with a stored
    submission is removed and [synchronousRounds] is not reconfigured, a
    synchronous round has no deadline callback pending, and a submission
    triggers aggregation only when every registered client has an entry in
    the round's submissions. *)
Theorem synchronous_round_waits config reqs :
  allKeepSubmitters Math_exp Math_pow (initialServer config) reqs = true ->
  forallb keepsMode reqs = true ->
  shouldUseSynchronousMode (run Math_exp Math_pow (initialServer config) reqs) = true ->
  (forall t, In t (timers (run Math_exp Math_pow (initialServer config) reqs)) ->
             callback t = StartNextRound)
  /\ forall id weights nData tTime cst ev pnow now s2,
       afterStoring Math_exp Math_pow (run Math_exp Math_pow (initialServer config) reqs)
         id weights nData tTime cst ev pnow now = Some s2 ->
       shouldStartAggregation s2 now = true ->
       exists r2, currentRound s2 = Some r2
                  /\ incl (objKeys (clients s2)) (Round.submitted r2).
Proof.
  intros Hkeep Hmode Hsync.
  set (s := run Math_exp Math_pow (initialServer config) reqs) in *.
  assert (Hwf : wellFormed s)
    by (apply wellFormed_run; [assumption|apply wellFormed_initial]).
  assert (HK : deadlinesOnlyAsync s).
  { apply deadlinesOnlyAsync_run; [assumption|]. intros (t & [] & _). }
  split.
  - intros t Hin. destruct (callback t) eqn:Hcb; [|reflexivity].
    exfalso. unfold shouldUseSynchronousMode in Hsync. apply Z.leb_le in Hsync.
    assert (synchronousRounds (serverConfig s) < currentRoundNumber s)%Z; [|lia].
    apply HK. now exists t.
  - intros id weights nData tTime cst ev pnow now s2 Hafter Hstart.
    destruct (afterStoring_wellFormed _ _ _ _ _ _ _ _ _ _ Hafter Hwf)
      as ((Hnd & Hall) & Hsame & r2 & Hr2).
    exists r2. split; [assumption|].
    unfold shouldStartAggregation in Hstart. rewrite Hsame, Hsync in Hstart.
    unfold haveAllClientsSubmitted in Hstart. rewrite Hr2 in Hstart.
    apply Nat.eqb_eq in Hstart.
    destruct (Hall r2) as [Hnd2 Hincl].
    { unfold allRounds. rewrite Hr2. apply in_or_app. right. now left. }
    apply NoDup_length_incl; try assumption.
    rewrite Hstart. unfold objKeys. now rewrite length_map.
Qed.

End Barrier.

(** Two clients, a synchronous first round, one submission so far. *)
Lemma synchronous_round_waits_witness :
  (forall t,
     In t (timers (run exampleExp examplePow (initialServer (config 2 1))
                     oneOfTwoSubmitted)) ->
     callback t = StartNextRound)
  /\ forall id weights nData tTime cst ev pnow now s2,
       afterStoring exampleExp examplePow
         (run exampleExp examplePow (initialServer (config 2 1)) oneOfTwoSubmitted)
         id weights nData tTime cst ev pnow now = Some s2 ->
       shouldStartAggregation s2 now = true ->
       exists r2, currentRound s2 = Some r2
                  /\ incl (objKeys (clients s2)) (Round.submitted r2).
Proof.
  apply (synchronous_round_waits exampleExp examplePow (config 2 1) oneOfTwoSubmitted);
    vm_compute; reflexivity.
Defined.
(** * More on the quality calculator *)

(** ** The order of binary64 *)

Lemma SFcompare_lt_le_trans x y z :
  SFltb x y = true -> SFleb y z = true -> SFltb x z = true.
Proof.
  unfold SFltb, SFleb, SFcompare.
  destruct x as [sx|sx| |sx mx ex], y as [sy|sy| |sy my ey], z as [sz|sz| |sz mz ez];
    try discriminate;
    try destruct sx; try destruct sy; try destruct sz; try discriminate; try reflexivity.
  all: repeat match goal with
       | |- context [Z.compare ?a ?b] => destruct (Z.compare_spec a b)
       | |- context [Pos.compare_cont Eq ?a ?b] =>
           fold (Pos.compare a b); destruct (Pos.compare_spec a b)
       end; simpl; try discriminate; try reflexivity; try lia.
Qed.

Lemma ltb_leb_trans x y z : (x <? y) = true -> (y <=? z) = true -> (x <? z) = true.
Proof.
  rewrite !FloatAxioms.ltb_spec, FloatAxioms.leb_spec. apply SFcompare_lt_le_trans.
Qed.

Lemma div_eucl_exact a b : (0 < b)%Z -> Z.div_eucl (a * b) b = (a, 0%Z).
Proof.
  intros Hb. assert (Hne : b <> 0%Z) by lia.
  pose proof (Z.div_mul a b Hne) as Hq. pose proof (Z.mod_mul a b Hne) as Hr.
  unfold Z.div, Z.modulo in Hq, Hr.
  destruct (Z.div_eucl (a * b) b) as [q r]. now subst.
Qed.

(** Dividing a binary64 number by [1] returns it. *)
Lemma SFdiv_one s m e :
  bounded prec emax m e = true ->
  SF64div (S754_finite s m e) SFone64 = S754_finite s m e.
Proof.
  intros Hvalid.
  pose proof (valid_digits m e Hvalid) as [Hdigits Hnormal].
  pose proof (valid_exponent m e Hvalid) as Hemin.
  assert (Hemax : (e <=? emax - prec)%Z = true).
  { unfold bounded in Hvalid. now apply andb_true_iff in Hvalid. }
  assert (Hcanonical : fexp prec emax (Zpos (digits2_pos m) + e) = e).
  { unfold bounded, canonical_mantissa in Hvalid. apply andb_true_iff in Hvalid.
    now apply Z.eqb_eq. }
  unfold SpecFloat.emin, prec, emax in Hemin.
  unfold SF64div, SFdiv, SFone64, SFdiv_core_binary.
  change (Zdigits2 (Zpos 4503599627370496)) with 53%Z.
  change (Zdigits2 (Zpos m)) with (Zpos (digits2_pos m)).
  destruct (Z.eq_dec e (-1074)) as [He|He].
  - (* the smallest exponent: the quotient is the mantissa itself *)
    assert (He' : Z.min (fexp prec emax (Zpos (digits2_pos m) + e - (53 + -52))) (e - -52)
                  = e) by (unfold fexp, SpecFloat.emin, prec, emax; lia).
    rewrite He'. replace (e - -52 - e)%Z with 52%Z by lia.
    rewrite Z.shiftl_mul_pow2 by lia.
    change (2 ^ 52)%Z with (Zpos 4503599627370496).
    rewrite div_eucl_exact by lia.
    change (new_location (Zpos 4503599627370496) 0) with loc_Exact.
    unfold binary_round_aux, shr_fexp.
    change (Zdigits2 (Zpos m)) with (Zpos (digits2_pos m)).
    rewrite Hcanonical, Z.sub_diag. cbn [shr shr_record_of_loc shr_m loc_of_shr_record
                                        round_nearest_even].
    change (Zdigits2 (Zpos m)) with (Zpos (digits2_pos m)).
    rewrite Hcanonical, Z.sub_diag. cbn [shr shr_record_of_loc shr_m].
    rewrite Hemax. now destruct s.
  - (* a normal number: the quotient has one more digit and is shifted back *)
    assert (Hd : Zpos (digits2_pos m) = 53%Z) by (apply Hnormal; lia).
    assert (He' : Z.min (fexp prec emax (Zpos (digits2_pos m) + e - (53 + -52))) (e - -52)
                  = (e - 1)%Z) by (unfold fexp, SpecFloat.emin, prec, emax; lia).
    rewrite He'. replace (e - -52 - (e - 1))%Z with 53%Z by lia.
    rewrite Z.shiftl_mul_pow2 by lia.
    replace (Zpos m * 2 ^ 53)%Z with (Zpos m~0 * Zpos 4503599627370496)%Z
      by (change (2 ^ 53)%Z with 9007199254740992%Z; lia).
    rewrite div_eucl_exact by lia.
    change (new_location (Zpos 4503599627370496) 0) with loc_Exact.
    unfold binary_round_aux, shr_fexp.
    change (Zdigits2 (Zpos m~0)) with (Zpos (Pos.succ (digits2_pos m))).
    rewrite Pos2Z.inj_succ.
    replace (fexp prec emax (Z.succ (Zpos (digits2_pos m)) + (e - 1)) - (e - 1))%Z
      with 1%Z by (unfold fexp, SpecFloat.emin, prec, emax; lia).
    cbn [shr shr_record_of_loc iter_pos shr_1 shr_m loc_of_shr_record orb
         round_nearest_even].
    change (Zdigits2 (Zpos m)) with (Zpos (digits2_pos m)).
    replace (e - 1 + 1)%Z with e by lia.
    rewrite Hcanonical, Z.sub_diag. cbn [shr shr_record_of_loc shr_m].
    rewrite Hemax. now destruct s.
Qed.

Lemma SFltb_irrefl x : SFltb x x = false.
Proof.
  unfold SFltb, SFcompare. destruct x as [s|s| |s m e]; try destruct s; try reflexivity;
    rewrite Z.compare_refl; fold (Pos.compare m m); now rewrite Pos.compare_refl.
Qed.

(** The mean of a single number is not below it. *)
Lemma single_mean_not_below q : ((0 + q) / 1 <? q) = false.
Proof.
  rewrite FloatAxioms.ltb_spec, FloatAxioms.div_spec, FloatAxioms.add_spec.
  rewrite Prim2SF_one, Prim2SF_zero.
  pose proof (Prim2SF_valid q) as Hvalid.
  destruct (Prim2SF q) as [s|s| |s m e].
  - destruct s; reflexivity.
  - destruct s; reflexivity.
  - reflexivity.
  - cbn [SF64add SFadd]. rewrite (SFdiv_one s m e Hvalid). apply SFltb_irrefl.
Qed.

(** ** Selection *)

(** X5: the selection is closed upwards.  When a scored client is above the
    computed mean, it and every scored client whose quality is at least as
    high are selected. *)
Theorem getSelectedClients_upward (c : ModelQualityCalculator)
    (a b : ModelQualityMetrics) :
  In a (objValues (clientMetrics c)) -> In b (objValues (clientMetrics c)) ->
  aboveMean c a = true -> (quality a <=? quality b) = true ->
  In (clientId a) (getSelectedClients c) /\ In (clientId b) (getSelectedClients c).
Proof.
  intros Ha Hb Habove Hle. rewrite getSelectedClients_filter.
  split; apply in_map, filter_In; split; try assumption.
  unfold aboveMean in Habove. now apply (ltb_leb_trans _ (quality a)).
Qed.

Lemma getSelectedClients_upward_witness :
  In "A"%string (getSelectedClients
                   {| model := true;
                      clientMetrics := [scored "A" 0.5; scored "B" 0.75; scored "C" 0.125];
                      previousRoundMetrics := [] |})
  /\ In "B"%string (getSelectedClients
                      {| model := true;
                         clientMetrics := [scored "A" 0.5; scored "B" 0.75; scored "C" 0.125];
                         previousRoundMetrics := [] |}).
Proof.
  apply (getSelectedClients_upward
           {| model := true;
              clientMetrics := [scored "A" 0.5; scored "B" 0.75; scored "C" 0.125];
              previousRoundMetrics := [] |}
           (snd (scored "A" 0.5)) (snd (scored "B" 0.75)));
    try (vm_compute; reflexivity); simpl; auto.
Defined.

(** X6: a single scored client is never selected, since the computed mean of
    one quality is that quality.  Aggregating a round whose only score is
    that client's closes the round with the empty model as global model. *)
Theorem single_scored_client_not_selected (s : Server) (id : string)
    (m : ModelQualityMetrics) :
  clientMetrics (modelQualityCalculator s) = [(id, m)] ->
  getSelectedClients (modelQualityCalculator s) = []
  /\ (forall r, currentRound s = Some r -> isAggregating s = false ->
                (1 <= currentRoundNumber s)%Z ->
                currentRound (performAggregation s) = None
                /\ globalModel (performAggregation s) = Some []).
Proof.
  intros Hm.
  assert (Hsel : getSelectedClients (modelQualityCalculator s) = []).
  { rewrite getSelectedClients_filter, Hm. unfold meanQuality. simpl.
    change (JS.ofNat 1) with 1. now rewrite single_mean_not_below. }
  split; [assumption|].
  intros r Hr Hagg Hnum.
  destruct (performAggregation_returns s r [] Hr Hagg Hnum) as (Hg & Hc & _).
  - unfold includedWeights. now rewrite Hsel.
  - now split.
Qed.

Lemma single_scored_client_not_selected_witness :
  getSelectedClients (modelQualityCalculator waitingForB) = []
  /\ currentRound (performAggregation waitingForB) = None
  /\ globalModel (performAggregation waitingForB) = Some [].
Proof.
  destruct (single_scored_client_not_selected waitingForB "A"
              {| clientId := "A"; loss := 2; previousLoss := None;
                 lossDifference := None; numData := 100;
                 quality := computeModelQuality exampleExp examplePow 2 100 |})
    as [Hsel Hround].
  - vm_compute. reflexivity.
  - split; [exact Hsel|].
    apply (Hround (roundOf waitingForB)); vm_compute; congruence.
Defined.

(** ** The quality score is a finite number *)

Section QualityRange.

Variable Math_exp : float -> float.
Variable Math_pow : float -> float -> float.

Lemma computeModelQuality_isFinite loss nData :
  JS.isFinite (computeModelQuality Math_exp Math_pow loss nData) = true.
Proof.
  unfold computeModelQuality.
  destruct (JS.isNaN loss || negb (JS.isFinite loss)); [reflexivity|].
  destruct (JS.isNaN nData || negb (JS.isFinite nData) || (nData <=? 0)); [reflexivity|].
  cbv zeta.
  match goal with
  | |- context [if ?b then 0.5 else ?x] =>
      destruct (JS.isFinite x) eqn:Hfin;
      [destruct (JS.isNaN x); [reflexivity|simpl; exact Hfin]
      |rewrite orb_true_r; reflexivity]
  end.
Qed.

(** X3: whatever the runtime's [Math.exp] and [Math.pow] return,
    [computeModelQuality] returns a finite number, and it returns the default
    [0.5] for a loss that is NaN or infinite and for a [numData] that is NaN,
    infinite, zero or negative. *)
Theorem computeModelQuality_range (loss nData : float) :
  JS.isFinite (computeModelQuality Math_exp Math_pow loss nData) = true
  /\ (JS.isFinite loss = false \/ JS.isFinite nData = false \/ (nData <=? 0) = true ->
      computeModelQuality Math_exp Math_pow loss nData = 0.5).
Proof.
  split; [apply computeModelQuality_isFinite|].
  unfold computeModelQuality. intros [H|[H|H]].
  - rewrite H. now rewrite orb_true_r.
  - destruct (JS.isNaN loss || negb (JS.isFinite loss)); [reflexivity|].
    rewrite H. simpl. now rewrite orb_true_r.
  - destruct (JS.isNaN loss || negb (JS.isFinite loss)); [reflexivity|].
    rewrite H. now rewrite orb_true_r.
Qed.

(** X4: [evaluateModel] without a model throws "Model not initialized" and
    changes nothing; with a model it always returns a finite quality and
    touches no other client's records.  When the evaluation throws or yields
    NaN the quality is [0.5] and nothing is recorded; otherwise the client's
    metrics are stored under its identifier and its previous loss becomes
    the current loss. *)
Theorem evaluateModel_outcome (c : ModelQualityCalculator) (id : string)
    (ev : Evaluation) (nData : float) :
  let result := fst (evaluateModel Math_exp Math_pow c id ev nData) in
  let c' := snd (evaluateModel Math_exp Math_pow c id ev nData) in
  if model c then
    exists q, result = Returns q /\ JS.isFinite q = true
      /\ model c' = true
      /\ (forall id', id' <> id ->
            objGet (clientMetrics c') id' = objGet (clientMetrics c) id'
            /\ objGet (previousRoundMetrics c') id' = objGet (previousRoundMetrics c) id')
      /\ match ev with
         | EvalThrows => q = 0.5 /\ c' = c
         | EvalLoss currentLoss =>
             if JS.isNaN currentLoss then q = 0.5 /\ c' = c
             else objGet (previousRoundMetrics c') id = Some currentLoss
                  /\ option_map clientId (objGet (clientMetrics c') id) = Some id
                  /\ option_map loss (objGet (clientMetrics c') id) = Some currentLoss
                  /\ option_map quality (objGet (clientMetrics c') id) = Some q
         end
  else result = Throws (Error "Model not initialized") /\ c' = c.
Proof.
  intros result c'. unfold result, c', evaluateModel.
  destruct (model c) eqn:Hmodel; simpl; [|now split].
  destruct ev as [|currentLoss].
  - exists 0.5. simpl. repeat split; auto.
  - destruct (JS.isNaN currentLoss) eqn:Hnan.
    + exists 0.5. simpl. repeat split; auto.
    + eexists. simpl. split; [reflexivity|].
      split; [apply computeModelQuality_isFinite|].
      split; [first [reflexivity|assumption]|]. split.
      * intros id' Hne. now rewrite !objGet_objSet_other.
      * rewrite !objGet_objSet_same. repeat split.
Qed.

End QualityRange.
(** * More on federated averaging *)

Lemma lengths_accumulate n (ws us : list LayerWeights) :
  map (fun w => length (data w)) ws = map (fun w => length (data w)) us ->
  map (fun w => length (data w)) (zipWith (accumulateTensor n) ws us)
  = map (fun w => length (data w)) ws.
Proof.
  revert us. induction ws as [|w ws IH]; intros [|u us] H; simpl in *;
    try discriminate; [reflexivity|].
  injection H as Hw Hrest. f_equal; [|now apply IH].
  clear -Hw. revert Hw. generalize (data w) (data u).
  induction l as [|x l IH]; intros [|y l'] H; simpl in *; try discriminate; auto.
Qed.

Lemma objKeys_skeleton (m : Model) : map fst (skeleton m) = objKeys m.
Proof.
  unfold skeleton, objKeys. rewrite map_map. apply map_ext. now intros [k ws].
Qed.

Lemma In_skeleton (m : Model) name lens :
  In (name, lens) (skeleton m) <->
  exists ws, In (name, ws) m /\ map (fun w => length (data w)) ws = lens.
Proof.
  unfold skeleton. rewrite in_map_iff. split.
  - intros ([k ws] & [= <- <-] & Hin). now exists ws.
  - intros (ws & Hin & <-). now exists (name, ws).
Qed.

Lemma tensorsOf_In (m : Model) name ws :
  NoDup (objKeys m) -> In (name, ws) m -> tensorsOf m name = ws.
Proof. intros Hnd Hin. unfold tensorsOf. now rewrite (objGet_In_NoDup _ _ _ Hnd Hin). Qed.

(** The updates lie where the first update does: the accumulation is the
    entry-by-entry sum, layer by layer. *)
Lemma addClients_pointwise (first : Model) n (us : list Model) :
  NoDup (objKeys first) ->
  Forall (fun u => Permutation (skeleton u) (skeleton first)) us ->
  forall agg (start : string -> list LayerWeights),
    (forall name ws0, In (name, ws0) first ->
       readLayer agg name = Some (start name)
       /\ map (fun w => length (data w)) (start name)
          = map (fun w => length (data w)) ws0) ->
    exists agg',
      addClients agg us n = Returns agg'
      /\ objKeys (ownLayers agg') = objKeys (ownLayers agg)
      /\ forall name ws0, In (name, ws0) first ->
           readLayer agg' name = Some (accumulateLayer n us name (start name)).
Proof.
  intros Hnd Hall. induction Hall as [|u us Hu Hall IH]; intros agg start Hinv.
  - exists agg. repeat split. intros name ws0 Hin. now destruct (Hinv name ws0 Hin).
  - assert (Hndu : NoDup (objKeys u)).
    { rewrite <- objKeys_skeleton.
      apply (Permutation_NoDup (l := map fst (skeleton first))).
      - apply Permutation_map. now apply Permutation_sym.
      - now rewrite objKeys_skeleton. }
    cbn [addClients].
    destruct (addClient_zip agg u n Hndu) as (agg1 & -> & Hkeys & Hdone & _).
    { intros name vs Hin.
      assert (Hs : In (name, map (fun w => length (data w)) vs) (skeleton first)).
      { apply (Permutation_in _ Hu). apply In_skeleton. now exists vs. }
      apply In_skeleton in Hs. destruct Hs as (ws0 & Hin0 & Hlen).
      destruct (Hinv name ws0 Hin0) as [Hread Hstart].
      exists (start name). split; [assumption|congruence]. }
    cbn [JS.bind].
    destruct (IH agg1 (fun name => zipWith (accumulateTensor n) (start name)
                                     (tensorsOf u name)))
      as (agg' & Hrun & Hkeys' & Hread').
    { intros name ws0 Hin0.
      assert (Hs : In (name, map (fun w => length (data w)) ws0) (skeleton u)).
      { apply (Permutation_in _ (Permutation_sym Hu)). apply In_skeleton. now exists ws0. }
      apply In_skeleton in Hs. destruct Hs as (vs & Hin & Hlen).
      destruct (Hinv name ws0 Hin0) as [Hread Hstart].
      destruct (Hdone name vs Hin) as (ws & H1 & H2).
      rewrite Hread in H1. injection H1 as <-.
      rewrite (tensorsOf_In u name vs Hndu Hin). split; [assumption|].
      rewrite lengths_accumulate; congruence. }
    exists agg'. split; [assumption|]. split; [congruence|].
    intros name ws0 Hin0. exact (Hread' name ws0 Hin0).
Qed.

Lemma lengths_zeroLike (ws : list LayerWeights) :
  map (fun w => length (data w)) (map zeroLike ws) = map (fun w => length (data w)) ws.
Proof.
  rewrite map_map. apply map_ext. intros w. simpl. apply repeat_length.
Qed.

(** X7: when every client's update has the layer names of the first one, in
    any order, with data arrays of the same lengths, [federatedAveragingAll]
    returns the layers of the first update, but a layer named [__proto__],
    in which every entry is [0 + x1/k + ... + xk/k], the entries [xi] of the
    [k] clients at that place added in the order of the mapping. *)
Theorem federatedAveragingAll_pointwise (cw : ClientWeights) :
  NoDup (objKeys (firstUpdate cw)) ->
  Forall (fun u => Permutation (skeleton u) (skeleton (firstUpdate cw))) (objValues cw) ->
  federatedAveragingAll cw = Returns (pointwiseAverage cw).
Proof.
  intros Hnd Hall. destruct cw as [|[id first] cw]; [reflexivity|].
  unfold federatedAveragingAll. cbn [objKeys map fst objGet]. rewrite String.eqb_refl.
  cbn [firstUpdate] in *.
  destruct (addClients_pointwise first (JS.ofNat (length (id :: map fst cw)))
              (objValues ((id, first) :: cw)) Hnd Hall
              (initAggregated (Some first))
              (fun name => map zeroLike (tensorsOf first name)))
    as (agg & -> & Hkeys & Hread).
  { intros name ws0 Hin. rewrite (tensorsOf_In first name ws0 Hnd Hin).
    split; [|apply lengths_zeroLike].
    unfold initAggregated. rewrite initAggregated_read by assumption.
    now rewrite (objGet_In_NoDup _ _ _ Hnd Hin). }
  cbn [JS.bind]. f_equal. unfold returned, pointwiseAverage. cbn [firstUpdate].
  apply (ownLayers_by_reads agg (withoutProto first)
           (fun name ws =>
              accumulateLayer (JS.ofNat (length ((id, first) :: cw)))
                              (objValues ((id, first) :: cw)) name (map zeroLike ws))).
  - now apply NoDup_withoutProto.
  - rewrite Hkeys, initAggregated_some_own by assumption.
    unfold mapModel. apply objKeys_map_values.
  - intros name ws Hin. apply In_withoutProto in Hin. destruct Hin as [Hin _].
    rewrite (Hread name ws Hin). rewrite (tensorsOf_In first name ws Hnd Hin).
    cbn [length]. now rewrite length_map.
Qed.

Lemma layout_objSet (agg : Model) name ws ws' :
  objGet agg name = Some ws -> map shape ws' = map shape ws ->
  layout (objSet agg name ws') = layout agg.
Proof.
  induction agg as [|[k v] agg IH]; simpl; [discriminate|].
  destruct (String.eqb name k) eqn:Hk.
  - intros [= ->] Hs. simpl. now rewrite Hs.
  - intros Hget Hs. simpl. f_equal. now apply IH.
Qed.

Lemma map_shape_arraySet (ws : list LayerWeights) i w w' :
  nth_error ws i = Some w -> shape w' = shape w ->
  map shape (arraySet ws i w') = map shape ws.
Proof.
  revert i. induction ws as [|x ws IH]; intros [|i] H Hs; simpl in *; try discriminate.
  - injection H as ->. now rewrite Hs.
  - f_equal. now apply IH.
Qed.

Lemma layout_assignLayer agg name ws ws' :
  readLayer agg name = Some ws -> map shape ws' = map shape ws ->
  layout (ownLayers (assignLayer agg name ws')) = layout (ownLayers agg).
Proof.
  accumulator_cases agg name Hget Hp; intros H Hs.
  - injection H as ->. eapply layout_objSet; eassumption.
  - reflexivity.
  - discriminate.
Qed.

Lemma addAt_layout agg name i j v agg' :
  addAt agg name i j v = Returns agg' ->
  layout (ownLayers agg') = layout (ownLayers agg).
Proof.
  unfold addAt. destruct (readLayer agg name) as [ws|] eqn:Hget; [|discriminate].
  destruct (nth_error ws i) as [w|] eqn:Hnth; [|discriminate].
  intros [= <-]. eapply layout_assignLayer; [eassumption|].
  eapply map_shape_arraySet; [eassumption|reflexivity].
Qed.

Lemma addData_layout agg name i j ds n agg' :
  addData agg name i j ds n = Returns agg' ->
  layout (ownLayers agg') = layout (ownLayers agg).
Proof.
  revert agg j. induction ds as [|d ds IH]; intros agg j; simpl.
  - now intros [= <-].
  - destruct (addAt agg name i j (d / n)) as [agg1|] eqn:H1; simpl; [|discriminate].
    intros H. rewrite (IH _ _ H). eapply addAt_layout; eassumption.
Qed.

Lemma addLayer_layout agg name i ws n agg' :
  addLayer agg name i ws n = Returns agg' ->
  layout (ownLayers agg') = layout (ownLayers agg).
Proof.
  revert agg i. induction ws as [|w ws IH]; intros agg i; simpl.
  - now intros [= <-].
  - destruct (addData agg name i 0 (data w) n) as [agg1|] eqn:H1; simpl; [|discriminate].
    intros H. rewrite (IH _ _ H). eapply addData_layout; eassumption.
Qed.

Lemma addClient_layout agg m n agg' :
  addClient agg m n = Returns agg' ->
  layout (ownLayers agg') = layout (ownLayers agg).
Proof.
  revert agg. induction m as [|[name ws] m IH]; intros agg; simpl.
  - now intros [= <-].
  - destruct (addLayer agg name 0 ws n) as [agg1|] eqn:H1; simpl; [|discriminate].
    intros H. rewrite (IH _ H). eapply addLayer_layout; eassumption.
Qed.

Lemma addClients_layout agg ms n agg' :
  addClients agg ms n = Returns agg' ->
  layout (ownLayers agg') = layout (ownLayers agg).
Proof.
  revert agg. induction ms as [|m ms IH]; intros agg; simpl.
  - now intros [= <-].
  - destruct (addClient agg m n) as [agg1|] eqn:H1; simpl; [|discriminate].
    intros H. rewrite (IH _ H). eapply addClient_layout; eassumption.
Qed.

Lemma layout_mapModel f (m : Model) : layout (mapModel f m) = layout m.
Proof.
  unfold layout, mapModel. rewrite map_map. apply map_ext. intros [name ws].
  f_equal. rewrite map_map. reflexivity.
Qed.

(** X8: whatever the other clients send, a result of [federatedAveragingAll]
    has the layer names of the first update other than [__proto__], in its
    order, and for every layer the shape arrays of the first update. *)
Theorem federatedAveragingAll_layout (cw : ClientWeights) (m : Model) :
  NoDup (objKeys (firstUpdate cw)) ->
  federatedAveragingAll cw = Returns m ->
  layout m = layout (withoutProto (firstUpdate cw)).
Proof.
  intros Hnd H. unfold federatedAveragingAll in H.
  destruct (addClients _ _ _) as [agg|] eqn:Hrun; [|discriminate].
  injection H as <-. apply addClients_layout in Hrun. unfold returned. rewrite Hrun.
  destruct cw as [|[id first] cw]; [reflexivity|].
  cbn [objKeys map fst objGet]. rewrite String.eqb_refl.
  cbn [firstUpdate] in *. rewrite initAggregated_some_own by assumption.
  apply layout_mapModel.
Qed.

Lemma selectedWeights_fold (r : Round.FederatedRound) (sel : list string) acc :
  NoDup sel -> (forall id, In id sel -> ~ In id (objKeys acc)) ->
  incl sel (Round.submitted r) ->
  fold_left
    (fun sw id =>
       match objGet (Round.clients (Round.modelWeights r)) id with
       | Some w => objSet sw id w
       | None => sw
       end) sel acc
  = acc ++ map (fun id => (id, weightsOf (Round.clients (Round.modelWeights r)) id)) sel.
Proof.
  revert acc. induction sel as [|id sel IH]; intros acc Hnd Hfresh Hincl; simpl.
  - now rewrite app_nil_r.
  - assert (Hin : In id (Round.submitted r)) by (apply Hincl; now left).
    unfold weightsOf at 1.
    destruct (objGet (Round.clients (Round.modelWeights r)) id) as [w|] eqn:Hget.
    2:{ apply objGet_None in Hget. contradiction. }
    rewrite objSet_fresh by (apply Hfresh; now left).
    rewrite IH.
    + now rewrite <- app_assoc.
    + now inversion Hnd.
    + intros id' Hin' Hk. unfold objKeys in Hk. rewrite map_app in Hk.
      apply in_app_or in Hk. destruct Hk as [Hk|[<-|[]]].
      * apply (Hfresh id'); [now right|assumption].
      * inversion Hnd. contradiction.
    + intros x Hx. apply Hincl. now right.
Qed.

Lemma selectedWeights_map (r : Round.FederatedRound) (sel : list string) :
  NoDup sel -> incl sel (Round.submitted r) ->
  selectedWeights r sel
  = map (fun id => (id, weightsOf (Round.clients (Round.modelWeights r)) id)) sel.
Proof.
  intros Hnd Hincl. unfold selectedWeights.
  now rewrite selectedWeights_fold by (auto; intros ? ? []).
Qed.

(** X9: the unused [federatedAveraging] and the path [performAggregation]
    takes (filter the submissions by the selection, then
    [federatedAveragingAll]) agree whenever somebody is selected; on an
    empty selection the former averages all submissions and the latter
    returns the empty model. *)
Theorem federatedAveraging_and_the_path_taken (c : ModelQualityCalculator)
    (r : Round.FederatedRound) :
  NoDup (getSelectedClients c) ->
  incl (getSelectedClients c) (Round.submitted r) ->
  match getSelectedClients c with
  | [] =>
      federatedAveraging c (Round.clients (Round.modelWeights r))
      = federatedAveragingAll (Round.clients (Round.modelWeights r))
      /\ federatedAveragingAll (selectedWeights r (getSelectedClients c)) = Returns []
  | _ :: _ =>
      federatedAveraging c (Round.clients (Round.modelWeights r))
      = federatedAveragingAll (selectedWeights r (getSelectedClients c))
  end.
Proof.
  intros Hnd Hincl. unfold federatedAveraging.
  rewrite (selectedWeights_map r _ Hnd Hincl).
  destruct (getSelectedClients c) as [|first sel] eqn:Hsel; [now split|].
  unfold federatedAveragingAll. cbn [map objKeys fst objGet]. rewrite String.eqb_refl.
  assert (Hfirst : objGet (Round.clients (Round.modelWeights r)) first
                   = Some (weightsOf (Round.clients (Round.modelWeights r)) first)).
  { unfold weightsOf.
    destruct (objGet (Round.clients (Round.modelWeights r)) first) eqn:Hget; [reflexivity|].
    apply objGet_None in Hget. exfalso. apply Hget, Hincl. now left. }
  rewrite Hfirst. unfold objValues. cbn [map snd length].
  rewrite !map_map, !length_map. reflexivity.
Qed.

Lemma federatedAveragingAll_pointwise_witness :
  federatedAveragingAll reorderedUpdates
  = Returns [("layer_0"%string, [ {| data := [2; 3.5]; shape := [2] |} ]);
             ("layer_1"%string, [ {| data := [15]; shape := [1] |} ])].
Proof.
  rewrite (federatedAveragingAll_pointwise reorderedUpdates).
  - vm_compute. reflexivity.
  - simpl. repeat constructor; simpl; intuition discriminate.
  - constructor; [apply Permutation_refl|].
    constructor; [vm_compute; apply perm_swap|constructor].
Defined.

(** The first update has a layer named [__proto__]: the result has the
    other layer only. *)
Lemma federatedAveragingAll_layout_witness :
  federatedAveragingAll shadowedUpdates
  = Returns [("layer_0"%string, [ {| data := [1]; shape := [1] |} ])]
  /\ layout [("layer_0"%string, [ {| data := [1]; shape := [1] |} ])]
     = layout (withoutProto (firstUpdate shadowedUpdates)).
Proof.
  split; [vm_compute; reflexivity|].
  apply (federatedAveragingAll_layout shadowedUpdates).
  - simpl. repeat constructor; simpl; intuition discriminate.
  - vm_compute. reflexivity.
Defined.

Lemma federatedAveraging_and_the_path_taken_witness :
  federatedAveraging
    (modelQualityCalculator
       (run exampleExp examplePow (initialServer (config 4 0)) threeOfFourSubmitted))
    (Round.clients
       (Round.modelWeights
          (roundOf (run exampleExp examplePow (initialServer (config 4 0))
                      threeOfFourSubmitted))))
  = federatedAveragingAll
      (selectedWeights
         (roundOf (run exampleExp examplePow (initialServer (config 4 0))
                     threeOfFourSubmitted))
         ["A"; "B"]%string).
Proof.
  pose proof (federatedAveraging_and_the_path_taken
                (modelQualityCalculator
                   (run exampleExp examplePow (initialServer (config 4 0))
                      threeOfFourSubmitted))
                (roundOf (run exampleExp examplePow (initialServer (config 4 0))
                            threeOfFourSubmitted))) as H.
  assert (Hsel : getSelectedClients
                   (modelQualityCalculator
                      (run exampleExp examplePow (initialServer (config 4 0))
                         threeOfFourSubmitted)) = ["A"; "B"]%string)
    by (vm_compute; reflexivity).
  rewrite Hsel in H. apply H.
  - repeat constructor; simpl; intuition discriminate.
  - vm_compute. intros x [<-|[<-|[]]]; auto.
Defined.
(** * What every reachable state satisfies *)

Lemma coherent_initial config : coherent (initialServer config).
Proof.
  constructor; simpl; try reflexivity; auto; try discriminate.
  - repeat split; constructor.
  - repeat split; constructor.
Qed.

(** Changes that [coherent] does not see. *)
Lemma coherent_timers s ts : coherent s -> coherent (setTimers s ts).
Proof. intros []; constructor; assumption. Qed.

Lemma calculateAndStoreRoundMeanTime_cases s roundNumber s' :
  calculateAndStoreRoundMeanTime s roundNumber = Returns s' ->
  s' = s
  \/ exists mean,
       s' = setMeanTimes s (roundMeanSet (roundMeanTimes s) roundNumber mean)
              (meanOf (map snd (roundMeanSet (roundMeanTimes s) roundNumber mean))).
Proof.
  unfold calculateAndStoreRoundMeanTime.
  destruct (collectTimes _ _) as [times|]; simpl; [|discriminate].
  destruct times; intros [= <-]; [now left|right; eauto].
Qed.

Lemma coherent_means s mean n :
  coherent s ->
  coherent (setMeanTimes s (roundMeanSet (roundMeanTimes s) n mean)
              (meanOf (map snd (roundMeanSet (roundMeanTimes s) n mean)))).
Proof.
  intros []; constructor; try assumption.
  simpl. pose proof (roundMeanSet_nonempty (roundMeanTimes s) n mean).
  now destruct (roundMeanSet _ _ _).
Qed.

Lemma coherent_calculate s roundNumber s' :
  calculateAndStoreRoundMeanTime s roundNumber = Returns s' ->
  coherent s -> coherent s'.
Proof.
  intros H Hc. apply calculateAndStoreRoundMeanTime_cases in H.
  destruct H as [->|[mean ->]]; [assumption|now apply coherent_means].
Qed.

Lemma setIsAggregating_reset s :
  isAggregating s = false -> setIsAggregating (setIsAggregating s true) false = s.
Proof. destruct s; simpl; now intros ->. Qed.

Lemma setIsAggregating_means s ms o :
  isAggregating s = false ->
  setIsAggregating (setMeanTimes (setIsAggregating s true) ms o) false
  = setMeanTimes s ms o.
Proof. destruct s; simpl; now intros ->. Qed.

Lemma setIsAggregating_closeRound s r agg st :
  setIsAggregating (setAllStatus (closeRound s r agg) st) false
  = setAllStatus (closeRound (setIsAggregating s false) r agg) st.
Proof. reflexivity. Qed.

Lemma lastAggregated_app rs r :
  lastAggregated (rs ++ [r]) = Round.aggregated (Round.modelWeights r).
Proof. unfold lastAggregated. now rewrite rev_app_distr. Qed.

Lemma Forall_objSet {V} (P : string * V -> Prop) (o : obj V) k v :
  Forall P o -> P (k, v) -> Forall P (objSet o k v).
Proof.
  intros Ho Hv. induction o as [|[k' v'] o IH]; simpl.
  - now constructor.
  - inversion Ho; subst. destruct (String.eqb k k') eqn:Hk.
    + apply String.eqb_eq in Hk. subst. now constructor.
    + constructor; auto.
Qed.

Lemma Forall_objDelete {V} (P : string * V -> Prop) (o : obj V) k :
  Forall P o -> Forall P (objDelete o k).
Proof.
  intros Ho. induction o as [|[k' v'] o IH]; simpl; [constructor|].
  inversion Ho; subst. destruct (String.eqb k k'); [assumption|].
  constructor; auto.
Qed.

Lemma NoDup_objKeys_objDelete {V} (o : obj V) k :
  NoDup (objKeys o) -> NoDup (objKeys (objDelete o k)).
Proof.
  induction o as [|[k' v'] o IH]; simpl; intros Hnd; [constructor|].
  inversion Hnd; subst. destruct (String.eqb k k'); [assumption|].
  simpl. constructor; auto.
  intros Hin. apply objKeys_objDelete_incl in Hin. contradiction.
Qed.

Lemma objGet_objDelete_some {V} (o : obj V) k k' v :
  NoDup (objKeys o) -> objGet (objDelete o k) k' = Some v ->
  objGet o k' = Some v /\ k' <> k.
Proof.
  induction o as [|[k0 v0] o IH]; simpl; intros Hnd; [discriminate|].
  inversion Hnd as [|? ? Hnotin Hnd']; subst.
  destruct (String.eqb k k0) eqn:Hk.
  - apply String.eqb_eq in Hk. subst k0. intros Hget.
    assert (Hne : k' <> k).
    { intros ->. apply objGet_In in Hget. apply (in_map fst) in Hget. contradiction. }
    apply String.eqb_neq in Hne. rewrite Hne. split; [assumption|].
    now apply String.eqb_neq.
  - simpl. destruct (String.eqb k' k0) eqn:Hk'.
    + intros [= <-]. split; [reflexivity|].
      apply String.eqb_eq in Hk'. subst. intros ->. now rewrite String.eqb_refl in Hk.
    + now apply IH.
Qed.

Lemma objGet_Forall {V} (P : string * V -> Prop) (o : obj V) k v :
  Forall P o -> objGet o k = Some v -> P (k, v).
Proof.
  intros Ho Hget. apply objGet_In in Hget. rewrite Forall_forall in Ho. now apply Ho.
Qed.

Lemma seq_snoc n : seq 1 (S n) = seq 1 n ++ [S n].
Proof. rewrite seq_S. reflexivity. Qed.

(** Closing the round in progress. *)
Lemma coherent_closeRound s r agg :
  coherent s -> currentRound s = Some r ->
  (exists selectedClients,
     federatedAveragingAll (selectedWeights r selectedClients) = Returns agg) ->
  coherent (setAllStatus (closeRound s r agg) Client.idle).
Proof.
  intros Hc Hr [sel Hagg].
  destruct Hc as [Hflag Hreq Htot Hids Harch Hglob Hnum Hcur Hidle Hcl Hmet Hmeans Htim].
  destruct (Hcur r Hr) as (Hid & Hst & Hpart & Hnone & Hmodel & Hstart & Hincl & Hstat).
  rewrite Hr in Hnum.
  constructor; simpl; try assumption.
  - rewrite map_app, length_app, Hids. simpl.
    replace (length (rounds s) + 1)%nat with (S (length (rounds s))) by lia.
    rewrite seq_snoc, map_app. simpl. f_equal. f_equal. lia.
  - apply Forall_app. split; [assumption|]. constructor; [|constructor].
    unfold archived. simpl. repeat split; try assumption.
    exists sel, agg. split; [exact Hagg|reflexivity].
  - now rewrite lastAggregated_app.
  - rewrite length_app. simpl. lia.
  - discriminate.
  - intros _. repeat split. apply Forall_forall. intros [k c] Hin.
    apply in_map_iff in Hin. destruct Hin as ([k0 c0] & [= <- <-] & _). reflexivity.
  - destruct Hcl as [Hnd Hkey]. split.
    + now rewrite objKeys_setStatus.
    + apply Forall_forall. intros [k c] Hin.
      apply in_map_iff in Hin. destruct Hin as ([k0 c0] & [= <- <-] & Hin).
      rewrite Forall_forall in Hkey. apply (Hkey _ Hin).
  - intros id. specialize (Htim id). unfold timingsOf, submissionsOf, allRounds in *.
    simpl. rewrite Hr in Htim. rewrite app_nil_r. rewrite Htim.
    rewrite !filter_app, !length_app. simpl.
    now destruct (objHas (Round.clients (Round.modelWeights r)) id).
Qed.

Lemma coherent_performAggregation s : coherent s -> coherent (performAggregation s).
Proof.
  intros Hc. unfold performAggregation.
  destruct (currentRound s) as [r|] eqn:Hr; [|assumption].
  destruct (isAggregating s) eqn:Hflag; [assumption|].
  destruct (calculateAndStoreRoundMeanTime _ _) as [s2|] eqn:Hcalc.
  - apply calculateAndStoreRoundMeanTime_cases in Hcalc.
    assert (Hc2 : coherent (setIsAggregating s2 false) /\ currentRound s2 = Some r
                  /\ modelQualityCalculator s2 = modelQualityCalculator s).
    { destruct Hcalc as [->|[mean ->]].
      - rewrite setIsAggregating_reset by assumption. auto.
      - rewrite setIsAggregating_means by assumption. simpl.
        split; [now apply coherent_means|auto]. }
    destruct Hc2 as (Hc2 & Hr2 & Hcalc2).
    destruct (federatedAveragingAll _) as [agg|] eqn:Hagg; [|assumption].
    assert (Hclosed : coherent (setIsAggregating
                                  (setAllStatus (closeRound s2 r agg) Client.idle) false)).
    { rewrite setIsAggregating_closeRound. apply coherent_closeRound; eauto. }
    destruct (_ <? _)%Z; [|assumption].
    now apply coherent_timers.
  - rewrite setIsAggregating_reset by assumption. assumption.
Qed.

Lemma coherent_startNewRound s now : coherent s -> coherent (startNewRound s now).
Proof.
  intros Hc. unfold startNewRound.
  destruct (currentRound s) as [r|] eqn:Hr; simpl; [assumption|].
  destruct (_ || _ || _) eqn:Hguard; [assumption|].
  destruct Hc as [Hflag Hreq Htot Hids Harch Hglob Hnum Hcur Hidle Hcl Hmet Hmeans Htim].
  rewrite Hr in Hnum.
  assert (Hgoal : forall deadline ts,
    coherent
      (setAllStatus
         (setTimers
            (setTimes
               (openRound
                  (setCalculator s (clearMetrics (initializeModel (modelQualityCalculator s)))))
               deadline (Some now)) ts)
         Client.training)).
  { intros deadline ts. constructor; simpl; try assumption.
    - lia.
    - intros r [= <-]. simpl. repeat split; eauto.
      + intros x [].
      + intros id c Hget Hst.
        rewrite (objGet_map_values (fun c => Client.withStatus c Client.training)) in Hget.
        destruct (objGet (clients s) id); simpl in Hget; [|discriminate].
        injection Hget as <-. discriminate.
    - discriminate.
    - destruct Hcl as [Hnd Hkey]. split.
      + now rewrite objKeys_setStatus.
      + apply Forall_forall. intros [k c] Hin.
        apply in_map_iff in Hin. destruct Hin as ([k0 c0] & [= <- <-] & Hin).
        rewrite Forall_forall in Hkey. apply (Hkey _ Hin).
    - split; constructor.
    - intros id. specialize (Htim id). unfold timingsOf, submissionsOf, allRounds in *.
      simpl. rewrite Hr in Htim. rewrite app_nil_r in Htim. rewrite Htim.
      rewrite filter_app, length_app. simpl. lia. }
  destruct (shouldUseSynchronousMode _).
  - apply (Hgoal None (timers s)).
  - apply Hgoal.
Qed.

Section Coherence.

Variable Math_exp : float -> float.
Variable Math_pow : float -> float -> float.

Lemma coherent_register s newId now :
  coherent s -> coherent (snd (register s newId now)).
Proof.
  intros Hc. unfold register.
  destruct (_ <=? _)%Z; simpl; [assumption|].
  assert (Hc1 : coherent
            (setClients s
               (objSet (clients s) newId
                  {| Client.clientId := newId; Client.status := Client.idle;
                     Client.lastUpdate := now |}))).
  { destruct Hc as [Hflag Hreq Htot Hids Harch Hglob Hnum Hcur Hidle Hcl Hmet Hmeans Htim].
    constructor; simpl; try assumption.
    - intros r Hr. destruct (Hcur r Hr) as (H1 & H2 & H3 & H4 & H5 & H6 & H7 & H8).
      repeat split; try assumption.
      intros id c Hget Hst. destruct (String.eqb id newId) eqn:Heq.
      + apply String.eqb_eq in Heq. subst. rewrite objGet_objSet_same in Hget.
        injection Hget as <-. discriminate.
      + apply String.eqb_neq in Heq. rewrite objGet_objSet_other in Hget by assumption.
        eauto.
    - intros Hr. destruct (Hidle Hr) as (H1 & H2 & H3). repeat split; try assumption.
      now apply Forall_objSet.
    - destruct Hcl as [Hnd Hkey]. split.
      + now apply NoDup_objKeys_objSet.
      + now apply Forall_objSet. }
  destruct (_ =? _)%Z; [|assumption].
  now apply coherent_startNewRound.
Qed.

Lemma coherent_roundStatus s id now :
  coherent s -> coherent (snd (roundStatus s id now)).
Proof.
  intros Hc. unfold roundStatus.
  destruct (objGet (clients s) id); [|assumption].
  destruct (currentRound s); simpl; [assumption|].
  destruct (_ && _ && _); [|assumption].
  now apply coherent_startNewRound.
Qed.

Lemma coherent_deleteClient s id :
  coherent s -> coherent (snd (deleteClient s id)).
Proof.
  intros Hc. unfold deleteClient.
  destruct (objHas (clients s) id); simpl; [|assumption].
  destruct Hc as [Hflag Hreq Htot Hids Harch Hglob Hnum Hcur Hidle Hcl Hmet Hmeans Htim].
  destruct Hcl as [Hnd Hkey].
  constructor; simpl; try assumption.
  - intros r Hr. destruct (Hcur r Hr) as (H1 & H2 & H3 & H4 & H5 & H6 & H7 & H8).
    repeat split; try assumption.
    intros id' c Hget Hst. apply objGet_objDelete_some in Hget; [|assumption].
    destruct Hget as [Hget _]. eauto.
  - intros Hr. destruct (Hidle Hr) as (H1 & H2 & H3). repeat split; try assumption.
    now apply Forall_objDelete.
  - split; [now apply NoDup_objKeys_objDelete|now apply Forall_objDelete].
Qed.

Lemma coherent_postConfig s newConfig :
  coherent s -> coherent (snd (postConfig s newConfig)).
Proof.
  intros Hc. unfold postConfig.
  destruct (below _ _); [assumption|].
  destruct (below _ _); [assumption|].
  destruct (below _ _); [assumption|].
  destruct Hc. constructor; simpl; try assumption; reflexivity.
Qed.

(** With a model, [evaluateModel] returns; what it records is keyed by the
    client. *)
Lemma evaluateModel_returns c id ev nData :
  model c = true ->
  exists q c', evaluateModel Math_exp Math_pow c id ev nData = (Returns q, c')
    /\ model c' = true
    /\ incl (objKeys (clientMetrics c')) (objKeys (clientMetrics c) ++ [id])
    /\ (NoDup (objKeys (clientMetrics c)) -> NoDup (objKeys (clientMetrics c')))
    /\ (Forall (fun km => clientId (snd km) = fst km) (clientMetrics c) ->
        Forall (fun km => clientId (snd km) = fst km) (clientMetrics c')).
Proof.
  intros Hmodel. unfold evaluateModel. rewrite Hmodel. simpl.
  assert (Hsame : incl (objKeys (clientMetrics c)) (objKeys (clientMetrics c) ++ [id]))
    by (intros x Hx; apply in_or_app; now left).
  destruct ev as [|currentLoss]; [eauto 10|].
  destruct (JS.isNaN currentLoss); [eauto 10|].
  eexists. eexists. split; [reflexivity|]. simpl. repeat split.
  - rewrite objKeys_objSet. destruct (objHas _ _); [assumption|apply incl_refl].
  - apply NoDup_objKeys_objSet.
  - intros H. now apply Forall_objSet.
Qed.

Lemma submissionsOf_storeWeights s r id weights id' :
  currentRound s = Some r ->
  objHas (Round.clients (Round.modelWeights r)) id = false ->
  length (filter (fun r => objHas (Round.clients (Round.modelWeights r)) id')
                 (rounds s ++ [storeWeights r id weights]))
  = (submissionsOf s id' + if String.eqb id' id then 1 else 0)%nat.
Proof.
  intros Hr Hnot. unfold submissionsOf, allRounds. rewrite Hr.
  rewrite !filter_app, !length_app. simpl.
  destruct (String.eqb id' id) eqn:Heq.
  - apply String.eqb_eq in Heq. subst id'. rewrite Hnot.
    unfold objHas. rewrite objGet_objSet_same. simpl. lia.
  - apply String.eqb_neq in Heq. unfold objHas.
    rewrite objGet_objSet_other by assumption.
    destruct (objGet _ id'); simpl; lia.
Qed.

Lemma coherent_submitWeights s id weights nData tTime cst ev pnow now :
  coherent s ->
  coherent (snd (submitWeights Math_exp Math_pow s id weights nData tTime cst ev pnow now)).
Proof.
  intros Hc. unfold submitWeights.
  destruct (objGet (clients s) id) as [client|] eqn:Hclient; [|assumption].
  destruct (currentRound s) as [r|] eqn:Hr; [|assumption].
  destruct (objHas _ _) eqn:Hnot; [assumption|].
  pose proof Hc as Hc0.
  destruct Hc as [Hflag Hreq Htot Hids Harch Hglob Hnum Hcur Hidle Hcl Hmet Hmeans Htim].
  destruct (Hcur r Hr) as (H1 & H2 & H3 & H4 & Hmodel & H6 & Hincl & Hstat).
  unfold receiveWeights. simpl.
  destruct (evaluateModel_returns (modelQualityCalculator s) id ev nData Hmodel)
    as (q & c' & -> & Hmodel' & Hkeys' & Hnd' & Hid').
  match goal with
  | |- coherent (snd (if shouldStartAggregation ?s2 now then _ else _)) =>
      assert (Hc2 : coherent s2)
  end.
  { destruct Hcl as [Hnd Hkey]. destruct Hmet as [Hmnd Hmkey].
    rewrite Hr in Hnum.
    constructor; simpl; try assumption.
    - intros r' [= <-]. simpl. repeat split; try assumption.
      + unfold Round.submitted in *. simpl. rewrite objKeys_objSet, Hnot.
        intros x Hx. apply Hkeys' in Hx. apply in_app_or in Hx.
        apply in_or_app. destruct Hx as [Hx|Hx]; [left; now apply Hincl|now right].
      + intros id' c Hget Hst. unfold Round.submitted in *. simpl.
        rewrite objKeys_objSet, Hnot. apply in_or_app.
        destruct (String.eqb id' id) eqn:Heq.
        * apply String.eqb_eq in Heq. subst. right. now left.
        * apply String.eqb_neq in Heq. rewrite objGet_objSet_other in Hget by assumption.
          left. eauto.
    - discriminate.
    - split; [now apply NoDup_objKeys_objSet|]. apply Forall_objSet; [assumption|].
      simpl. apply (objGet_Forall _ _ _ _ Hkey Hclient).
    - split; auto.
    - intros id'. unfold timingsOf, submissionsOf, allRounds. simpl.
      rewrite (submissionsOf_storeWeights s r id weights id' Hr Hnot).
      rewrite <- (Htim id'). unfold timingsOf.
      destruct (String.eqb id' id) eqn:Heq.
      + apply String.eqb_eq in Heq. subst. rewrite objGet_objSet_same.
        rewrite length_app. simpl. reflexivity.
      + apply String.eqb_neq in Heq. rewrite objGet_objSet_other by assumption. lia. }
  destruct (shouldStartAggregation _ now); simpl; [|assumption].
  now apply coherent_performAggregation.
Qed.

Lemma coherent_timeout s n now : coherent s -> coherent (snd (timeout s n now)).
Proof.
  intros Hc. unfold timeout.
  destruct (nth_error (timers s) n) as [t|]; simpl; [|assumption].
  pose proof (coherent_timers s (removeNth (timers s) n) Hc) as Hc'.
  unfold runCallback. destruct (callback t).
  - destruct (currentRound _); [|assumption].
    destruct (isAggregating _); [assumption|].
    now apply coherent_performAggregation.
  - now apply coherent_startNewRound.
Qed.

Lemma coherent_handle s req :
  coherent s -> coherent (snd (handle Math_exp Math_pow s req)).
Proof.
  intros Hc. destruct req; simpl.
  - now apply coherent_register.
  - now apply coherent_roundStatus.
  - now apply coherent_submitWeights.
  - now apply coherent_deleteClient.
  - now apply coherent_postConfig.
  - now apply coherent_timeout.
Qed.

Lemma coherent_run s reqs :
  coherent s -> coherent (run Math_exp Math_pow s reqs).
Proof.
  revert s. induction reqs as [|req reqs IH]; intros s Hc; simpl; [assumption|].
  apply IH. now apply coherent_handle.
Qed.

Lemma coherent_reachable config reqs :
  coherent (run Math_exp Math_pow (initialServer config) reqs).
Proof. apply coherent_run, coherent_initial. Qed.

End Coherence.
(** * Properties of every reachable state *)

Lemma map_clientId_filter (p : ModelQualityMetrics -> bool)
    (o : obj ModelQualityMetrics) :
  Forall (fun km => clientId (snd km) = fst km) o ->
  map clientId (filter p (map snd o)) = map fst (filter (fun km => p (snd km)) o).
Proof.
  intros Hkey. induction Hkey as [|[k m] o Hk Ho IH]; simpl; [reflexivity|].
  simpl in Hk. destruct (p m); simpl; [now rewrite Hk, IH|exact IH].
Qed.

Lemma getSelectedClients_keys (c : ModelQualityCalculator) :
  Forall (fun km => clientId (snd km) = fst km) (clientMetrics c) ->
  getSelectedClients c
  = map fst (filter (fun km => aboveMean c (snd km)) (clientMetrics c)).
Proof.
  intros Hkey. rewrite getSelectedClients_filter. unfold aboveMean, objValues.
  now apply map_clientId_filter.
Qed.

(** Keeping some of the properties of an object keeps its keys distinct. *)
Lemma objKeys_filter_NoDup {V} (keep : string * V -> bool) (o : obj V) :
  NoDup (objKeys o) -> NoDup (objKeys (filter keep o)).
Proof.
  unfold objKeys. induction o as [|[k v] o IH]; simpl; intros Hnd; [constructor|].
  inversion Hnd as [|? ? Hfresh Hrest]; subst.
  destruct (keep (k, v)); simpl; [|now apply IH].
  constructor; [|now apply IH].
  intros Hin. apply Hfresh. apply in_map_iff in Hin.
  destruct Hin as ([k' v'] & Hk & Hin). simpl in Hk. subst k'.
  apply filter_In in Hin. destruct Hin as [Hin _].
  apply (in_map fst) in Hin. exact Hin.
Qed.

Lemma getSelectedClients_recorded (c : ModelQualityCalculator) :
  NoDup (objKeys (clientMetrics c)) ->
  Forall (fun km => clientId (snd km) = fst km) (clientMetrics c) ->
  NoDup (getSelectedClients c)
  /\ incl (getSelectedClients c) (objKeys (clientMetrics c)).
Proof.
  intros Hnd Hkey. rewrite (getSelectedClients_keys c Hkey). split.
  - now apply objKeys_filter_NoDup.
  - intros k Hk. apply in_map_iff in Hk. destruct Hk as (km & <- & Hin).
    apply filter_In in Hin. apply in_map. tauto.
Qed.

Section Reachable.

Variable Math_exp : float -> float.
Variable Math_pow : float -> float -> float.



(** X10: in every reachable state [isAggregating] is [false] (the flag is
    set and cleared within one handler), and [REQUIRED_CLIENTS] and
    [TOTAL_ROUNDS] equal the fields of [serverConfig]. *)
Theorem isAggregating_never_observed (config : ServerConfig) (reqs : list Request) :
  isAggregating (run Math_exp Math_pow (initialServer config) reqs) = false
  /\ REQUIRED_CLIENTS (run Math_exp Math_pow (initialServer config) reqs) = requiredClients (serverConfig (run Math_exp Math_pow (initialServer config) reqs))
  /\ TOTAL_ROUNDS (run Math_exp Math_pow (initialServer config) reqs) = totalRounds (serverConfig (run Math_exp Math_pow (initialServer config) reqs)).
Proof.
  destruct (coherent_reachable Math_exp Math_pow config reqs). auto.
Qed.

(** X11: the archive [rounds] holds the rounds 1, 2, ..., n in order, each
    completed; the round counter is n, or n + 1 while round n + 1 is in
    progress, and the round in progress carries that number and no
    aggregate. *)
Theorem rounds_are_numbered (config : ServerConfig) (reqs : list Request) :
  let s := run Math_exp Math_pow (initialServer config) reqs in
  map Round.roundId (rounds s) = map Z.of_nat (seq 1 (length (rounds s)))
  /\ Forall (fun r => Round.status r = Round.completed) (rounds s)
  /\ match currentRound s with
     | None => currentRoundNumber s = Z.of_nat (length (rounds s))
     | Some r => currentRoundNumber s = (Z.of_nat (length (rounds s)) + 1)%Z
                 /\ Round.roundId r = currentRoundNumber s
                 /\ Round.status r = Round.in_progress
                 /\ Round.aggregated (Round.modelWeights r) = None
     end.
Proof.
  intros s. destruct (coherent_reachable Math_exp Math_pow config reqs)
    as [_ _ _ Hids Harch _ Hnum Hcur _ _ _ _ _]. fold s in Hids, Harch, Hnum, Hcur.
  split; [assumption|]. split.
  - eapply Forall_impl; [|exact Harch]. now intros r [H _].
  - destruct (currentRound s) as [r|]; [|lia].
    destruct (Hcur r eq_refl) as (H1 & H2 & H3 & H4 & _). repeat split; auto.
Qed.

Lemma lastAggregated_archived rs :
  Forall archived rs -> rs <> [] -> exists m, lastAggregated rs = Some m.
Proof.
  intros Hall Hne. destruct (exists_last Hne) as (rs' & r & ->).
  rewrite lastAggregated_app. apply Forall_app in Hall. destruct Hall as [_ Hr].
  inversion Hr as [|? ? (_ & _ & sel & m & _ & Hm) _]; subst. eauto.
Qed.

(** X12: the global model is the aggregate of the round archived last, and
    [GET /global-model] answers 404 exactly as long as no round is
    archived. *)
Theorem globalModel_is_latest_aggregate (config : ServerConfig) (reqs : list Request) :
  let s := run Math_exp Math_pow (initialServer config) reqs in
  globalModel s = lastAggregated (rounds s)
  /\ snd (getGlobalModel s) = lastAggregated (rounds s)
  /\ (fst (getGlobalModel s) = Reply 404 "No aggregated model available"
      <-> rounds s = []).
Proof.
  intros s. destruct (coherent_reachable Math_exp Math_pow config reqs)
    as [_ _ _ _ Harch Hglob _ _ _ _ _ _ _]. fold s in Harch, Hglob.
  unfold getGlobalModel. rewrite Hglob. split; [reflexivity|].
  destruct (rounds s) as [|r rs] eqn:Hrs.
  - simpl. repeat split.
  - destruct (lastAggregated_archived (r :: rs) Harch) as [m Hm]; [discriminate|].
    rewrite Hm. simpl. repeat split; discriminate.
Qed.




(** X14: while a round is in progress the selected clients are submitters
    of that round, without repetition, and the weights handed to the
    aggregator have exactly one entry per selected client, in the order of
    selection. *)
Theorem selection_is_among_submitters (config : ServerConfig) (reqs : list Request)
    (r : Round.FederatedRound) :
  let s := run Math_exp Math_pow (initialServer config) reqs in
  currentRound s = Some r ->
  incl (getSelectedClients (modelQualityCalculator s)) (Round.submitted r)
  /\ NoDup (getSelectedClients (modelQualityCalculator s))
  /\ includedWeights s r
     = map (fun id => (id, weightsOf (Round.clients (Round.modelWeights r)) id))
           (getSelectedClients (modelQualityCalculator s)).
Proof.
  intros s Hr. destruct (coherent_reachable Math_exp Math_pow config reqs)
    as [_ _ _ _ _ _ _ Hcur _ _ [Hnd Hkey] _ _]. fold s in Hcur, Hnd, Hkey.
  destruct (Hcur r Hr) as (_ & _ & _ & _ & _ & _ & Hincl & _).
  destruct (getSelectedClients_recorded _ Hnd Hkey) as [Hsel Hrec].
  assert (Hsub : incl (getSelectedClients (modelQualityCalculator s)) (Round.submitted r))
    by (intros x Hx; auto).
  repeat split; try assumption.
  unfold includedWeights. now apply selectedWeights_map.
Qed.

(** X15: no request is answered with status 500.  The only exception the
    quality calculator lets through is the one for a missing model, and a
    round in progress has a model. *)
Theorem submit_never_fails (config : ServerConfig) (reqs : list Request) (req : Request) :
  match fst (handle Math_exp Math_pow (run Math_exp Math_pow (initialServer config) reqs) req) with
  | Reply code _ => code <> 500%Z
  | Silent => True
  end.
Proof.
  destruct (coherent_reachable Math_exp Math_pow config reqs)
    as [_ _ _ _ _ _ _ Hcur _ _ _ _ _].
  set (s := run Math_exp Math_pow (initialServer config) reqs) in *.
  destruct req; simpl.
  - unfold register. destruct (_ <=? _)%Z; simpl; lia.
  - unfold roundStatus. destruct (objGet _ _); [|simpl; lia].
    destruct (currentRound s); simpl; lia.
  - unfold submitWeights. destruct (objGet _ _); [|simpl; lia].
    destruct (currentRound s) as [r|] eqn:Hr; [|simpl; lia].
    destruct (objHas _ _); [simpl; lia|].
    destruct (Hcur r eq_refl) as (_ & _ & _ & _ & Hmodel & _).
    unfold receiveWeights. simpl.
    destruct (evaluateModel_returns Math_exp Math_pow (modelQualityCalculator s) id ev nData
                Hmodel) as (q & c' & -> & _).
    destruct (shouldStartAggregation _ _); simpl; lia.
  - unfold deleteClient. destruct (objHas _ _); simpl; lia.
  - unfold postConfig. repeat (destruct (below _ _); [simpl; lia|]). simpl. lia.
  - unfold timeout. now destruct (nth_error _ _).
Qed.

(** X16: a registered client is stored under its own [clientId].  When no
    round is in progress every client is idle; in a round, a client marked
    [aggregating] has an entry in the round's submissions. *)
Theorem client_status_follows_round (config : ServerConfig) (reqs : list Request)
    (id : string) (c : Client.ClientInfo) :
  let s := run Math_exp Math_pow (initialServer config) reqs in
  objGet (clients s) id = Some c ->
  Client.clientId c = id
  /\ match currentRound s with
     | None => Client.status c = Client.idle
     | Some r => Client.status c = Client.aggregating -> In id (Round.submitted r)
     end.
Proof.
  intros s Hget. destruct (coherent_reachable Math_exp Math_pow config reqs)
    as [_ _ _ _ _ _ _ Hcur Hidle [_ Hkey] _ _ _]. fold s in Hcur, Hidle, Hkey.
  split; [apply (objGet_Forall _ _ _ _ Hkey Hget)|].
  destruct (currentRound s) as [r|].
  - destruct (Hcur r eq_refl) as (_ & _ & _ & _ & _ & _ & _ & Hst). eauto.
  - destruct (Hidle eq_refl) as (_ & _ & Hall).
    apply (objGet_Forall _ _ _ _ Hall Hget).
Qed.

(** X17: [overallMeanTime] is [0] until a round mean is stored and the mean
    of the stored round means afterwards; the number of timing entries of a
    client is the number of rounds in which it has a submission. *)
Theorem timing_records_follow_submissions (config : ServerConfig) (reqs : list Request) :
  let s := run Math_exp Math_pow (initialServer config) reqs in
  match roundMeanTimes s with
  | [] => overallMeanTime s = 0
  | _ => overallMeanTime s = meanOf (map snd (roundMeanTimes s))
  end
  /\ forall id, length (timingsOf s id) = submissionsOf s id.
Proof.
  intros s. destruct (coherent_reachable Math_exp Math_pow config reqs)
    as [_ _ _ _ _ _ _ _ _ _ _ Hmeans Htim]. now split.
Qed.

(** X18: a submission whose evaluation throws or yields NaN is stored with
    the round but is not scored: the client counts as a submitter and is not
    among the selected clients, so its update is not aggregated. *)
Theorem unscored_submission_is_not_selected (config : ServerConfig) (reqs : list Request)
    (id : string) (weights : Model) (nData tTime cst : float) (ev : Evaluation)
    (pnow now : float) (s2 : Server) :
  afterStoring Math_exp Math_pow (run Math_exp Math_pow (initialServer config) reqs) id weights nData tTime cst ev pnow now
  = Some s2 ->
  unscored ev = true ->
  exists r2, currentRound s2 = Some r2
    /\ objGet (Round.clients (Round.modelWeights r2)) id = Some weights
    /\ ~ In id (getSelectedClients (modelQualityCalculator s2))
    /\ objGet (includedWeights s2 r2) id = None.
Proof.
  intros Hafter Hev.
  destruct (coherent_reachable Math_exp Math_pow config reqs)
    as [_ _ _ _ _ _ _ Hcur _ _ [Hnd Hkey] _ _].
  set (s := run Math_exp Math_pow (initialServer config) reqs) in *.
  unfold afterStoring in Hafter.
  destruct (objGet (clients s) id) as [client|]; [|discriminate].
  destruct (currentRound s) as [r|] eqn:Hr; [|discriminate].
  destruct (objHas _ _) eqn:Hnot; [discriminate|].
  destruct (Hcur r eq_refl) as (_ & _ & _ & _ & Hmodel & _ & Hincl & _).
  unfold receiveWeights in Hafter. simpl in Hafter.
  assert (Hcalc : evaluateModel Math_exp Math_pow (modelQualityCalculator s) id ev nData
                  = (Returns 0.5, modelQualityCalculator s)).
  { unfold evaluateModel. rewrite Hmodel. simpl.
    destruct ev as [|l]; [reflexivity|]. simpl in Hev. now rewrite Hev. }
  rewrite Hcalc in Hafter. injection Hafter as <-.
  eexists. split; [reflexivity|]. simpl.
  assert (Hnotsel : ~ In id (getSelectedClients (modelQualityCalculator s))).
  { intros Hin. destruct (getSelectedClients_recorded _ Hnd Hkey) as [_ Hrec].
    apply Hrec, Hincl in Hin. apply objHas_true_In in Hin. congruence. }
  split; [apply objGet_objSet_same|]. split; [assumption|].
  unfold includedWeights. simpl.
  destruct (objGet (selectedWeights _ _) id) as [w|] eqn:Hget; [|reflexivity].
  exfalso. apply Hnotsel.
  assert (Hk : In id (objKeys (selectedWeights
                 (storeWeights r id weights)
                 (getSelectedClients (modelQualityCalculator s))))).
  { apply objGet_In in Hget. apply (in_map fst) in Hget. exact Hget. }
  clear -Hk. unfold selectedWeights in Hk.
  assert (Hgen : forall sel acc,
            In id (objKeys (fold_left
              (fun sw id0 =>
                 match objGet (Round.clients (Round.modelWeights (storeWeights r id weights))) id0 with
                 | Some w => objSet sw id0 w
                 | None => sw
                 end) sel acc)) -> In id (objKeys acc) \/ In id sel).
  { induction sel as [|x sel IH]; intros acc H; simpl in H; [now left|].
    apply IH in H. destruct H as [H|H]; [|right; now right].
    destruct (objGet _ x); [|now left].
    rewrite objKeys_objSet in H. destruct (objHas acc x); [now left|].
    apply in_app_or in H. destruct H as [H|[<-|[]]]; [now left|right; now left]. }
  apply Hgen in Hk. now destruct Hk as [[]|Hk].
Qed.

End Reachable.


Lemma selection_is_among_submitters_witness :
  incl (getSelectedClients
          (modelQualityCalculator
             (run exampleExp examplePow (initialServer (config 4 0)) threeOfFourSubmitted)))
       (Round.submitted
          (roundOf (run exampleExp examplePow (initialServer (config 4 0))
                      threeOfFourSubmitted)))
  /\ objKeys (includedWeights
                (run exampleExp examplePow (initialServer (config 4 0)) threeOfFourSubmitted)
                (roundOf (run exampleExp examplePow (initialServer (config 4 0))
                            threeOfFourSubmitted)))
     = ["A"; "B"]%string.
Proof.
  destruct (selection_is_among_submitters exampleExp examplePow (config 4 0)
              threeOfFourSubmitted
              (roundOf (run exampleExp examplePow (initialServer (config 4 0))
                          threeOfFourSubmitted)))
    as (Hincl & _ & Hweights).
  - vm_compute. reflexivity.
  - split; [exact Hincl|]. rewrite Hweights. vm_compute. reflexivity.
Defined.

Lemma client_status_follows_round_witness :
  Client.clientId {| Client.clientId := "A"; Client.status := Client.aggregating;
                     Client.lastUpdate := 2000 |} = "A"%string
  /\ In "A"%string
        (Round.submitted
           (roundOf (run exampleExp examplePow (initialServer (config 2 1))
                       oneOfTwoSubmitted))).
Proof.
  destruct (client_status_follows_round exampleExp examplePow (config 2 1)
              oneOfTwoSubmitted "A"
              {| Client.clientId := "A"; Client.status := Client.aggregating;
                 Client.lastUpdate := 2000 |})
    as [Hid Hstatus].
  - vm_compute. reflexivity.
  - split; [exact Hid|].
    assert (Hr : currentRound (run exampleExp examplePow (initialServer (config 2 1))
                                 oneOfTwoSubmitted)
                 = Some (roundOf (run exampleExp examplePow (initialServer (config 2 1))
                                    oneOfTwoSubmitted)))
      by (vm_compute; reflexivity).
    rewrite Hr in Hstatus. apply Hstatus. reflexivity.
Defined.

Lemma unscored_submission_is_not_selected_witness :
  exists s2,
    afterStoring exampleExp examplePow
      (run exampleExp examplePow (initialServer (config 2 1)) twoRegistered)
      "A" unitUpdate 100 50 10 EvalThrows 20 2000 = Some s2
    /\ exists r2, currentRound s2 = Some r2
         /\ objGet (Round.clients (Round.modelWeights r2)) "A" = Some unitUpdate
         /\ ~ In "A"%string (getSelectedClients (modelQualityCalculator s2))
         /\ objGet (includedWeights s2 r2) "A" = None.
Proof.
  destruct (afterStoring exampleExp examplePow
              (run exampleExp examplePow (initialServer (config 2 1)) twoRegistered)
              "A" unitUpdate 100 50 10 EvalThrows 20 2000) as [s2|] eqn:Hafter.
  - exists s2. split; [reflexivity|].
    apply (unscored_submission_is_not_selected exampleExp examplePow (config 2 1)
             twoRegistered "A" unitUpdate 100 50 10 EvalThrows 20 2000 s2 Hafter).
    reflexivity.
  - vm_compute in Hafter. discriminate.
Defined.
(** * What single requests do *)

Ltac armed_by L :=
  let armed := fresh "armed" in
  let H := fresh "H" in
  let Hl := fresh "Hl" in
  destruct L as (armed & H & Hl); exists armed; split; [exact H|exact Hl].

Ltac nothing_armed := exists []; rewrite app_nil_r; split; [reflexivity|simpl; lia].


Lemma timers_performAggregation s :
  exists armed, timers (performAggregation s) = timers s ++ armed
                /\ (length armed <= 1)%nat.
Proof.
  unfold performAggregation.
  destruct (currentRound s) as [r|]; [|nothing_armed].
  destruct (isAggregating s); [nothing_armed|].
  destruct (calculateAndStoreRoundMeanTime _ _) as [s2|] eqn:Hcalc.
  - apply calculateAndStoreRoundMeanTime_frame in Hcalc.
    destruct Hcalc as (means & overall & ->).
    destruct (federatedAveragingAll _); [|nothing_armed].
    destruct (_ <? _)%Z; simpl; [eexists; split; [reflexivity|simpl; lia]|].
    nothing_armed.
  - nothing_armed.
Qed.

Lemma timers_startNewRound s now :
  exists armed, timers (startNewRound s now) = timers s ++ armed
                /\ (length armed <= 1)%nat.
Proof.
  unfold startNewRound.
  destruct (_ || _ || _ || _); [nothing_armed|].
  destruct (shouldUseSynchronousMode _); simpl.
  - nothing_armed.
  - eexists. split; [reflexivity|simpl; lia].
Qed.

Lemma length_objSet {V} (o : obj V) k v :
  (length (objSet o k v) <= S (length o))%nat.
Proof.
  induction o as [|[k' v'] o IH]; simpl; [lia|].
  destruct (String.eqb k k'); simpl; lia.
Qed.

Lemma length_objDelete {V} (o : obj V) k : (length (objDelete o k) <= length o)%nat.
Proof.
  induction o as [|[k' v'] o IH]; simpl; [lia|].
  destruct (String.eqb k k'); simpl; lia.
Qed.

Lemma withinLimits_same required total s s' :
  serverConfig s' = serverConfig s ->
  REQUIRED_CLIENTS s' = REQUIRED_CLIENTS s -> TOTAL_ROUNDS s' = TOTAL_ROUNDS s ->
  length (clients s') = length (clients s) ->
  currentRoundNumber s' = currentRoundNumber s ->
  withinLimits required total s -> withinLimits required total s'.
Proof. unfold withinLimits. intros -> -> -> -> ->. auto. Qed.

Lemma withinLimits_performAggregation required total s :
  withinLimits required total s -> withinLimits required total (performAggregation s).
Proof.
  intros H. unfold performAggregation.
  destruct (currentRound s) as [r|]; [|assumption].
  destruct (isAggregating s); [assumption|].
  destruct (calculateAndStoreRoundMeanTime _ _) as [s2|] eqn:Hcalc.
  - apply calculateAndStoreRoundMeanTime_frame in Hcalc.
    destruct Hcalc as (means & overall & ->).
    destruct (federatedAveragingAll _).
    + destruct (_ <? _)%Z; (eapply withinLimits_same; [| | | | |exact H]); simpl;
        try reflexivity; apply length_map.
    + eapply withinLimits_same; [| | | | |exact H]; reflexivity.
  - eapply withinLimits_same; [| | | | |exact H]; reflexivity.
Qed.

Lemma withinLimits_startNewRound required total s now :
  withinLimits required total s -> withinLimits required total (startNewRound s now).
Proof.
  intros H. unfold startNewRound.
  destruct (match currentRound s with Some _ => true | None => false end); simpl;
    [assumption|].
  destruct (_ <? _)%Z; simpl; [assumption|].
  destruct (TOTAL_ROUNDS s <=? currentRoundNumber s)%Z eqn:Hlt; simpl; [assumption|].
  destruct (isAggregating s); [assumption|].
  apply Z.leb_gt in Hlt. destruct H as ((Hcfg1 & Hcfg2) & Hr & Ht & Hc & Hn).
  destruct (shouldUseSynchronousMode _); unfold withinLimits; simpl;
    rewrite length_map; repeat split; try assumption; lia.
Qed.


Section SingleRequests.
Variable Math_exp : float -> float.
Variable Math_pow : float -> float -> float.

(** X19: no handler cancels a timer.  After any request the pending timers
    are those pending before, without the one that has just expired,
    followed by at most one newly armed timer. *)
Theorem timers_are_never_cancelled (s : Server) (req : Request) :
  exists armed,
    timers (snd (handle Math_exp Math_pow s req)) = pendingAfter s req ++ armed
    /\ (length armed <= 1)%nat.
Proof.
  assert (Hnone : forall ts : list Timer, exists armed, ts = ts ++ armed /\ (length armed <= 1)%nat)
    by (intros ts; exists []; rewrite app_nil_r; simpl; split; [reflexivity|lia]).
  destruct req; simpl.
  - unfold register. destruct (_ <=? _)%Z; simpl; [apply Hnone|].
    match goal with
    | |- context [if ?b then startNewRound ?s1 ?t else _] =>
        destruct b; [armed_by (timers_startNewRound s1 t)|apply Hnone]
    end.
  - unfold roundStatus. destruct (objGet _ _); [|apply Hnone].
    destruct (currentRound s); simpl; [apply Hnone|].
    destruct (_ && _ && _); [armed_by (timers_startNewRound s now)|apply Hnone].
  - unfold submitWeights. destruct (objGet _ _); [|apply Hnone].
    destruct (currentRound s); [|apply Hnone].
    destruct (objHas _ _); [apply Hnone|].
    unfold receiveWeights. destruct (evaluateModel _ _ _ _ _ _) as [[q|e] calc];
      simpl; [|apply Hnone].
    match goal with
    | |- context [if ?b then (_, performAggregation ?s2) else _] =>
        destruct b; simpl; [armed_by (timers_performAggregation s2)|apply Hnone]
    end.
  - unfold deleteClient. destruct (objHas _ _); apply Hnone.
  - unfold postConfig. repeat (destruct (below _ _); [apply Hnone|]). apply Hnone.
  - unfold timeout. destruct (nth_error (timers s) n) as [t|] eqn:Hnth; simpl.
    + unfold runCallback. destruct (callback t).
      * destruct (currentRound _); [|apply Hnone].
        destruct (isAggregating _); [apply Hnone|].
        armed_by (timers_performAggregation (setTimers s (removeNth (timers s) n))).
      * armed_by (timers_startNewRound (setTimers s (removeNth (timers s) n)) now).
    + assert (Hsame : removeNth (timers s) n = timers s).
      { clear -Hnth. revert n Hnth. induction (timers s) as [|t ts IH]; intros [|n] H;
          simpl in *; try discriminate; try reflexivity. f_equal. now apply IH. }
      rewrite Hsame. apply Hnone.
Qed.

(** X20: a request answered with a client error (a status from 400 to 499)
    leaves every variable of the server as it was. *)
Theorem rejected_requests_change_nothing (s : Server) (req : Request)
    (code : Z) (text : string) :
  fst (handle Math_exp Math_pow s req) = Reply code text ->
  (400 <= code < 500)%Z ->
  snd (handle Math_exp Math_pow s req) = s.
Proof.
  destruct req; simpl.
  - unfold register. destruct (_ <=? _)%Z; simpl; [reflexivity|].
    intros [= <- _]. lia.
  - unfold roundStatus. destruct (objGet _ _); [|reflexivity].
    destruct (currentRound s); simpl; [reflexivity|]. intros [= <- _]. lia.
  - unfold submitWeights. destruct (objGet _ _); [|reflexivity].
    destruct (currentRound s); [|reflexivity].
    destruct (objHas _ _); [reflexivity|].
    destruct (receiveWeights _ _ _ _ _ _ _ _ _ _); simpl.
    + destruct (shouldStartAggregation _ _); simpl; intros [= <- _]; lia.
    + intros [= <- _]. lia.
  - unfold deleteClient. destruct (objHas _ _); simpl; [|reflexivity].
    intros [= <- _]. lia.
  - unfold postConfig. repeat (destruct (below _ _); [reflexivity|]).
    simpl. intros [= <- _]. lia.
  - unfold timeout. destruct (nth_error _ _); simpl; discriminate.
Qed.

(** X21: once every registered client has an entry in the round in
    progress, no [/round-status] and no [/submit-weights] request changes
    the server, so no client request closes such a round. *)
Theorem submitted_round_ignores_clients (s : Server) (r : Round.FederatedRound)
    (req : Request) :
  currentRound s = Some r -> allHaveSubmitted s r = true ->
  isClientRequest req = true ->
  snd (handle Math_exp Math_pow s req) = s.
Proof.
  intros Hr Hall Hreq. unfold allHaveSubmitted in Hall. rewrite forallb_forall in Hall.
  destruct req; try discriminate; simpl.
  - unfold roundStatus. destruct (objGet _ _); [|reflexivity]. now rewrite Hr.
  - unfold submitWeights. destruct (objGet (clients s) id) eqn:Hc; [|reflexivity].
    rewrite Hr. rewrite Hall; [reflexivity|].
    apply objHas_true_In. unfold objHas. now rewrite Hc.
Qed.

Lemma withinLimits_handle required total s req :
  keepsLimits req = true ->
  withinLimits required total s ->
  withinLimits required total (snd (handle Math_exp Math_pow s req)).
Proof.
  intros Hkeep H. destruct req; simpl.
  - unfold register. destruct (_ <=? _)%Z eqn:Hfull; simpl; [assumption|].
    apply Z.leb_gt in Hfull.
    assert (H1 : withinLimits required total
              (setClients s
                 (objSet (clients s) newId
                    {| Client.clientId := newId; Client.status := Client.idle;
                       Client.lastUpdate := now |}))).
    { destruct H as ((Hcfg1 & Hcfg2) & Hr & Ht & Hc & Hn). unfold withinLimits. simpl.
      repeat split; try assumption.
      pose proof (length_objSet (clients s) newId
                    {| Client.clientId := newId; Client.status := Client.idle;
                       Client.lastUpdate := now |}). lia. }
    destruct (_ =? _)%Z; [|assumption]. now apply withinLimits_startNewRound.
  - unfold roundStatus. destruct (objGet _ _); [|assumption].
    destruct (currentRound s); simpl; [assumption|].
    destruct (_ && _ && _); [|assumption]. now apply withinLimits_startNewRound.
  - unfold submitWeights. destruct (objGet (clients s) id) as [client|] eqn:Hc;
      [|assumption].
    destruct (currentRound s); [|assumption].
    destruct (objHas _ _); [assumption|].
    unfold receiveWeights. destruct (evaluateModel _ _ _ _ _ _) as [[q|e] calc]; simpl.
    + assert (Hlen : length (objSet (clients s) id
                               {| Client.clientId := Client.clientId client;
                                  Client.status := Client.aggregating;
                                  Client.lastUpdate := now |}) = length (clients s)).
      { pose proof (objKeys_objSet (clients s) id
                      {| Client.clientId := Client.clientId client;
                         Client.status := Client.aggregating;
                         Client.lastUpdate := now |}) as Hk.
        unfold objHas in Hk. rewrite Hc in Hk.
        apply (f_equal (@length string)) in Hk. unfold objKeys in Hk.
        now rewrite !length_map in Hk. }
      match goal with
      | |- withinLimits _ _ (snd (if _ then (_, performAggregation ?s2) else _)) =>
          assert (H2 : withinLimits required total s2)
            by (eapply withinLimits_same; [| | | | |exact H]; simpl; auto)
      end.
      destruct (shouldStartAggregation _ _); simpl; [|assumption].
      now apply withinLimits_performAggregation.
    + eapply withinLimits_same; [| | | | |exact H]; reflexivity.
  - unfold deleteClient. destruct (objHas _ _); simpl; [|assumption].
    destruct H as ((Hcfg1 & Hcfg2) & Hr & Ht & Hc & Hn). unfold withinLimits. simpl.
    repeat split; try assumption.
    pose proof (length_objDelete (clients s) id). lia.
  - unfold postConfig. repeat (destruct (below _ _); [assumption|]).
    simpl in Hkeep.
    destruct (newTotalRounds newConfig); [discriminate|].
    destruct (newRequiredClients newConfig); [discriminate|].
    destruct H as ((Hcfg1 & Hcfg2) & Hr & Ht & Hc & Hn). unfold withinLimits. simpl.
    repeat split; try assumption.
  - unfold timeout. destruct (nth_error _ _) as [t|]; simpl; [|assumption].
    assert (H1 : withinLimits required total (setTimers s (removeNth (timers s) n)))
      by (eapply withinLimits_same; [| | | | |exact H]; reflexivity).
    unfold runCallback. destruct (callback t).
    + destruct (currentRound _); [|assumption].
      destruct (isAggregating _); [assumption|].
      now apply withinLimits_performAggregation.
    + now apply withinLimits_startNewRound.
Qed.

Lemma withinLimits_run required total s reqs :
  forallb keepsLimits reqs = true ->
  withinLimits required total s ->
  withinLimits required total (run Math_exp Math_pow s reqs).
Proof.
  revert s. induction reqs as [|req reqs IH]; intros s Hkeep H; simpl; [assumption|].
  simpl in Hkeep. apply andb_true_iff in Hkeep. destruct Hkeep as [Hreq Hrest].
  apply IH; [assumption|]. now apply withinLimits_handle.
Qed.

(** X22: as long as no reconfiguration changes [requiredClients] or
    [totalRounds], the registry never holds more than [requiredClients]
    clients and the server never starts more than [totalRounds] rounds. *)
Theorem limits_are_respected (config : ServerConfig) (reqs : list Request) :
  forallb keepsLimits reqs = true ->
  let s := run Math_exp Math_pow (initialServer config) reqs in
  (Z.of_nat (length (clients s)) <= Z.max 0 (requiredClients config))%Z
  /\ (currentRoundNumber s <= Z.max 0 (totalRounds config))%Z
  /\ (Z.of_nat (length (rounds s)) <= Z.max 0 (totalRounds config))%Z.
Proof.
  intros Hkeep s.
  assert (H : withinLimits (requiredClients config) (totalRounds config) s).
  { apply withinLimits_run; [assumption|]. unfold withinLimits. simpl.
    repeat split; lia. }
  destruct H as (_ & _ & _ & Hc & Hn).
  destruct (coherent_reachable Math_exp Math_pow config reqs)
    as [_ _ _ _ _ _ Hnum _ _ _ _ _ _]. fold s in Hnum.
  repeat split; try assumption.
  destruct (currentRound s); lia.
Qed.

Lemma serverConfig_performAggregation s :
  serverConfig (performAggregation s) = serverConfig s.
Proof.
  unfold performAggregation.
  destruct (currentRound s); [|reflexivity].
  destruct (isAggregating s); [reflexivity|].
  destruct (calculateAndStoreRoundMeanTime _ _) as [s2|] eqn:Hcalc; [|reflexivity].
  apply calculateAndStoreRoundMeanTime_frame in Hcalc.
  destruct Hcalc as (means & overall & ->).
  destruct (federatedAveragingAll _); [|reflexivity].
  now destruct (_ <? _)%Z.
Qed.

Lemma serverConfig_startNewRound s now :
  serverConfig (startNewRound s now) = serverConfig s.
Proof.
  unfold startNewRound. destruct (_ || _ || _ || _); [reflexivity|].
  now destruct (shouldUseSynchronousMode _).
Qed.

Lemma validConfig_handle s req :
  validConfig (serverConfig s) ->
  validConfig (serverConfig (snd (handle Math_exp Math_pow s req))).
Proof.
  intros H. destruct req; simpl.
  - unfold register. destruct (_ <=? _)%Z; simpl; [assumption|].
    destruct (_ =? _)%Z; [|assumption]. now rewrite serverConfig_startNewRound.
  - unfold roundStatus. destruct (objGet _ _); [|assumption].
    destruct (currentRound s) eqn:Hr; simpl; [assumption|].
    destruct (_ && _ && _); [|assumption]. now rewrite serverConfig_startNewRound.
  - unfold submitWeights. destruct (objGet _ _); [|assumption].
    destruct (currentRound s); [|assumption].
    destruct (objHas _ _); [assumption|].
    unfold receiveWeights. destruct (evaluateModel _ _ _ _ _ _) as [[q|e] calc]; simpl;
      [|assumption].
    destruct (shouldStartAggregation _ _); simpl; [|assumption].
    now rewrite serverConfig_performAggregation.
  - unfold deleteClient. now destruct (objHas _ _).
  - unfold postConfig.
    destruct (below (newTotalRounds newConfig) 1) eqn:Ht; [assumption|].
    destruct (below (newRequiredClients newConfig) 1) eqn:Hc; [assumption|].
    destruct (below (newAggregationInterval newConfig) 100) eqn:Hi; [assumption|].
    simpl. destruct H as (H1 & H2 & H3). unfold validConfig, below, merge in *. simpl.
    destruct (newTotalRounds newConfig), (newRequiredClients newConfig),
      (newAggregationInterval newConfig); repeat split; try assumption;
      repeat match goal with
      | H : (_ <? _)%Z = false |- _ => apply Z.ltb_ge in H
      end; lia.
  - unfold timeout. destruct (nth_error _ _) as [t|]; simpl; [|assumption].
    unfold runCallback. destruct (callback t).
    + destruct (currentRound _); [|assumption].
      destruct (isAggregating _); [assumption|].
      now rewrite serverConfig_performAggregation.
    + now rewrite serverConfig_startNewRound.
Qed.

(** X23: [POST /config] cannot make the configuration invalid.  A server
    started with at least one round, one required client and an
    aggregation interval of 100 ms keeps these bounds through every
    request. *)
Theorem configuration_stays_valid (config : ServerConfig) (reqs : list Request) :
  validConfig config ->
  let s := run Math_exp Math_pow (initialServer config) reqs in
  validConfig (serverConfig s)
  /\ (1 <= REQUIRED_CLIENTS s)%Z /\ (1 <= TOTAL_ROUNDS s)%Z.
Proof.
  intros Hvalid s.
  assert (H : validConfig (serverConfig s)).
  { unfold s. generalize (initialServer config) (Hvalid : validConfig (serverConfig (initialServer config))).
    induction reqs as [|req reqs IH]; intros s0 H0; simpl; [assumption|].
    apply IH. now apply validConfig_handle. }
  split; [assumption|].
  destruct (coherent_reachable Math_exp Math_pow config reqs) as [_ Hreq Htot _ _ _ _ _ _ _ _ _ _].
  fold s in Hreq, Htot. rewrite Hreq, Htot. destruct H as (H1 & H2 & _). split; assumption.
Qed.

(** X24: a deadline callback that fires while a round is in progress closes
    that round, whatever the round's own deadline, the time and the mode;
    in particular a callback armed by an earlier round does. *)
Theorem deadline_callback_closes_the_round (s : Server) (r : Round.FederatedRound)
    (n : nat) (t : Timer) (now : float) (m : Model) :
  nth_error (timers s) n = Some t -> callback t = DeadlineReached ->
  currentRound s = Some r -> isAggregating s = false ->
  (1 <= currentRoundNumber s)%Z ->
  federatedAveragingAll (includedWeights s r) = Returns m ->
  let s' := snd (timeout s n now) in
  currentRound s' = None /\ globalModel s' = Some m
  /\ exists r', rounds s' = rounds s ++ [r']
                /\ Round.clients (Round.modelWeights r') = Round.clients (Round.modelWeights r).
Proof.
  intros Hnth Hcb Hr Hflag Hnum Hagg s'. unfold s', timeout. rewrite Hnth. simpl.
  unfold runCallback. rewrite Hcb. simpl. rewrite Hr, Hflag.
  set (s1 := setTimers s (removeNth (timers s) n)).
  destruct (performAggregation_returns s1 r m) as (Hg & Hc & _); try assumption.
  split; [assumption|]. split; [assumption|].
  unfold performAggregation. simpl. rewrite Hr, Hflag.
  destruct (calculateAndStoreRoundMeanTime_returns (setIsAggregating s1 true)
              (currentRoundNumber s) Hnum) as (means & overall & Hcalc).
  simpl in Hcalc. rewrite Hcalc.
  unfold includedWeights in Hagg. simpl. rewrite Hagg.
  destruct (_ <? _)%Z; simpl; eexists; split; reflexivity.
Qed.

End SingleRequests.

Lemma rejected_requests_change_nothing_witness :
  snd (handle exampleExp examplePow (initialServer (config 2 1))
         (GetRoundStatus "X" 0))
  = initialServer (config 2 1).
Proof.
  apply (rejected_requests_change_nothing exampleExp examplePow
           (initialServer (config 2 1)) (GetRoundStatus "X" 0) 400 "Invalid client").
  - reflexivity.
  - lia.
Defined.

Lemma submitted_round_ignores_clients_witness :
  shouldUseSynchronousMode
    (run exampleExp examplePow (initialServer (config 2 1)) lastWaitingRemoved) = true
  /\ timers (run exampleExp examplePow (initialServer (config 2 1)) lastWaitingRemoved) = []
  /\ snd (handle exampleExp examplePow
            (run exampleExp examplePow (initialServer (config 2 1)) lastWaitingRemoved)
            (submit "A" unitUpdate 2))
     = run exampleExp examplePow (initialServer (config 2 1)) lastWaitingRemoved.
Proof.
  split; [vm_compute; reflexivity|]. split; [vm_compute; reflexivity|].
  apply (submitted_round_ignores_clients exampleExp examplePow
           (run exampleExp examplePow (initialServer (config 2 1)) lastWaitingRemoved)
           (roundOf (run exampleExp examplePow (initialServer (config 2 1))
                       lastWaitingRemoved))).
  - vm_compute. reflexivity.
  - vm_compute. reflexivity.
  - reflexivity.
Defined.

Lemma limits_are_respected_witness :
  let s := run exampleExp examplePow (initialServer (config 3 1)) bystanderRemoved in
  (Z.of_nat (length (clients s)) <= Z.max 0 (requiredClients (config 3 1)))%Z
  /\ (currentRoundNumber s <= Z.max 0 (totalRounds (config 3 1)))%Z
  /\ (Z.of_nat (length (rounds s)) <= Z.max 0 (totalRounds (config 3 1)))%Z.
Proof.
  apply (limits_are_respected exampleExp examplePow (config 3 1) bystanderRemoved).
  reflexivity.
Defined.

Lemma configuration_stays_valid_witness :
  let s := run exampleExp examplePow (initialServer (config 2 1)) reconfigured in
  validConfig (serverConfig s)
  /\ (1 <= REQUIRED_CLIENTS s)%Z /\ (1 <= TOTAL_ROUNDS s)%Z.
Proof.
  apply (configuration_stays_valid exampleExp examplePow (config 2 1) reconfigured).
  unfold validConfig. simpl. lia.
Defined.

Lemma deadline_callback_closes_the_round_witness :
  roundDeadline (run exampleExp examplePow (initialServer (config 1 0)) secondRoundStarted)
  = Some 35000
  /\ hasDeadlinePassed
       (run exampleExp examplePow (initialServer (config 1 0)) secondRoundStarted) 31000
     = false
  /\ currentRound
       (snd (timeout (run exampleExp examplePow (initialServer (config 1 0))
                        secondRoundStarted) 0 31000)) = None
  /\ globalModel
       (snd (timeout (run exampleExp examplePow (initialServer (config 1 0))
                        secondRoundStarted) 0 31000)) = Some [].
Proof.
  split; [vm_compute; reflexivity|]. split; [vm_compute; reflexivity|].
  destruct (deadline_callback_closes_the_round
              (run exampleExp examplePow (initialServer (config 1 0)) secondRoundStarted)
              (roundOf (run exampleExp examplePow (initialServer (config 1 0))
                          secondRoundStarted))
              0 {| callback := DeadlineReached; delay := 30000 |} 31000 [])
    as (Hround & Hmodel & _); try (vm_compute; reflexivity).
  - vm_compute. discriminate.
  - split; [exact Hround|exact Hmodel].
Defined.
(** * Start-up: command line and architectures *)

Lemma truthy_orElse x d : JS.truthy d = true -> JS.truthy (JS.orElse x d) = true.
Proof. unfold JS.orElse. destruct (JS.truthy x) eqn:H; auto. Qed.

Lemma orString_nonempty value d : d <> EmptyString -> Args.orString value d <> EmptyString.
Proof. destruct value as [[|c v]|]; simpl; auto. discriminate. Qed.

Section ParseArgsFacts.
Variable parseInt : option string -> float.

Lemma parseArg_outcome config arg :
  usable config ->
  match Args.parseArg parseInt config arg with
  | None => asksForHelp arg = true
  | Some config' => asksForHelp arg = false /\ usable config'
  end.
Proof.
  intros (H1 & H2 & H3 & H4 & H5). unfold Args.parseArg, asksForHelp.
  destruct (String.prefix "--" arg); simpl; [|repeat split; assumption].
  destruct (String.eqb (Args.keyOf arg) "min-clients") eqn:K1.
  { apply String.eqb_eq in K1. rewrite K1. simpl. repeat split; try assumption.
    now apply truthy_orElse. }
  destruct (String.eqb (Args.keyOf arg) "required-clients") eqn:K2.
  { apply String.eqb_eq in K2. rewrite K2. simpl. repeat split; try assumption.
    now apply truthy_orElse. }
  destruct (String.eqb (Args.keyOf arg) "fl-rounds") eqn:K3.
  { apply String.eqb_eq in K3. rewrite K3. simpl. repeat split; try assumption.
    now apply truthy_orElse. }
  destruct (String.eqb (Args.keyOf arg) "total-rounds") eqn:K4.
  { apply String.eqb_eq in K4. rewrite K4. simpl. repeat split; try assumption.
    now apply truthy_orElse. }
  destruct (String.eqb (Args.keyOf arg) "dataset") eqn:K5.
  { apply String.eqb_eq in K5. rewrite K5. simpl. repeat split; try assumption.
    now apply orString_nonempty. }
  destruct (String.eqb (Args.keyOf arg) "sync-rounds") eqn:K6.
  { apply String.eqb_eq in K6. rewrite K6. simpl. repeat split; try assumption.
    now apply truthy_orElse. }
  destruct (String.eqb (Args.keyOf arg) "synchronous-rounds") eqn:K7.
  { apply String.eqb_eq in K7. rewrite K7. simpl. repeat split; try assumption.
    now apply truthy_orElse. }
  destruct (String.eqb (Args.keyOf arg) "aggregation-interval") eqn:K8.
  { apply String.eqb_eq in K8. rewrite K8. simpl. repeat split; try assumption.
    now apply truthy_orElse. }
  simpl. destruct (String.eqb (Args.keyOf arg) "help"); [reflexivity|].
  repeat split; assumption.
Qed.

Lemma parseFrom_outcome config args :
  usable config ->
  match Args.parseFrom parseInt config args with
  | None => existsb asksForHelp args = true
  | Some config' => existsb asksForHelp args = false /\ usable config'
  end.
Proof.
  revert config. induction args as [|arg args IH]; intros config Hc; simpl.
  - now split.
  - pose proof (parseArg_outcome config arg Hc) as H.
    destruct (Args.parseArg parseInt config arg) as [config'|].
    + destruct H as [-> Hc']. simpl. now apply IH.
    + now rewrite H.
Qed.

(** X25: [parseArgs] ends the process exactly when some argument is
    [--help] (with or without a value); otherwise, whatever [parseInt]
    returns, no numeric option of the configuration is [0] or NaN and the
    dataset name is not empty. *)
Theorem parseArgs_outcome (args : list string) :
  match Args.parseArgs parseInt args with
  | None => existsb asksForHelp args = true
  | Some config => existsb asksForHelp args = false /\ usable config
  end.
Proof.
  apply parseFrom_outcome. unfold usable. simpl.
  repeat split; try (vm_compute; reflexivity). discriminate.
Qed.

End ParseArgsFacts.

(** X26: for every dataset name, whatever lower-casing does to it, the
    layers of [getModelArchitecture] are all of a type that
    [initializeModel] builds, so its [switch] never throws "Unsupported
    layer type".  The first layer carries the input shape of the
    architecture and the last one is the ten-way softmax. *)
Theorem architectures_are_supported (toLowerCase : string -> string) (dataset : string) :
  let architecture := getModelArchitecture toLowerCase dataset in
  exists first middle,
    layersOf (layers architecture)
    = Returns (first :: middle ++ [TfDense (Some 10) (Some "softmax"%string) None])
    /\ option_map inputShape (hd_error (layers architecture))
       = Some (Some (archInputShape architecture)).
Proof.
  intros architecture. unfold architecture, getModelArchitecture.
  destruct (String.eqb _ "cifar10");
    [|destruct (String.eqb _ "fashion-mnist"); [|destruct (String.eqb _ "mnist")]];
    simpl; eexists; eexists; (split; [|reflexivity]).
  - instantiate (1 := [_; _; _; _; _]). reflexivity.
  - instantiate (1 := [_]). reflexivity.
  - instantiate (1 := [_]). reflexivity.
  - instantiate (1 := [_]). reflexivity.
Qed.
(** ** Clients across rounds and removals *)

Lemma objGet_objDelete_same {V} (o : obj V) k :
  NoDup (objKeys o) -> objGet (objDelete o k) k = None.
Proof.
  intros Hnd. destruct (objGet (objDelete o k) k) as [v|] eqn:Hget; [|reflexivity].
  apply objGet_objDelete_some in Hget; [|assumption]. now destruct Hget.
Qed.

Lemma calculator_performAggregation s :
  modelQualityCalculator (performAggregation s) = modelQualityCalculator s.
Proof.
  unfold performAggregation.
  destruct (currentRound s); [|reflexivity].
  destruct (isAggregating s); [reflexivity|].
  destruct (calculateAndStoreRoundMeanTime _ _) as [s2|] eqn:Hcalc; [|reflexivity].
  apply calculateAndStoreRoundMeanTime_frame in Hcalc.
  destruct Hcalc as (means & overall & ->).
  destruct (federatedAveragingAll _); [|reflexivity].
  now destruct (_ <? _)%Z.
Qed.

Lemma previousLoss_startNewRound s now :
  previousRoundMetrics (modelQualityCalculator (startNewRound s now))
  = previousRoundMetrics (modelQualityCalculator s).
Proof.
  unfold startNewRound. destruct (_ || _ || _ || _); [reflexivity|].
  now destruct (shouldUseSynchronousMode _).
Qed.

Section Lifecycle.
Variable Math_exp : float -> float.
Variable Math_pow : float -> float -> float.

Lemma hasPreviousLoss_handle s req who :
  hasPreviousLoss s who = true ->
  hasPreviousLoss (snd (handle Math_exp Math_pow s req)) who = true.
Proof.
  unfold hasPreviousLoss. intros H. destruct req; simpl.
  - unfold register. destruct (_ <=? _)%Z; simpl; [simpl; assumption|].
    destruct (_ =? _)%Z; [|simpl; assumption].
    rewrite previousLoss_startNewRound. assumption.
  - unfold roundStatus. destruct (objGet _ _); [|simpl; assumption].
    destruct (currentRound s); simpl; [simpl; assumption|].
    destruct (_ && _ && _); [|simpl; assumption].
    rewrite previousLoss_startNewRound. assumption.
  - unfold submitWeights. destruct (objGet _ _); [|simpl; assumption].
    destruct (currentRound s); [|simpl; assumption].
    destruct (objHas (Round.clients _) _); [simpl; assumption|].
    unfold receiveWeights.
    destruct (evaluateModel _ _ _ _ _ _) as [[q|e] calc] eqn:Heval; simpl;
      [|simpl; assumption].
    assert (Hcalc : objHas (previousRoundMetrics calc) who = true).
    { unfold evaluateModel in Heval. simpl in Heval.
      destruct (negb _); [now injection Heval as _ <-|].
      destruct ev as [|l]; [now injection Heval as _ <-|].
      destruct (JS.isNaN l); [now injection Heval as _ <-|].
      injection Heval as _ <-. simpl.
      apply objHas_true_In. rewrite objKeys_objSet.
      apply objHas_true_In in H.
      match goal with |- In _ (if ?b then _ else _) => destruct b end; [assumption|].
      apply in_or_app. now left. }
    destruct (shouldStartAggregation _ _); simpl; [|simpl; assumption].
    rewrite calculator_performAggregation. assumption.
  - unfold deleteClient. destruct (objHas (clients s) _); simpl; assumption.
  - unfold postConfig. repeat (destruct (below _ _); [simpl; assumption|]). simpl. assumption.
  - unfold timeout. destruct (nth_error _ _) as [t|]; simpl; [|simpl; assumption].
    unfold runCallback. destruct (callback t).
    + destruct (currentRound _); [|simpl; assumption].
      destruct (isAggregating _); [simpl; assumption|].
      rewrite calculator_performAggregation. assumption.
    + rewrite previousLoss_startNewRound. assumption.
Qed.

(** X29: a stored previous loss is never dropped.  Once a client has one
    it has one after every further sequence of requests, through new
    rounds, its removal from the registry and reconfigurations. *)
Theorem previous_losses_persist (s : Server) (reqs : list Request) (id : string) :
  hasPreviousLoss s id = true ->
  hasPreviousLoss (run Math_exp Math_pow s reqs) id = true.
Proof.
  revert s. induction reqs as [|req reqs IH]; intros s H; simpl; [assumption|].
  apply IH. now apply hasPreviousLoss_handle.
Qed.

(** X27: in every reachable state, the submission of a registered client
    that brings the number of submissions of the round to the number of
    registered clients is followed by aggregation within the same request,
    in either mode. *)
Theorem last_submission_aggregates (config : ServerConfig) (reqs : list Request)
    (r : Round.FederatedRound) (id : string) (weights : Model)
    (nData tTime cst : float) (ev : Evaluation) (pnow now : float) :
  let s := run Math_exp Math_pow (initialServer config) reqs in
  currentRound s = Some r ->
  objHas (clients s) id = true ->
  objHas (Round.clients (Round.modelWeights r)) id = false ->
  S (length (Round.submitted r)) = length (clients s) ->
  exists s2,
    afterStoring Math_exp Math_pow s id weights nData tTime cst ev pnow now = Some s2
    /\ shouldStartAggregation s2 now = true
    /\ handle Math_exp Math_pow s
         (PostSubmitWeights id weights nData tTime cst ev pnow now)
       = (Reply 200 "aggregated", performAggregation s2).
Proof.
  intros s Hr Hreg Hnot Hcount.
  destruct (coherent_reachable Math_exp Math_pow config reqs)
    as [_ _ _ _ _ _ _ Hcur _ _ _ _ _]. fold s in Hcur.
  destruct (Hcur r Hr) as (_ & _ & _ & _ & Hmodel & _).
  simpl. unfold submitWeights, afterStoring. unfold objHas in Hreg.
  destruct (objGet (clients s) id) as [client|] eqn:Hclient; [|discriminate].
  rewrite Hr, Hnot. unfold receiveWeights. simpl.
  destruct (evaluateModel_returns Math_exp Math_pow (modelQualityCalculator s) id ev nData
              Hmodel) as (q & c' & -> & _).
  eexists. split; [reflexivity|].
  match goal with
  | |- shouldStartAggregation ?s2 now = true /\ _ =>
      assert (Hall : haveAllClientsSubmitted s2 = true)
  end.
  { unfold haveAllClientsSubmitted. simpl. apply Nat.eqb_eq.
    unfold Round.submitted in *. simpl.
    rewrite objKeys_objSet, Hnot, length_app. simpl.
    pose proof (objKeys_objSet (clients s) id
                  {| Client.clientId := Client.clientId client;
                     Client.status := Client.aggregating;
                     Client.lastUpdate := now |}) as Hk.
    unfold objHas in Hk. rewrite Hclient in Hk.
    apply (f_equal (@length string)) in Hk. unfold objKeys in *.
    rewrite !length_map in *. lia. }
  assert (Hstart : forall s2, haveAllClientsSubmitted s2 = true ->
                              shouldStartAggregation s2 now = true).
  { intros s2 H. unfold shouldStartAggregation. rewrite H.
    now destruct (shouldUseSynchronousMode s2). }
  split; [now apply Hstart|]. now rewrite (Hstart _ Hall).
Qed.

(** X28: in every reachable state, after [DELETE /clients/:clientId] has
    removed a client, its [/round-status] and [/submit-weights] requests
    are rejected with status 400, while the rounds, with any submission of
    the client, are as before. *)
Theorem deleted_client_is_locked_out (config : ServerConfig) (reqs : list Request)
    (id : string) (weights : Model) (nData tTime cst : float) (ev : Evaluation)
    (pnow now : float) :
  let s := run Math_exp Math_pow (initialServer config) reqs in
  let s' := snd (deleteClient s id) in
  objHas (clients s) id = true ->
  fst (deleteClient s id) = Reply 200 "Client disconnected successfully"
  /\ handle Math_exp Math_pow s' (GetRoundStatus id now) = (Reply 400 "Invalid client", s')
  /\ handle Math_exp Math_pow s'
       (PostSubmitWeights id weights nData tTime cst ev pnow now)
     = (Reply 400 "Invalid client or no active round", s')
  /\ currentRound s' = currentRound s /\ rounds s' = rounds s.
Proof.
  intros s s' Hreg.
  destruct (coherent_reachable Math_exp Math_pow config reqs)
    as [_ _ _ _ _ _ _ _ _ [Hnd _] _ _ _]. fold s in Hnd.
  unfold s', deleteClient. rewrite Hreg. simpl.
  unfold roundStatus, submitWeights. simpl.
  rewrite (objGet_objDelete_same _ _ Hnd). repeat split.
Qed.

End Lifecycle.

Local Open Scope string_scope.

Lemma previous_losses_persist_witness :
  hasPreviousLoss
    (run exampleExp examplePow (initialServer (config 1 1)) firstRoundDone) "A" = true
  /\ hasPreviousLoss
       (run exampleExp examplePow
          (run exampleExp examplePow (initialServer (config 1 1)) firstRoundDone)
          removedAndBack) "A" = true.
Proof.
  split; [vm_compute; reflexivity|].
  apply (previous_losses_persist exampleExp examplePow
           (run exampleExp examplePow (initialServer (config 1 1)) firstRoundDone)
           removedAndBack "A").
  vm_compute. reflexivity.
Defined.

Lemma last_submission_aggregates_witness :
  currentRound (run exampleExp examplePow (initialServer (config 2 1)) oneOfTwoSubmitted)
  = Some (roundOf (run exampleExp examplePow (initialServer (config 2 1))
                     oneOfTwoSubmitted))
  /\ exists s2,
       afterStoring exampleExp examplePow
         (run exampleExp examplePow (initialServer (config 2 1)) oneOfTwoSubmitted)
         "B" unitUpdate 100 50 10 (EvalLoss 2) 20 2000 = Some s2
       /\ shouldStartAggregation s2 2000 = true
       /\ handle exampleExp examplePow
            (run exampleExp examplePow (initialServer (config 2 1)) oneOfTwoSubmitted)
            (PostSubmitWeights "B" unitUpdate 100 50 10 (EvalLoss 2) 20 2000)
          = (Reply 200 "aggregated", performAggregation s2).
Proof.
  split; [vm_compute; reflexivity|].
  apply (last_submission_aggregates exampleExp examplePow (config 2 1) oneOfTwoSubmitted
           (roundOf (run exampleExp examplePow (initialServer (config 2 1))
                       oneOfTwoSubmitted))
           "B" unitUpdate 100 50 10 (EvalLoss 2) 20 2000).
  - vm_compute. reflexivity.
  - vm_compute. reflexivity.
  - vm_compute. reflexivity.
  - vm_compute. reflexivity.
Defined.

Lemma deleted_client_is_locked_out_witness :
  objHas (clients (run exampleExp examplePow (initialServer (config 2 1))
                     oneOfTwoSubmitted)) "A" = true
  /\ objHas (Round.clients (Round.modelWeights
               (roundOf (snd (deleteClient
                  (run exampleExp examplePow (initialServer (config 2 1))
                     oneOfTwoSubmitted) "A"))))) "A" = true
  /\ handle exampleExp examplePow
       (snd (deleteClient
               (run exampleExp examplePow (initialServer (config 2 1)) oneOfTwoSubmitted)
               "A"))
       (GetRoundStatus "A" 3000)
     = (Reply 400 "Invalid client",
        snd (deleteClient
               (run exampleExp examplePow (initialServer (config 2 1)) oneOfTwoSubmitted)
               "A")).
Proof.
  split; [vm_compute; reflexivity|]. split; [vm_compute; reflexivity|].
  apply (deleted_client_is_locked_out exampleExp examplePow (config 2 1) oneOfTwoSubmitted
           "A" unitUpdate 100 50 10 (EvalLoss 2) 20 3000).
  vm_compute. reflexivity.
Defined.

Local Close Scope string_scope.
